(** * Deposit confirmation pipeline and payment settlement

    A shallow embedding of the chain worker (cursor store, deposit ledger,
    chain scanner, reconciliation sweep) and of the payment settlement part
    of [apis/server/src/store.ts] ([grantCredits], [handleStripeEvent],
    [handleUsdtPayment]), with the properties of the design document stated
    and settled against that embedding.

    Conventions of the embedding:
    - [bigint] values are [Z]; JavaScript [number]s that hold integers are
      [Z] as well, and [Number_of_BigInt] spells out the rounding of
      [Number(bigint)];
    - a database table is a list of rows, with the uniqueness constraints of
      the schema checked by the statement that inserts; the width of the
      [integer] columns of [chain_deposits] is left out of the statements of
      [ChainWorker] and spelled out in [IntegerColumns], where the counts
      the worker computes and stores are settled;
    - every [await] is a point at which the awaited operation can fail: a
      run carries the number of awaited operations that still succeed
      ([faultIn]), so that "fails at any point" is a quantification over
      that number.

    Further parts of the server are embedded in the same way, each with
    the properties its code shows: task creation and the progression
    timers ([videoTaskService]), the USDT webhook route, the session
    store, API keys ([apiKeyService]), registration and password reset
    tokens.  There a
    finite [number] that need not be an integer is a rational ([Q]). *)

From Stdlib Require Import ZArith QArith Qround Ascii Lia.
From stdpp Require Import base option list gmap strings.

(** ** Effects: state, exceptions, awaited operations *)

Module Fx.

Inductive Result (S A : Type) : Type :=
| Returned (a : A) (s : S)
| Threw (e : string) (s : S).
Arguments Returned {S A} a s.
Arguments Threw {S A} e s.

Definition M (S A : Type) : Type := S → Result S A.

Definition ret {S A} (a : A) : M S A := fun s => Returned a s.

Definition bind {S A B} (m : M S A) (k : A → M S B) : M S B :=
  fun s =>
    match m s with
    | Returned a s' => k a s'
    | Threw e s' => Threw e s'
    end.

Definition throw {S A} (e : string) : M S A := fun s => Threw e s.

Definition gets {S A} (f : S → A) : M S A := fun s => Returned (f s) s.

Definition modify {S} (f : S → S) : M S unit := fun s => Returned tt (f s).

(** [try { m } catch (e) { h e }] *)
Definition tryCatch {S A} (m : M S A) (h : string → M S A) : M S A :=
  fun s =>
    match m s with
    | Returned a s' => Returned a s'
    | Threw e s' => h e s'
    end.

(** [try { m } finally { fin }] *)
Definition finally {S A} (m : M S A) (fin : M S unit) : M S A :=
  fun s =>
    match m s with
    | Returned a s' =>
        match fin s' with
        | Returned _ s'' => Returned a s''
        | Threw e s'' => Threw e s''
        end
    | Threw e s' =>
        match fin s' with
        | Returned _ s'' => Threw e s''
        | Threw e' s'' => Threw e' s''
        end
    end.

(** [for (const x of l) { await f(x) }] *)
Fixpoint forM_ {S A} (l : list A) (f : A → M S unit) : M S unit :=
  match l with
  | [] => ret tt
  | x :: xs => bind (f x) (fun _ => forM_ xs f)
  end.

Definition stateOf {S A} (r : Result S A) : S :=
  match r with
  | Returned _ s => s
  | Threw _ s => s
  end.

Definition returned {S A} (r : Result S A) : bool :=
  match r with
  | Returned _ _ => true
  | Threw _ _ => false
  end.

(** The world a handler or a poll cycle runs in: the backing store (and
    process memory) [store]; the number of awaited operations that still
    succeed before one fails, [faultIn] ([None]: none fails); the wall
    clock read by [new Date().toISOString()]; the values
    [crypto.randomUUID()] yields, in the order they are drawn. *)
Record World (D : Type) : Type := mkWorld {
  store : D;
  faultIn : option nat;
  clock : string;
  entropy : nat → string;
  drawn : nat;
}.
Arguments mkWorld {D} _ _ _ _ _.
Arguments store {D} _.
Arguments faultIn {D} _.
Arguments clock {D} _.
Arguments entropy {D} _.
Arguments drawn {D} _.

Definition setStore {D} (d : D) (w : World D) : World D :=
  mkWorld d (faultIn w) (clock w) (entropy w) (drawn w).

(** One awaited operation has been carried out with outcome store [d]. *)
Definition tick {D} (d : D) (w : World D) : World D :=
  mkWorld d (Nat.pred <$> faultIn w) (clock w) (entropy w) (drawn w).

(** [await op]: the operation is a statement against the store (or a
    remote call that leaves it alone).  When the fault is due the
    operation throws without effect; otherwise it runs, and may still
    throw by itself (a violated constraint), again without effect. *)
Definition await {D A} (op : D → Result D A) : M (World D) A :=
  fun w =>
    match faultIn w with
    | Some O => Threw "operation failed" w
    | _ =>
        match op (store w) with
        | Returned a d => Returned a (tick d w)
        | Threw e d => Threw e (tick d w)
        end
    end.

(** Synchronous access to process memory kept in [store]. *)
Definition getsStore {D A} (f : D → A) : M (World D) A :=
  fun w => Returned (f (store w)) w.

Definition modifyStore {D} (f : D → D) : M (World D) unit :=
  fun w => Returned tt (setStore (f (store w)) w).

Definition getIsoTimestamp {D} : M (World D) string :=
  fun w => Returned (clock w) w.

Definition randomUUID {D} : M (World D) string :=
  fun w =>
    Returned (entropy w (drawn w))
             (mkWorld (store w) (faultIn w) (clock w) (entropy w) (S (drawn w))).

(** A world in which nothing fails. *)
Definition calm {D} (d : D) (now : string) (ids : nat → string) : World D :=
  mkWorld d None now ids 0.

(** *** A two-exit Hoare triple for [M] *)

Definition triple {S A} (P : S → Prop) (m : M S A)
           (Q : A → S → Prop) (E : S → Prop) : Prop :=
  ∀ s, P s →
       match m s with
       | Returned a s' => Q a s'
       | Threw _ s' => E s'
       end.

End Fx.

Declare Scope fx_scope.
Delimit Scope fx_scope with fx.
Notation "'let*' x ':=' c1 'in' c2" := (Fx.bind c1 (fun x => c2))
  (at level 10, x name, c1 at level 100, c2 at level 200) : fx_scope.
Notation "'exec' c1 'then' c2" := (Fx.bind c1 (fun _ => c2))
  (at level 10, c1 at level 100, c2 at level 200) : fx_scope.

(** ** The chain worker: cursor store, deposit ledger, scanner, sweep *)

Module ChainWorker.
Import Fx.
Local Open Scope Z_scope.
Local Open Scope fx_scope.

(** [Number.MAX_SAFE_INTEGER] *)
Definition MAX_SAFE_INTEGER : Z := 2 ^ 53 - 1.

(** [Number(z)] for a bigint [z]: the nearest double, ties to the even
    significand (53 bits).  A double this large is an integer, so the
    result stays in [Z]; above about [2^1024] JavaScript yields
    [Infinity], which block heights do not reach and which the embedding
    leaves out. *)
Definition Number_of_BigInt (z : Z) : Z :=
  let a := Z.abs z in
  if a <=? MAX_SAFE_INTEGER then z
  else
    let e := Z.log2 a - 52 in
    let q := a / 2 ^ e in
    let r := a mod 2 ^ e in
    let q' :=
      if 2 * r <? 2 ^ e then q
      else if 2 ^ e <? 2 * r then q + 1
      else if Z.even q then q else q + 1 in
    Z.sgn z * (q' * 2 ^ e).

(** [BigInt(n)] for a number [n] holding an integer. *)
Definition BigInt_of_Number (n : Z) : Z := n.

Inductive TokenSymbol : Set := USDT | USDC.

Record TrackedToken : Set := mkToken {
  symbol : TokenSymbol;
  address : string;
  decimals : Z;
}.

(** The part of [config] the worker reads.  [minConfirmations] is a
    finite number in the source; a count is an integer, so a fractional
    threshold behaves as the next integer above it and the embedding
    keeps an integer. *)
Record Config : Set := mkConfig {
  chainId : Z;
  receiverAddress : string;
  polygonUsdtAddress : option string;
  polygonUsdcAddress : option string;
  minConfirmations : Z;
  startBlock : option Z;
}.

Definition trackedTokens (config : Config) : list TrackedToken :=
  (match polygonUsdtAddress config with
   | Some a => [mkToken USDT a 6]
   | None => []
   end) ++
  (match polygonUsdcAddress config with
   | Some a => [mkToken USDC a 6]
   | None => []
   end).

(** The module refuses to load without a tracked token. *)
Definition workerLoads (config : Config) : bool :=
  negb (length (trackedTokens config) =? 0)%nat.

Inductive DepositStatus : Set := pending | confirmed.

Definition DepositStatus_eqb (a b : DepositStatus) : bool :=
  match a, b with
  | pending, pending | confirmed, confirmed => true
  | _, _ => false
  end.

(** A row of [chain_deposits].  The primary key, the string
    [txHash:logIndex], is kept as the pair it spells; [amountDecimal],
    the rendering [formatUnits(amountRaw, decimals)], is kept as the
    pair it renders. *)
Record DepositRow : Set := mkDeposit {
  row_id : string * Z;
  row_chainId : Z;
  row_network : string;
  row_tokenSymbol : TokenSymbol;
  row_tokenAddress : string;
  row_fromAddress : string;
  row_toAddress : string;
  row_txHash : string;
  row_logIndex : Z;
  row_blockNumber : Z;
  row_amountRaw : Z;
  row_amountDecimal : Z * Z;
  row_confirmations : Z;
  row_status : DepositStatus;
  row_observedAt : string;
  row_updatedAt : string;
}.

(** The row of [worker_state] under the worker's cursor key. *)
Record CursorRow : Set := mkCursor {
  cursor_value : Z;
  cursor_updatedAt : string;
}.

(** The database tables the worker owns, and its process memory. *)
Record WorkerState : Set := mkState {
  deposits : list DepositRow;
  workerState : option CursorRow;
  isPolling : bool;
  console : list string;
}.

Definition withDeposits (ds : list DepositRow) (st : WorkerState) : WorkerState :=
  mkState ds (workerState st) (isPolling st) (console st).
Definition withCursor (c : option CursorRow) (st : WorkerState) : WorkerState :=
  mkState (deposits st) c (isPolling st) (console st).
Definition withPolling (b : bool) (st : WorkerState) : WorkerState :=
  mkState (deposits st) (workerState st) b (console st).
Definition withConsole (l : list string) (st : WorkerState) : WorkerState :=
  mkState (deposits st) (workerState st) (isPolling st) l.

Definition cursorOf (st : WorkerState) : option Z :=
  cursor_value <$> workerState st.

(** *** Statements against the store *)

(** The [integer] columns are taken without their width here: a
    statement the store refuses for a value out of range is, in this
    module, one of the awaited statements that fail.  [IntegerColumns]
    gives the statements on [chain_deposits] with the width. *)

Definition sameEvent (txHash : string) (logIndex : Z) (r : DepositRow) : bool :=
  String.eqb (row_txHash r) txHash && (row_logIndex r =? logIndex).

Definition sameId (id : string * Z) (r : DepositRow) : bool :=
  String.eqb (fst (row_id r)) (fst id) && (snd (row_id r) =? snd id).

Definition setConfirmation (confirmations : Z) (status : DepositStatus)
           (now : string) (r : DepositRow) : DepositRow :=
  mkDeposit (row_id r) (row_chainId r) (row_network r) (row_tokenSymbol r)
            (row_tokenAddress r) (row_fromAddress r) (row_toAddress r)
            (row_txHash r) (row_logIndex r) (row_blockNumber r)
            (row_amountRaw r) (row_amountDecimal r)
            confirmations status (row_observedAt r) now.

(** [insert(chainDepositsTable).values(v).onConflictDoUpdate({target:
    [txHash, logIndex], set: {confirmations, status, updatedAt}})]: a row
    with the event of [v] is updated in place; otherwise [v] is
    appended, unless its primary key is taken. *)
Definition insertDepositOnConflictDoUpdate (v : DepositRow)
  : WorkerState → Result WorkerState unit :=
  fun st =>
    if existsb (sameEvent (row_txHash v) (row_logIndex v)) (deposits st) then
      Returned tt
        (withDeposits
           (map (fun r =>
                   if sameEvent (row_txHash v) (row_logIndex v) r
                   then setConfirmation (row_confirmations v) (row_status v)
                                        (row_updatedAt v) r
                   else r)
                (deposits st))
           st)
    else if existsb (sameId (row_id v)) (deposits st) then
      Threw "duplicate key value violates unique constraint" st
    else Returned tt (withDeposits (deposits st ++ [v]) st).

(** [select().from(chainDepositsTable).where(and(eq(status, pending),
    lte(blockNumber, n)))] *)
Definition selectPendingUpTo (n : Z) : WorkerState → Result WorkerState (list DepositRow) :=
  fun st =>
    Returned
      (List.filter
         (fun r => DepositStatus_eqb (row_status r) pending && (row_blockNumber r <=? n))
         (deposits st))
      st.

(** [update(chainDepositsTable).set({confirmations, status,
    updatedAt}).where(eq(id, i))] *)
Definition updateDepositById (i : string * Z) (confirmations : Z)
           (status : DepositStatus) (now : string)
  : WorkerState → Result WorkerState unit :=
  fun st =>
    Returned tt
      (withDeposits
         (map (fun r => if sameId i r then setConfirmation confirmations status now r else r)
              (deposits st))
         st).

Definition selectCursor : WorkerState → Result WorkerState (option CursorRow) :=
  fun st => Returned (workerState st) st.

Definition upsertCursor (v : Z) (now : string) : WorkerState → Result WorkerState unit :=
  fun st => Returned tt (withCursor (Some (mkCursor v now)) st).

(** *** The worker *)

Definition getCursorBlock : M (World WorkerState) (option Z) :=
  let* state := await selectCursor in
  match state with
  | None => ret None
  | Some row => ret (Some (cursor_value row))
  end.

Definition setCursorBlock (blockNumber : Z) : M (World WorkerState) unit :=
  let* now := getIsoTimestamp in
  await (upsertCursor blockNumber now).

Record UpsertInput : Set := mkInput {
  token : TrackedToken;
  txHash : string;
  logIndex : Z;
  blockNumber : Z;
  fromAddress : string;
  toAddress : string;
  amountRaw : Z;
  latestBlock : Z;
}.

Definition upsertDeposit (config : Config) (input : UpsertInput)
  : M (World WorkerState) unit :=
  let* now := getIsoTimestamp in
  let confirmationsBigInt :=
    if latestBlock input >=? blockNumber input
    then latestBlock input - blockNumber input + 1 else 0 in
  let confirmations :=
    Number_of_BigInt
      (if confirmationsBigInt >? MAX_SAFE_INTEGER
       then MAX_SAFE_INTEGER else confirmationsBigInt) in
  let status :=
    if confirmations >=? minConfirmations config then confirmed else pending in
  let uniqueEventId := (txHash input, logIndex input) in
  await (insertDepositOnConflictDoUpdate
           (mkDeposit uniqueEventId (chainId config) "POLYGON"
                      (symbol (token input)) (address (token input))
                      (fromAddress input) (toAddress input)
                      (txHash input) (logIndex input)
                      (Number_of_BigInt (blockNumber input))
                      (amountRaw input)
                      (amountRaw input, decimals (token input))
                      confirmations status now now)).

Definition refreshPendingConfirmations (config : Config) (latestBlock : Z)
  : M (World WorkerState) unit :=
  let* pendingDeposits := await (selectPendingUpTo (Number_of_BigInt latestBlock)) in
  let* now := getIsoTimestamp in
  forM_ pendingDeposits (fun pendingDeposit =>
    let blockNumber := BigInt_of_Number (row_blockNumber pendingDeposit) in
    let confirmations := Number_of_BigInt (latestBlock - blockNumber + 1) in
    let nextStatus :=
      if confirmations >=? minConfirmations config then confirmed else pending in
    if (confirmations =? row_confirmations pendingDeposit)
       && DepositStatus_eqb nextStatus (row_status pendingDeposit)
    then ret tt
    else await (updateDepositById (row_id pendingDeposit) confirmations nextStatus now)).

(** A log as the chain client decodes it. *)
Record TransferLog : Set := mkLog {
  transactionHash : string;
  log_logIndex : Z;
  log_blockNumber : Z;
  args_from : string;
  args_to : string;
  args_value : Z;
}.

(** What the chain client answers during one poll cycle. *)
Record Rpc : Type := mkRpc {
  getBlockNumber : Z;
  getLogs : string → Z → Z → list TransferLog;
}.

Definition remote {A} (answer : A) : WorkerState → Result WorkerState A :=
  fun st => Returned answer st.

Definition pollOnce (config : Config) (client : Rpc) : M (World WorkerState) unit :=
  let* latestBlock := await (remote (getBlockNumber client)) in
  let* currentCursor := getCursorBlock in
  let fromBlock :=
    match currentCursor with
    | Some c => c + 1
    | None => default latestBlock (startBlock config)
    end in
  if fromBlock >? latestBlock then
    refreshPendingConfirmations config latestBlock
  else
    exec forM_ (trackedTokens config) (fun token =>
           let* logs := await (remote (getLogs client (address token) fromBlock latestBlock)) in
           forM_ logs (fun log =>
             upsertDeposit config
               (mkInput token (transactionHash log) (log_logIndex log)
                        (log_blockNumber log) (args_from log) (args_to log)
                        (args_value log) latestBlock)))
    then
    exec setCursorBlock latestBlock then
    refreshPendingConfirmations config latestBlock.

Definition runPollCycle (config : Config) (client : Rpc) : M (World WorkerState) unit :=
  let* busy := getsStore isPolling in
  if busy then ret tt
  else
    exec modifyStore (withPolling true) then
    finally
      (tryCatch (pollOnce config client)
                (fun error =>
                   modifyStore (fun st =>
                     withConsole (console st ++ ["[chain-worker] poll error " +:+ error]) st)))
      (modifyStore (withPolling false)).

(** *** Observations used to state the properties *)

(** The confirmation policy in the words of the design document: the
    count is [headBlock - observedBlock + 1] when the head is at or past
    the observed block and [0] otherwise; the status is confirmed when
    the count reaches the minimum. *)
Definition specConfirmations (observedBlock headBlock : Z) : Z :=
  if headBlock >=? observedBlock then headBlock - observedBlock + 1 else 0.

Definition specStatus (minimum count : Z) : DepositStatus :=
  if count >=? minimum then confirmed else pending.

(** The values [upsertDeposit] submits at time [now]. *)
Definition depositValues (config : Config) (input : UpsertInput) (now : string)
  : DepositRow :=
  let confirmationsBigInt :=
    if latestBlock input >=? blockNumber input
    then latestBlock input - blockNumber input + 1 else 0 in
  let confirmations :=
    Number_of_BigInt
      (if confirmationsBigInt >? MAX_SAFE_INTEGER
       then MAX_SAFE_INTEGER else confirmationsBigInt) in
  mkDeposit (txHash input, logIndex input) (chainId config) "POLYGON"
            (symbol (token input)) (address (token input))
            (fromAddress input) (toAddress input)
            (txHash input) (logIndex input)
            (Number_of_BigInt (blockNumber input))
            (amountRaw input)
            (amountRaw input, decimals (token input))
            confirmations
            (if confirmations >=? minConfirmations config then confirmed else pending)
            now now.

(** The record of an event, if there is one. *)
Definition findEvent (txHash : string) (logIndex : Z) (st : WorkerState)
  : option DepositRow :=
  List.find (sameEvent txHash logIndex) (deposits st).

Definition countEvent (txHash : string) (logIndex : Z) (rows : list DepositRow) : nat :=
  length (List.filter (sameEvent txHash logIndex) rows).

(** Every row carries the primary key the worker derives from its event. *)
Definition wellKeyed (rows : list DepositRow) : Prop :=
  Forall (fun r => row_id r = (row_txHash r, row_logIndex r)) rows.

Definition cursorLe (a b : option Z) : Prop :=
  match a, b with
  | None, _ => True
  | Some x, Some y => x <= y
  | Some _, None => False
  end.

Definition inputOf (token : TrackedToken) (log : TransferLog) (latestBlock : Z)
  : UpsertInput :=
  mkInput token (transactionHash log) (log_logIndex log) (log_blockNumber log)
          (args_from log) (args_to log) (args_value log) latestBlock.

Definition recorded (st : WorkerState) (log : TransferLog) : Prop :=
  existsb (sameEvent (transactionHash log) (log_logIndex log)) (deposits st) = true.

(** The first block of the range a cycle scans, from the stored cursor. *)
Definition fromBlockOf (config : Config) (client : Rpc) (st : WorkerState) : Z :=
  match cursorOf st with
  | Some c => c + 1
  | None => default (getBlockNumber client) (startBlock config)
  end.

(** The logs the chain client returns for the tracked tokens over the
    range [fromBlock .. head]. *)
Definition scannedLogs (config : Config) (client : Rpc) (fromBlock : Z)
  : list TransferLog :=
  flat_map (fun token => getLogs client (address token) fromBlock (getBlockNumber client))
           (trackedTokens config).

(** The upsert step of the scanner over a batch of logs, as the inner
    loop of [pollOnce] runs it. *)
Definition upsertLogs (config : Config) (latestBlock : Z)
           (batch : list (TrackedToken * TransferLog)) : M (World WorkerState) unit :=
  forM_ batch (fun tl => upsertDeposit config (inputOf (fst tl) (snd tl) latestBlock)).

(** A row with its [updatedAt] blanked. *)
Definition eraseUpdatedAt (r : DepositRow) : DepositRow :=
  setConfirmation (row_confirmations r) (row_status r) "" r.

(** What the sweep does to one row of the table it finds, at head
    [latestBlock] and time [now]. *)
Definition sweptRow (config : Config) (latestBlock : Z) (now : string)
           (r : DepositRow) : DepositRow :=
  if DepositStatus_eqb (row_status r) pending
     && (row_blockNumber r <=? Number_of_BigInt latestBlock)
  then
    let confirmations :=
      Number_of_BigInt (latestBlock - BigInt_of_Number (row_blockNumber r) + 1) in
    let nextStatus :=
      if confirmations >=? minConfirmations config then confirmed else pending in
    if (confirmations =? row_confirmations r)
       && DepositStatus_eqb nextStatus (row_status r)
    then r
    else setConfirmation confirmations nextStatus now r
  else r.

(** The rows an upsert leaves, on a well-keyed table. *)
Definition upserted (v : DepositRow) (rows : list DepositRow) : list DepositRow :=
  if existsb (sameEvent (row_txHash v) (row_logIndex v)) rows
  then map (fun r => if sameEvent (row_txHash v) (row_logIndex v) r
                     then setConfirmation (row_confirmations v) (row_status v)
                                          (row_updatedAt v) r
                     else r) rows
  else rows ++ [v].

(** The effect on row [r] of the iteration of the sweep for the
    snapshot row [p]. *)
Definition stepRow (config : Config) (latestBlock : Z) (now : string)
           (r p : DepositRow) : DepositRow :=
  let confirmations :=
    Number_of_BigInt (latestBlock - BigInt_of_Number (row_blockNumber p) + 1) in
  let nextStatus :=
    if confirmations >=? minConfirmations config then confirmed else pending in
  if (confirmations =? row_confirmations p)
     && DepositStatus_eqb nextStatus (row_status p)
  then r
  else if sameId (row_id p) r then setConfirmation confirmations nextStatus now r else r.

Definition valuesOf (config : Config) (latestBlock : Z) (now : string)
           (tl : TrackedToken * TransferLog) : DepositRow :=
  depositValues config (inputOf (fst tl) (snd tl) latestBlock) now.

(** What an upsert of [v] does to a row that is there. *)
Definition touch (r v : DepositRow) : DepositRow :=
  if sameEvent (row_txHash v) (row_logIndex v) r
  then setConfirmation (row_confirmations v) (row_status v) (row_updatedAt v) r
  else r.

Definition present (v : DepositRow) (rows : list DepositRow) : Prop :=
  existsb (sameEvent (row_txHash v) (row_logIndex v)) rows = true.

(** A row with its three mutable columns blanked. *)
Definition frame (r : DepositRow) : DepositRow := setConfirmation 0 pending "" r.

(** What a cycle has to keep: the cursor and the recorded logs. *)
Definition keeps (c : option Z) (logs : list TransferLog) (st : WorkerState) : Prop :=
  cursorOf st = c ∧ Forall (recorded st) logs.

(** The state a poll cycle can leave, from cursor [c0]: the cursor is
    as it was, or it is the head and every scanned log is recorded. *)
Definition advanced (config : Config) (client : Rpc) (c0 : option Z)
           (st : WorkerState) : Prop :=
  let fromBlock :=
    match c0 with
    | Some c => c + 1
    | None => default (getBlockNumber client) (startBlock config)
    end in
  fromBlock <= getBlockNumber client
  ∧ cursorOf st = Some (getBlockNumber client)
  ∧ Forall (recorded st) (scannedLogs config client fromBlock).

(** The part of [pollOnce] before the sweep: fetch the head, read the
    cursor, scan, advance the cursor. *)
Definition scanAndAdvance (config : Config) (client : Rpc) : M (World WorkerState) Z :=
  bind (await (remote (getBlockNumber client))) (fun latestBlock =>
  bind getCursorBlock (fun currentCursor =>
  let fromBlock :=
    match currentCursor with
    | Some c => c + 1
    | None => default latestBlock (startBlock config)
    end in
  if fromBlock >? latestBlock then ret latestBlock
  else
    bind (forM_ (trackedTokens config) (fun token =>
            bind (await (remote (getLogs client (address token) fromBlock latestBlock)))
                 (fun logs =>
                    forM_ logs (fun log =>
                      upsertDeposit config
                        (mkInput token (transactionHash log) (log_logIndex log)
                                 (log_blockNumber log) (args_from log) (args_to log)
                                 (args_value log) latestBlock)))))
         (fun _ => bind (setCursorBlock latestBlock) (fun _ => ret latestBlock)))).

End ChainWorker.

(** ** The chain worker on the integer columns of the schema *)

(** [chain_deposits] declares [chain_id], [log_index], [block_number] and
    [confirmations] as [integer]: the store refuses a statement that
    carries a value outside [-2^31 .. 2^31 - 1] for one of them, be it a
    value to store or a parameter compared with the column.  The
    statements of [ChainWorker] leave that width out (there a refusal is
    one of the failures an awaited statement can meet).  Here are the
    three statements on [chain_deposits] with the width, and over them
    the two functions of the worker that compute and store a confirmation
    count. *)

Module IntegerColumns.
Import Fx ChainWorker.
Local Open Scope Z_scope.
Local Open Scope fx_scope.

Definition INT4_MIN : Z := - 2 ^ 31.
Definition INT4_MAX : Z := 2 ^ 31 - 1.

(** The values an [integer] column takes. *)
Definition int4 (z : Z) : bool := (INT4_MIN <=? z) && (z <=? INT4_MAX).

(** A row whose [chainId], [logIndex], [blockNumber] and [confirmations]
    the table can hold. *)
Definition fitsColumns (v : DepositRow) : bool :=
  int4 (row_chainId v) && int4 (row_logIndex v)
  && int4 (row_blockNumber v) && int4 (row_confirmations v).

(** The error of the store for a value outside the range (the store's
    message quotes the value). *)
Definition outOfRange : string := "value out of range for type integer".

(** The insert of [ChainWorker], refused when a value of the row is out
    of range. *)
Definition insertDepositOnConflictDoUpdate (v : DepositRow)
  : WorkerState → Result WorkerState unit :=
  fun st =>
    if fitsColumns v then ChainWorker.insertDepositOnConflictDoUpdate v st
    else Threw outOfRange st.

(** The select of [ChainWorker], refused when the bound compared with
    [block_number] is out of range. *)
Definition selectPendingUpTo (n : Z) : WorkerState → Result WorkerState (list DepositRow) :=
  fun st =>
    if int4 n then ChainWorker.selectPendingUpTo n st else Threw outOfRange st.

(** The update of [ChainWorker], refused when the count is out of
    range. *)
Definition updateDepositById (i : string * Z) (confirmations : Z)
           (status : DepositStatus) (now : string)
  : WorkerState → Result WorkerState unit :=
  fun st =>
    if int4 confirmations
    then ChainWorker.updateDepositById i confirmations status now st
    else Threw outOfRange st.

Definition upsertDeposit (config : Config) (input : UpsertInput)
  : M (World WorkerState) unit :=
  let* now := getIsoTimestamp in
  let confirmationsBigInt :=
    if latestBlock input >=? blockNumber input
    then latestBlock input - blockNumber input + 1 else 0 in
  let confirmations :=
    Number_of_BigInt
      (if confirmationsBigInt >? MAX_SAFE_INTEGER
       then MAX_SAFE_INTEGER else confirmationsBigInt) in
  let status :=
    if confirmations >=? minConfirmations config then confirmed else pending in
  let uniqueEventId := (txHash input, logIndex input) in
  await (insertDepositOnConflictDoUpdate
           (mkDeposit uniqueEventId (chainId config) "POLYGON"
                      (symbol (token input)) (address (token input))
                      (fromAddress input) (toAddress input)
                      (txHash input) (logIndex input)
                      (Number_of_BigInt (blockNumber input))
                      (amountRaw input)
                      (amountRaw input, decimals (token input))
                      confirmations status now now)).

Definition refreshPendingConfirmations (config : Config) (latestBlock : Z)
  : M (World WorkerState) unit :=
  let* pendingDeposits := await (selectPendingUpTo (Number_of_BigInt latestBlock)) in
  let* now := getIsoTimestamp in
  forM_ pendingDeposits (fun pendingDeposit =>
    let blockNumber := BigInt_of_Number (row_blockNumber pendingDeposit) in
    let confirmations := Number_of_BigInt (latestBlock - blockNumber + 1) in
    let nextStatus :=
      if confirmations >=? minConfirmations config then confirmed else pending in
    if (confirmations =? row_confirmations pendingDeposit)
       && DepositStatus_eqb nextStatus (row_status pendingDeposit)
    then ret tt
    else await (updateDepositById (row_id pendingDeposit) confirmations nextStatus now)).

(** *** Observations *)

(** Every stored row is one the table can hold. *)
Definition allFit (rows : list DepositRow) : Prop :=
  Forall (fun r => fitsColumns r = true) rows.

(** What a sweep at head [head] may have done to the row [r], leaving
    [r']: nothing, or it has re-evaluated [r], a pending row at or below
    the head, and stored the count [head - blockNumber + 1]. *)
Definition reevaluated (head : Z) (r r' : DepositRow) : Prop :=
  row_id r' = row_id r
  ∧ row_blockNumber r' = row_blockNumber r
  ∧ (r' = r
     ∨ (row_status r = pending
        ∧ row_blockNumber r <= head
        ∧ row_confirmations r' = head - row_blockNumber r + 1)).

(** The table in the course of a sweep at head [head] that found the
    rows [rows]. *)
Definition midSweep (head : Z) (rows : list DepositRow) (st : WorkerState) : Prop :=
  Forall2 (reevaluated head) rows (deposits st) ∧ allFit (deposits st).

End IntegerColumns.

(** ** Payment settlement: [grantCredits], [handleStripeEvent],
    [handleUsdtPayment] *)

Module PaymentStore.
Import Fx.
Local Open Scope Z_scope.
Local Open Scope fx_scope.

(** The part of [env] the settlement code reads. *)
Record Env : Set := mkEnv {
  usdtConfirmationsRequired : Z;
}.

Inductive PaymentProvider : Set := stripe | usdt.
Inductive PaymentStatus : Set := pending | succeeded | failed.
Inductive WebhookStatus : Set := hook_pending | hook_confirmed | hook_failed.

(** [CryptoWebhookPayload] *)
Record CryptoWebhookPayload : Set := mkPayload {
  transactionId : string;
  userId : string;
  amountMinor : Z;
  currency : string;
  network : string;
  status : WebhookStatus;
  confirmations : Z;
}.

(** What [Number(metadata.creditsToBuy ?? "0")] yields: an integer, or a
    value that is not finite.  (A fractional value passes the guard of
    the handler and is then refused by the integer column of the payment
    insert, before anything is written; it is left out.) *)
Inductive JsNumber : Set := Int (z : Z) | NotFinite.

(** [Stripe.Checkout.Session], the fields read. *)
Record Session : Set := mkSession {
  session_id : string;
  session_userId : option string;
  session_creditsToBuy : JsNumber;
  session_amount_total : option Z;
  session_currency : option string;
}.

(** [Stripe.PaymentIntent], the fields read. *)
Record PaymentIntent : Set := mkIntent {
  intent_id : string;
  intent_userId : option string;
  intent_creditsToBuy : JsNumber;
  intent_amount_received : Z;
  intent_amount : Z;
  intent_currency : string;
}.

Inductive StripeEvent : Set :=
| checkout_session_completed (session : Session)
| payment_intent_succeeded (paymentIntent : PaymentIntent)
| other_event (type : string).

(** A JSON text, kept as the value [JSON.stringify] was applied to. *)
Inductive Json : Set :=
| json_session (s : Session)
| json_intent (p : PaymentIntent)
| json_payload (p : CryptoWebhookPayload)
| json_sessionId (i : string)
| json_paymentIntentId (i : string).

(** A row of [users], under its primary key in [users] below. *)
Record UserRow : Set := mkUser {
  user_name : string;
  user_email : string;
  user_passwordHash : string;
  user_apiCredits : Z;
  user_createdAt : string;
  user_updatedAt : string;
}.

Record PaymentRow : Set := mkPayment {
  pay_id : string;
  pay_userId : string;
  pay_provider : PaymentProvider;
  pay_providerPaymentId : string;
  pay_status : PaymentStatus;
  pay_amountMinor : Z;
  pay_currency : string;
  pay_creditsPurchased : Z;
  pay_rawPayloadJson : Json;
  pay_createdAt : string;
  pay_updatedAt : string;
}.

Record LedgerRow : Set := mkLedger {
  led_id : string;
  led_userId : string;
  led_deltaCredits : Z;
  led_balanceAfter : Z;
  led_reason : string;
  led_referenceId : option string;
  led_metadataJson : option Json;
  led_createdAt : string;
}.

Record Database : Type := mkDb {
  users : gmap string UserRow;
  payments : list PaymentRow;
  creditLedger : list LedgerRow;
}.

Definition withUsers (u : gmap string UserRow) (db : Database) : Database :=
  mkDb u (payments db) (creditLedger db).
Definition withPayments (p : list PaymentRow) (db : Database) : Database :=
  mkDb (users db) p (creditLedger db).
Definition withLedger (l : list LedgerRow) (db : Database) : Database :=
  mkDb (users db) (payments db) l.

(** *** Statements against the store *)

(** [update(usersTable).set({apiCredits: apiCredits + delta,
    updatedAt}).where(eq(id, userId)).returning()], first row. *)
Definition updateUserCredits (userId : string) (delta : Z) (now : string)
  : Database → Result Database (option UserRow) :=
  fun db =>
    match users db !! userId with
    | None => Returned None db
    | Some u =>
        let u' := mkUser (user_name u) (user_email u) (user_passwordHash u)
                         (user_apiCredits u + delta) (user_createdAt u) now in
        Returned (Some u') (withUsers (<[userId := u']> (users db)) db)
    end.

Definition insertLedger (row : LedgerRow) : Database → Result Database unit :=
  fun db =>
    if existsb (fun r => String.eqb (led_id r) (led_id row)) (creditLedger db)
    then Threw "duplicate key value violates unique constraint" db
    else Returned tt (withLedger (creditLedger db ++ [row]) db).

(** [select().from(paymentsTable).where(eq(providerPaymentId,
    p)).limit(1)], first row. *)
Definition selectPayment (providerPaymentId : string)
  : Database → Result Database (option PaymentRow) :=
  fun db =>
    Returned
      (List.find (fun r => String.eqb (pay_providerPaymentId r) providerPaymentId)
                 (payments db))
      db.

Definition insertPayment (row : PaymentRow) : Database → Result Database unit :=
  fun db =>
    if existsb (fun r => String.eqb (pay_id r) (pay_id row)
                         || String.eqb (pay_providerPaymentId r) (pay_providerPaymentId row))
               (payments db)
    then Threw "duplicate key value violates unique constraint" db
    else Returned tt (withPayments (payments db ++ [row]) db).

Definition setPaymentStatus (status : PaymentStatus) (raw : Json) (now : string)
           (r : PaymentRow) : PaymentRow :=
  mkPayment (pay_id r) (pay_userId r) (pay_provider r) (pay_providerPaymentId r)
            status (pay_amountMinor r) (pay_currency r) (pay_creditsPurchased r)
            raw (pay_createdAt r) now.

(** [update(paymentsTable).set({status, rawPayloadJson,
    updatedAt}).where(eq(id, i))] *)
Definition updatePaymentById (i : string) (status : PaymentStatus) (raw : Json)
           (now : string) : Database → Result Database unit :=
  fun db =>
    Returned tt
      (withPayments
         (map (fun r => if String.eqb (pay_id r) i
                        then setPaymentStatus status raw now r else r)
              (payments db))
         db).

(** *** The settlement code *)

Definition grantCredits (userId : string) (deltaCredits : Z) (reason : string)
           (referenceId : option string) (metadataJson : option Json)
  : M (World Database) Z :=
  let* now := getIsoTimestamp in
  let* updatedUser := await (updateUserCredits userId deltaCredits now) in
  match updatedUser with
  | None => throw "User not found while adjusting credits."
  | Some updatedUser =>
      let* uuid := randomUUID in
      exec await (insertLedger
                    (mkLedger ("cred_" +:+ uuid) userId deltaCredits
                              (user_apiCredits updatedUser) reason
                              referenceId metadataJson now))
      then ret (user_apiCredits updatedUser)
  end.

(** [!userId || !Number.isFinite(creditsToBuy) || creditsToBuy <= 0],
    with the values to go on with when the guard lets through. *)
Definition purchase (userId : option string) (creditsToBuy : JsNumber)
  : option (string * Z) :=
  match userId, creditsToBuy with
  | Some u, Int c =>
      if String.eqb u "" || (c <=? 0) then None else Some (u, c)
  | _, _ => None
  end.

Definition handleStripeEvent (event : StripeEvent) : M (World Database) unit :=
  match event with
  | checkout_session_completed session =>
      match purchase (session_userId session) (session_creditsToBuy session) with
      | None => ret tt
      | Some (userId, creditsToBuy) =>
          let providerPaymentId := "stripe_" +:+ session_id session in
          let* now := getIsoTimestamp in
          let* existingPayment := await (selectPayment providerPaymentId) in
          match existingPayment with
          | Some _ => ret tt
          | None =>
              let* uuid := randomUUID in
              exec await (insertPayment
                            (mkPayment ("pay_" +:+ uuid) userId stripe providerPaymentId
                                       succeeded
                                       (default 0 (session_amount_total session))
                                       (default "usd" (session_currency session))
                                       creditsToBuy (json_session session) now now))
              then
              exec grantCredits userId creditsToBuy "payment_stripe_succeeded"
                                (Some providerPaymentId)
                                (Some (json_sessionId (session_id session)))
              then ret tt
          end
      end
  | payment_intent_succeeded paymentIntent =>
      match purchase (intent_userId paymentIntent) (intent_creditsToBuy paymentIntent) with
      | None => ret tt
      | Some (userId, creditsToBuy) =>
          let providerPaymentId := "stripe_pi_" +:+ intent_id paymentIntent in
          let* now := getIsoTimestamp in
          let* existingPayment := await (selectPayment providerPaymentId) in
          match existingPayment with
          | Some _ => ret tt
          | None =>
              let* uuid := randomUUID in
              exec await (insertPayment
                            (mkPayment ("pay_" +:+ uuid) userId stripe providerPaymentId
                                       succeeded
                                       (if intent_amount_received paymentIntent =? 0
                                        then intent_amount paymentIntent
                                        else intent_amount_received paymentIntent)
                                       (intent_currency paymentIntent)
                                       creditsToBuy (json_intent paymentIntent) now now))
              then
              exec grantCredits userId creditsToBuy "payment_stripe_applepay_succeeded"
                                (Some providerPaymentId)
                                (Some (json_paymentIntentId (intent_id paymentIntent)))
              then ret tt
          end
      end
  | other_event _ => ret tt
  end.

Definition isConfirmed (s : WebhookStatus) : bool :=
  match s with hook_confirmed => true | _ => false end.
Definition isFailed (s : WebhookStatus) : bool :=
  match s with hook_failed => true | _ => false end.

Definition handleUsdtPayment (env : Env) (payload : CryptoWebhookPayload)
  : M (World Database) unit :=
  let providerPaymentId := "usdt_" +:+ transactionId payload in
  let* now := getIsoTimestamp in
  let* existingPayment := await (selectPayment providerPaymentId) in
  let derivedCredits := amountMinor payload / 100 in
  let isPaymentSettled :=
    isConfirmed (status payload)
    && (confirmations payload >=? usdtConfirmationsRequired env) in
  let paymentStatus :=
    if isPaymentSettled then succeeded
    else if isFailed (status payload) then failed else pending in
  match existingPayment with
  | Some existingPayment =>
      await (updatePaymentById (pay_id existingPayment) paymentStatus
                               (json_payload payload) now)
  | None =>
      let* uuid := randomUUID in
      exec await (insertPayment
                    (mkPayment ("pay_" +:+ uuid) (userId payload) usdt providerPaymentId
                               paymentStatus (amountMinor payload) (currency payload)
                               derivedCredits (json_payload payload) now now))
      then
      if isPaymentSettled && (derivedCredits >? 0) then
        exec grantCredits (userId payload) derivedCredits "payment_usdt_confirmed"
                          (Some providerPaymentId) (Some (json_payload payload))
        then ret tt
      else ret tt
  end.

(** *** Webhook deliveries, one after the other *)

Inductive Event : Set :=
| stripe_event (event : StripeEvent)
| usdt_webhook (payload : CryptoWebhookPayload).

(** One delivery: the event, and the circumstances of its handling. *)
Record Delivery : Type := mkDelivery {
  delivered : Event;
  failsAfter : option nat;
  receivedAt : string;
  uuids : nat → string;
}.

Definition handle (env : Env) (e : Event) : M (World Database) unit :=
  match e with
  | stripe_event event => handleStripeEvent event
  | usdt_webhook payload => handleUsdtPayment env payload
  end.

(** The store after the handler has run on the delivery, whether it
    returned or threw: the handlers open no transaction, so what was
    written before a throw stays written. *)
Definition deliver (env : Env) (db : Database) (d : Delivery) : Database :=
  store (stateOf (handle env (delivered d)
                         (mkWorld db (failsAfter d) (receivedAt d) (uuids d) 0))).

Definition deliverAll (env : Env) (ds : list Delivery) (db : Database) : Database :=
  fold_left (deliver env) ds db.

Definition countReference (r : string) (ledger : list LedgerRow) : nat :=
  length (List.filter
            (fun e => match led_referenceId e with
                      | Some x => String.eqb x r
                      | None => false
                      end)
            ledger).

Definition hasPayment (r : string) (ps : list PaymentRow) : bool :=
  existsb (fun p => String.eqb (pay_providerPaymentId p) r) ps.

Definition ledgerSum (u : string) (ledger : list LedgerRow) : Z :=
  fold_right Z.add 0
    (map led_deltaCredits (List.filter (fun e => String.eqb (led_userId e) u) ledger)).

(** *** Observations used to state the properties *)

(** The ledger holds at most one entry for reference [r], and none
    unless a payment with that canonical id is recorded. *)
Definition bounded (r : string) (db : Database) : Prop :=
  (countReference r (creditLedger db) <= if hasPayment r (payments db) then 1 else 0)%nat.

(** A payment with canonical id [r] is recorded and no ledger entry
    refers to it yet. *)
Definition granting (pid r : string) (db : Database) : Prop :=
  bounded r db
  ∧ (r = pid → hasPayment pid (payments db) = true
               ∧ countReference pid (creditLedger db) = 0%nat).

(** The ledger entry [grantCredits] appends for a user whose balance
    was [balance]. *)
Definition grantEntry (uuid userId : string) (deltaCredits balance : Z)
           (reason : string) (referenceId : option string)
           (metadataJson : option Json) (now : string) : LedgerRow :=
  mkLedger ("cred_" +:+ uuid) userId deltaCredits (balance + deltaCredits) reason
           referenceId metadataJson now.

Definition credited (delta : Z) (now : string) (u : UserRow) : UserRow :=
  mkUser (user_name u) (user_email u) (user_passwordHash u)
         (user_apiCredits u + delta) (user_createdAt u) now.

Definition freshLedgerId (i : string) (db : Database) : Prop :=
  existsb (fun r => String.eqb (led_id r) i) (creditLedger db) = false.

Definition canonicalId (payload : CryptoWebhookPayload) : string :=
  "usdt_" +:+ transactionId payload.

Definition derivedCredits (payload : CryptoWebhookPayload) : Z :=
  amountMinor payload / 100.

Definition isPaymentSettled (env : Env) (payload : CryptoWebhookPayload) : bool :=
  isConfirmed (status payload)
  && (confirmations payload >=? usdtConfirmationsRequired env).

Definition paymentStatus (env : Env) (payload : CryptoWebhookPayload) : PaymentStatus :=
  if isPaymentSettled env payload then succeeded
  else if isFailed (status payload) then failed else pending.

Definition existingPayment (payload : CryptoWebhookPayload) (db : Database)
  : option PaymentRow :=
  List.find (fun r => String.eqb (pay_providerPaymentId r) (canonicalId payload))
            (payments db).

(** The ledger after a grant for [payload] to a user of balance
    [balance]. *)
Definition usdtGrant (payload : CryptoWebhookPayload) (uuid now : string)
           (balance : Z) : LedgerRow :=
  grantEntry uuid (userId payload) (derivedCredits payload) balance
             "payment_usdt_confirmed" (Some (canonicalId payload))
             (Some (json_payload payload)) now.

Definition freshPaymentId (i : string) (db : Database) : Prop :=
  existsb (fun r => String.eqb (pay_id r) i) (payments db) = false.

(** The row [handleUsdtPayment] inserts for a new canonical id. *)
Definition usdtPayment (env : Env) (payload : CryptoWebhookPayload)
           (uuid now : string) : PaymentRow :=
  mkPayment ("pay_" +:+ uuid) (userId payload) usdt (canonicalId payload)
            (paymentStatus env payload) (amountMinor payload) (currency payload)
            (derivedCredits payload) (json_payload payload) now now.

(** What the update of an existing record does to the table. *)
Definition refreshed (env : Env) (payload : CryptoWebhookPayload) (now : string)
           (existing : PaymentRow) (ps : list PaymentRow) : list PaymentRow :=
  map (fun r => if String.eqb (pay_id r) (pay_id existing)
                then setPaymentStatus (paymentStatus env payload)
                                      (json_payload payload) now r
                else r)
      ps.

End PaymentStore.

(** ** Concrete configurations, logs and stores *)

Module WorkerFixtures.
Import Fx ChainWorker.
Local Open Scope Z_scope.

Definition usdtToken : TrackedToken :=
  mkToken USDT "0xc2132D05D31c914a558D203455E789a36Ed3d0b1" 6.

Definition receiver : string := "0x52908400098527886E0F7030069857D2E4169EE7".

(** [MIN_CONFIRMATIONS=2], one tracked token, no start block. *)
Definition config2 : Config :=
  mkConfig 137 receiver (Some (address usdtToken)) None 2 None.

(** The default [MIN_CONFIRMATIONS=50]. *)
Definition config50 : Config :=
  mkConfig 137 receiver (Some (address usdtToken)) None 50 None.

Definition transferAt (block : Z) : TransferLog :=
  mkLog "0x5c504ed432cb51138bcf09aa5e8a410dd4a1e204ef84bfed1be16dfba1b22060" 3 block
        "0x8617E340B3D01FA5F11F306F4090FD50E238070D" receiver 25000000.

Definition emptyWorker : WorkerState := mkState [] None false [].

Definition noUuid : nat → string := fun _ => "".

(** A chain client that reports head [head] and the one transfer. *)
Definition clientAt (head : Z) (log : TransferLog) : Rpc :=
  mkRpc head (fun _ _ _ => [log]).

(** The store after the first observation of [log] at head [head]. *)
Definition observed (config : Config) (log : TransferLog) (head : Z) : WorkerState :=
  store (stateOf (upsertDeposit config (inputOf usdtToken log head)
                                (calm emptyWorker "2026-03-01T10:00:00.000Z" noUuid))).

Definition workerAtCursor (c : Z) : WorkerState :=
  mkState [] (Some (mkCursor c "2026-03-01T09:59:45.000Z")) false [].
End WorkerFixtures.

Module PaymentFixtures.
Import Fx PaymentStore.
Local Open Scope Z_scope.

(** [USDT_CONFIRMATIONS_REQUIRED=2], the default. *)
Definition env2 : Env := mkEnv 2.

Definition aliceId : string := "usr_4f9c2a7d1b3e5f60a1b2".

Definition alice : UserRow :=
  mkUser "Alice" "alice@example.com" "$argon2id$v=19$m=65536,t=2,p=1$c2FsdA$aGFzaA"
         300 "2026-02-01T08:00:00.000Z" "2026-02-01T08:00:00.000Z".

(** A store with one user of balance 300, no payment and an empty
    ledger. *)
Definition dbAlice : Database := mkDb {[aliceId := alice]} [] [].

Definition tronTx : string :=
  "7c2d4206c03a883dd9066d620335dc1be272a8dc733cfa3f6d10308faa37facc".

Definition webhook (st : WebhookStatus) (confs amount : Z) : CryptoWebhookPayload :=
  mkPayload tronTx aliceId amount "USDT" "TRON" st confs.

Definition uuidsA : nat → string :=
  fun n => match n with
           | O => "0b6f1c1e9d3a4c51a7e2"
           | _ => "5e8d7a4b2c9f4e03b1d6"
           end.

Definition uuidsB : nat → string :=
  fun n => match n with
           | O => "c41f0a97e5b84d2f9a30"
           | _ => "9a7e3d5c1b2f48a6c0e4"
           end.

Definition delivery (e : Event) (now : string) (ids : nat → string) : Delivery :=
  mkDelivery e None now ids.

Definition checkout : StripeEvent :=
  checkout_session_completed
    (mkSession "cs_test_a1B2c3D4" (Some aliceId) (Int 40) (Some 4000) (Some "usd")).
End PaymentFixtures.

(** ** JavaScript string methods used by the server *)

Module JsString.

(** [s.replaceAll("-", "")] *)
Fixpoint removeDashes (s : string) : string :=
  match s with
  | EmptyString => EmptyString
  | String c rest =>
      if Ascii.eqb c "-"%char then removeDashes rest else String c (removeDashes rest)
  end.

(** [s.slice(0, n)] *)
Definition sliceTo (n : nat) (s : string) : string := String.substring 0 n s.

(** [s.slice(-n)], for [n] positive *)
Definition sliceLast (n : nat) (s : string) : string :=
  String.substring (String.length s - n) n s.

(** [crypto.randomUUID().replaceAll("-", "").slice(0, n)] applied to the
    value drawn. *)
Definition idFragment (n : nat) (uuid : string) : string :=
  sliceTo n (removeDashes uuid).

End JsString.

(** ** Invariants of the chain worker *)

Module ChainWorkerInvariants.
Import Fx ChainWorker.
Local Open Scope Z_scope.

(** The table honours its primary key and the key is the event: every
    row has the id of its [(txHash, logIndex)] and no id occurs twice. *)
Definition keyed (st : WorkerState) : Prop :=
  wellKeyed (deposits st) ∧ List.NoDup (map row_id (deposits st)).

(** The table [rows] continues the table [rows0]: the rows of [rows0] are
    still there, in place, with every column other than confirmations,
    status and [updatedAt] as it was; rows may have been added behind. *)
Definition continues (rows0 rows : list DepositRow) : Prop :=
  ∃ added, map frame rows = map frame rows0 ++ added.

(** The process memory of the worker. *)
Definition memoryIs (busy : bool) (lines : list string) (st : WorkerState) : Prop :=
  isPolling st = busy ∧ console st = lines.

(** A predicate on the store that every statement of a poll cycle keeps,
    whether the statement succeeds or not. *)
Definition statementsKeep (I : WorkerState → Prop) : Prop :=
  (∀ v st, row_id v = (row_txHash v, row_logIndex v) → I st →
           I (match insertDepositOnConflictDoUpdate v st with
              | Returned _ st' | Threw _ st' => st'
              end))
  ∧ (∀ i c s n st, I st →
                   I (match updateDepositById i c s n st with
                      | Returned _ st' | Threw _ st' => st'
                      end))
  ∧ (∀ b now st, I st → I (withCursor (Some (mkCursor b now)) st)).

End ChainWorkerInvariants.

(** ** Invariants of the payment store *)

Module PaymentInvariants.
Import Fx PaymentStore.
Local Open Scope Z_scope.

(** The balance of a user, [0] for a user that does not exist. *)
Definition balanceOf (u : string) (db : Database) : Z :=
  default 0 (user_apiCredits <$> users db !! u).

(** How far the balance of [u] is from the sum of the ledger deltas of
    [u] (the credits the user holds that the ledger does not account
    for, such as the initial credits). *)
Definition drift (u : string) (db : Database) : Z :=
  balanceOf u db - ledgerSum u (creditLedger db).

(** The canonical payment id under which [handleStripeEvent] settles an
    event, if the event gets past its guard. *)
Definition stripeCanonicalId (event : StripeEvent) : option string :=
  match event with
  | checkout_session_completed session =>
      match purchase (session_userId session) (session_creditsToBuy session) with
      | Some _ => Some ("stripe_" +:+ session_id session)
      | None => None
      end
  | payment_intent_succeeded paymentIntent =>
      match purchase (intent_userId paymentIntent) (intent_creditsToBuy paymentIntent) with
      | Some _ => Some ("stripe_pi_" +:+ intent_id paymentIntent)
      | None => None
      end
  | other_event _ => None
  end.

(** What one delivery may have done to the store [db0]: recorded
    payments stay recorded, and the ledger is as it was or one entry
    longer, the new entry crediting a positive amount against a recorded
    payment. *)
Definition settledFrom (db0 db : Database) : Prop :=
  (∀ r, hasPayment r (payments db0) = true → hasPayment r (payments db) = true)
  ∧ (creditLedger db = creditLedger db0
     ∨ ∃ e r, creditLedger db = creditLedger db0 ++ [e]
              ∧ 0 < led_deltaCredits e
              ∧ led_referenceId e = Some r
              ∧ hasPayment r (payments db) = true).

End PaymentInvariants.

(** ** Video tasks ([videoTaskService]) *)

Module VideoTasks.
Import Fx.
Local Open Scope Z_scope.
Local Open Scope fx_scope.

Definition MINIMUM_VIDEO_DURATION_SECONDS : Z := 4.
Definition MAXIMUM_VIDEO_DURATION_SECONDS : Z := 12.

(** [Math.round] on a finite number: the nearest integer, a tie going
    up. *)
Definition Math_round (x : Q) : Z := Qfloor (x + (1 # 2))%Q.

(** A finite [number] is the rational it denotes.  (The infinities take
    the first two branches like any number beyond the bounds; [NaN], which
    fails both comparisons and comes back as [NaN], is left out.) *)
Definition clampDurationSeconds (durationSeconds : Q) : Z :=
  if negb (Qle_bool (inject_Z MINIMUM_VIDEO_DURATION_SECONDS) durationSeconds) then
    MINIMUM_VIDEO_DURATION_SECONDS
  else if negb (Qle_bool durationSeconds (inject_Z MAXIMUM_VIDEO_DURATION_SECONDS)) then
    MAXIMUM_VIDEO_DURATION_SECONDS
  else Math_round durationSeconds.

(** The part of [env] task creation reads ([creditsPerTask] an integer,
    as the integer columns it is written to require). *)
Record Env : Set := mkEnv {
  creditsPerTask : Z;
  seedanceModel : string;
}.

Definition calculateVideoTaskCredits (env : Env) (durationSeconds : Q) : Z :=
  let normalizedDurationSeconds := clampDurationSeconds durationSeconds in
  creditsPerTask env + normalizedDurationSeconds.

Inductive TaskStatus : Set := queued | processing | succeeded | failed.

Record VideoTaskRow : Set := mkTask {
  task_id : string;
  task_userId : string;
  task_model : string;
  task_prompt : string;
  task_imageUrl : option string;
  task_aspectRatio : string;
  task_durationSeconds : Z;
  task_creditsCost : Z;
  task_status : TaskStatus;
  task_providerTaskId : option string;
  task_outputVideoUrl : option string;
  task_errorMessage : option string;
  task_createdAt : string;
  task_updatedAt : string;
  task_completedAt : option string;
}.

(** The metadata of a ledger entry: what task creation writes, or what
    the payment code writes. *)
Inductive LedgerJson : Set :=
| json_task (model : string) (durationSeconds : Z)
| json_payment (j : PaymentStore.Json).

(** A row of [credit_ledger], as in the payment code but for the
    metadata, which here may be that of a task. *)
Record LedgerRow : Set := mkLedger {
  led_id : string;
  led_userId : string;
  led_deltaCredits : Z;
  led_balanceAfter : Z;
  led_reason : string;
  led_referenceId : option string;
  led_metadataJson : option LedgerJson;
  led_createdAt : string;
}.

(** The tables task creation touches, and the task ids handed to
    [enqueueTaskProgression] (whose timers fire after [create] is over). *)
Record Server : Type := mkServer {
  users : gmap string PaymentStore.UserRow;
  videoTasks : list VideoTaskRow;
  creditLedger : list LedgerRow;
  enqueued : list string;
}.

Record VideoTaskCreateRequest : Set := mkRequest {
  prompt : string;
  imageUrl : option string;
  aspectRatio : string;
  durationSeconds : Q;
}.

(** [database.transaction(async tx => body)]: begin, run the body,
    commit; when the body or the commit throws, the store is put back as
    it was at the start and the error goes on. *)
Definition transaction {D A} (body : M (World D) A) : M (World D) A :=
  fun w =>
    match await (fun d => Returned tt d) w with
    | Threw e w0 => Threw e w0
    | Returned _ w0 =>
        match body w0 with
        | Threw e w1 => Threw e (setStore (store w) w1)
        | Returned a w1 =>
            match await (fun d => Returned tt d) w1 with
            | Returned _ w2 => Returned a w2
            | Threw e w2 => Threw e (setStore (store w) w2)
            end
        end
    end.

(** *** Statements *)

Definition selectUser (userId : string) : Server → Result Server (option PaymentStore.UserRow) :=
  fun s => Returned (users s !! userId) s.

(** [update(usersTable).set({apiCredits, updatedAt}).where(eq(id, u))] *)
Definition updateUserBalance (userId : string) (balance : Z) (now : string)
  : Server → Result Server unit :=
  fun s =>
    Returned tt
      (mkServer
         (match users s !! userId with
          | Some u =>
              <[userId := PaymentStore.mkUser
                            (PaymentStore.user_name u) (PaymentStore.user_email u)
                            (PaymentStore.user_passwordHash u) balance
                            (PaymentStore.user_createdAt u) now]> (users s)
          | None => users s
          end)
         (videoTasks s) (creditLedger s) (enqueued s)).

Definition insertTask (row : VideoTaskRow) : Server → Result Server unit :=
  fun s =>
    if existsb (fun r => String.eqb (task_id r) (task_id row)) (videoTasks s)
    then Threw "duplicate key value violates unique constraint" s
    else Returned tt (mkServer (users s) (videoTasks s ++ [row]) (creditLedger s) (enqueued s)).

Definition insertLedger (row : LedgerRow) : Server → Result Server unit :=
  fun s =>
    if existsb (fun r => String.eqb (led_id r) (led_id row)) (creditLedger s)
    then Threw "duplicate key value violates unique constraint" s
    else Returned tt (mkServer (users s) (videoTasks s) (creditLedger s ++ [row]) (enqueued s)).

(** [select().from(videoTasksTable).where(and(eq(userId, u), eq(id,
    t))).limit(1)], first row. *)
Definition selectTask (userId taskId : string) : Server → Result Server (option VideoTaskRow) :=
  fun s =>
    Returned
      (List.find (fun r => String.eqb (task_userId r) userId && String.eqb (task_id r) taskId)
                 (videoTasks s))
      s.

(** *** [videoTaskService] *)

Definition getById (userId taskId : string) : M (World Server) (option VideoTaskRow) :=
  let* databaseTask := await (selectTask userId taskId) in
  match databaseTask with
  | None => ret None
  | Some t => ret (Some t)
  end.

Definition enqueueTaskProgression (taskId : string) : M (World Server) unit :=
  modifyStore (fun s => mkServer (users s) (videoTasks s) (creditLedger s)
                                 (enqueued s ++ [taskId])).

Definition create (env : Env) (userId : string) (requestBody : VideoTaskCreateRequest)
  : M (World Server) (VideoTaskRow * Z) :=
  let* now := getIsoTimestamp in
  let normalizedDuration := clampDurationSeconds (durationSeconds requestBody) in
  let creditsCost := calculateVideoTaskCredits env (inject_Z normalizedDuration) in
  let* uuid := randomUUID in
  let taskId := "task_" +:+ JsString.idFragment 20 uuid in
  let* remainingCredits :=
    transaction (
      let* databaseUser := await (selectUser userId) in
      match databaseUser with
      | None => throw "User not found for task creation."
      | Some databaseUser =>
          if PaymentStore.user_apiCredits databaseUser <? creditsCost then
            throw "Insufficient API credits."
          else
            let nextCreditsBalance := PaymentStore.user_apiCredits databaseUser - creditsCost in
            exec await (updateUserBalance userId nextCreditsBalance now) then
            exec await (insertTask
                          (mkTask taskId userId (seedanceModel env) (prompt requestBody)
                                  (imageUrl requestBody) (aspectRatio requestBody)
                                  normalizedDuration creditsCost queued None None None
                                  now now None)) then
            let* ledgerUuid := randomUUID in
            exec await (insertLedger
                          (mkLedger ("cred_" +:+ JsString.idFragment 20 ledgerUuid) userId (- creditsCost)
                                    nextCreditsBalance "video_task_created" (Some taskId)
                                    (Some (json_task (seedanceModel env) normalizedDuration))
                                    now)) then
            ret nextCreditsBalance
      end) in
  exec enqueueTaskProgression taskId then
  let* createdTask := getById userId taskId in
  match createdTask with
  | None => throw "Task creation failed."
  | Some createdTask => ret (createdTask, remainingCredits)
  end.

(** *** Observations *)

Definition balanceOf (u : string) (s : Server) : Z :=
  default 0 (PaymentStore.user_apiCredits <$> users s !! u).

Definition ledgerSum (u : string) (ledger : list LedgerRow) : Z :=
  fold_right Z.add 0
    (map led_deltaCredits (List.filter (fun e => String.eqb (led_userId e) u) ledger)).

(** The tables, without the record of what was handed to the timers. *)
Definition tablesOf (s : Server)
  : gmap string PaymentStore.UserRow * list VideoTaskRow * list LedgerRow :=
  (users s, videoTasks s, creditLedger s).

(** The tables [s] are the tables [s0] after the creation of task [t]
    for [userId] went through: the user's balance is down by the cost,
    which it covered; [t], queued, of that cost and under a fresh id, is
    added; one ledger entry is added, debiting the cost and showing the
    new balance. *)
Definition createdTask (env : Env) (userId : string) (requestBody : VideoTaskCreateRequest)
           (s0 s : Server) (t : VideoTaskRow) : Prop :=
  let cost := creditsPerTask env + clampDurationSeconds (durationSeconds requestBody) in
  ∃ u e,
    users s0 !! userId = Some u
    ∧ cost <= PaymentStore.user_apiCredits u
    ∧ balanceOf userId s = PaymentStore.user_apiCredits u - cost
    ∧ (∀ v, v ≠ userId → users s !! v = users s0 !! v)
    ∧ videoTasks s = videoTasks s0 ++ [t]
    ∧ ¬ In (task_id t) (map task_id (videoTasks s0))
    ∧ task_userId t = userId ∧ task_status t = queued ∧ task_creditsCost t = cost
    ∧ task_durationSeconds t = clampDurationSeconds (durationSeconds requestBody)
    ∧ creditLedger s = creditLedger s0 ++ [e]
    ∧ led_userId e = userId ∧ led_deltaCredits e = - cost
    ∧ led_balanceAfter e = PaymentStore.user_apiCredits u - cost
    ∧ led_referenceId e = Some (task_id t).

Definition created (env : Env) (userId : string) (requestBody : VideoTaskCreateRequest)
           (s0 s : Server) : Prop :=
  ∃ t, createdTask env userId requestBody s0 s t.

(** A timer has been set for [t], and for nothing else. *)
Definition timerSetFor (s0 s : Server) (t : VideoTaskRow) : Prop :=
  enqueued s = enqueued s0 ++ [task_id t].

End VideoTasks.

(** ** Task progression timers *)

Module TaskProgression.
Import Fx VideoTasks.
Local Open Scope Z_scope.
Local Open Scope fx_scope.

Record ReferenceVideo : Set := mkReferenceVideo {
  ref_id : string;
  ref_title : string;
  ref_description : string;
  ref_prompt : string;
  ref_durationSeconds : Z;
  ref_aspectRatio : string;
  ref_thumbnailUrl : string;
  ref_videoUrl : string;
}.

Definition referenceVideos : list ReferenceVideo :=
  [ mkReferenceVideo "vid_ref_01" "Neon Future City"
      "A cinematic fly-through over a neon-lit skyline at blue hour."
      "Cinematic drone shot over a futuristic neon city, volumetric fog, high contrast, smooth camera glide"
      8 "16:9"
      "https://images.pexels.com/photos/1054218/pexels-photo-1054218.jpeg?auto=compress&cs=tinysrgb&w=1200"
      "https://videos.pexels.com/video-files/3130182/3130182-hd_1920_1080_30fps.mp4";
    mkReferenceVideo "vid_ref_02" "Street Fashion Reel"
      "Vertical short with smooth motion and natural lighting."
      "Young model walking through urban crosswalk, handheld style, natural movement, social-ready framing"
      10 "9:16"
      "https://images.pexels.com/photos/3761521/pexels-photo-3761521.jpeg?auto=compress&cs=tinysrgb&w=900"
      "https://videos.pexels.com/video-files/8154917/8154917-hd_1080_1920_24fps.mp4";
    mkReferenceVideo "vid_ref_03" "Product Beauty Macro"
      "High-detail macro motion for product marketing creatives."
      "Macro lens product beauty shot, slow dolly, soft studio lighting, premium ad aesthetic"
      6 "1:1"
      "https://images.pexels.com/photos/404280/pexels-photo-404280.jpeg?auto=compress&cs=tinysrgb&w=900"
      "https://videos.pexels.com/video-files/853889/853889-hd_1080_1080_30fps.mp4" ].

(** [referenceVideos[0]!.videoUrl] *)
Definition firstVideoUrl : string :=
  match referenceVideos with
  | v :: _ => ref_videoUrl v
  | [] => ""
  end.

(** For an empty id [charCodeAt(0)] is [NaN] and the index selects
    nothing, which leaves the first video.  (Ids are taken to be ASCII,
    as the ids the server makes are: length and first code unit are
    those of the bytes.) *)
Definition getTaskDemoVideoUrl (taskId : string) : string :=
  match taskId with
  | EmptyString => firstVideoUrl
  | String c _ =>
      let referenceVideoIndex :=
        (Z.abs (Z.of_nat (String.length taskId) + Z.of_nat (nat_of_ascii c))
         mod Z.of_nat (length referenceVideos)) in
      match nth_error referenceVideos (Z.to_nat referenceVideoIndex) with
      | Some v => ref_videoUrl v
      | None => firstVideoUrl
      end
  end.

(** [update(videoTasksTable).set(...).where(eq(videoTasksTable.id, taskId))] *)
Definition updateTaskById (taskId : string) (set : VideoTaskRow → VideoTaskRow)
  : Server → Result Server unit :=
  fun s =>
    Returned tt
      (mkServer (users s)
                (map (fun r => if String.eqb (task_id r) taskId then set r else r)
                     (videoTasks s))
                (creditLedger s) (enqueued s)).

Definition setProcessing (updatedAt : string) (r : VideoTaskRow) : VideoTaskRow :=
  mkTask (task_id r) (task_userId r) (task_model r) (task_prompt r) (task_imageUrl r)
         (task_aspectRatio r) (task_durationSeconds r) (task_creditsCost r)
         processing (task_providerTaskId r) (task_outputVideoUrl r) (task_errorMessage r)
         (task_createdAt r) updatedAt (task_completedAt r).

Definition setSucceeded (taskId completionTimestamp : string) (r : VideoTaskRow)
  : VideoTaskRow :=
  mkTask (task_id r) (task_userId r) (task_model r) (task_prompt r) (task_imageUrl r)
         (task_aspectRatio r) (task_durationSeconds r) (task_creditsCost r)
         succeeded (Some ("seedance_" +:+ taskId)) (Some (getTaskDemoVideoUrl taskId))
         (task_errorMessage r) (task_createdAt r) completionTimestamp
         (Some completionTimestamp).

(** The two callbacks [enqueueTaskProgression] hands to [setTimeout],
    the first due after 1000 ms, the second after 3500 ms. *)
Definition processingTimer (taskId : string) : M (World Server) unit :=
  let* processingTimestamp := getIsoTimestamp in
  await (updateTaskById taskId (setProcessing processingTimestamp)).

Definition completionTimer (taskId : string) : M (World Server) unit :=
  let* completionTimestamp := getIsoTimestamp in
  await (updateTaskById taskId (setSucceeded taskId completionTimestamp)).

(** [r'] is [r] but for what a progression step may write. *)
Definition sameJob (r r' : VideoTaskRow) : Prop :=
  task_id r' = task_id r ∧ task_userId r' = task_userId r
  ∧ task_model r' = task_model r ∧ task_prompt r' = task_prompt r
  ∧ task_imageUrl r' = task_imageUrl r ∧ task_aspectRatio r' = task_aspectRatio r
  ∧ task_durationSeconds r' = task_durationSeconds r
  ∧ task_creditsCost r' = task_creditsCost r
  ∧ task_errorMessage r' = task_errorMessage r
  ∧ task_createdAt r' = task_createdAt r.

(** What a timer for [taskId] may do to the store. *)
Definition progressed (taskId : string) (s0 s : Server) : Prop :=
  users s = users s0 ∧ creditLedger s = creditLedger s0 ∧ enqueued s = enqueued s0
  ∧ Forall2 (fun r r' => sameJob r r' ∧ (task_id r ≠ taskId → r' = r))
            (videoTasks s0) (videoTasks s).

End TaskProgression.

(** ** The USDT webhook route *)

Module UsdtWebhook.
Import Fx PaymentStore.
Local Open Scope Z_scope.
Local Open Scope fx_scope.

(** What the route takes from outside the repository: the keyed hash
    [createHmac("sha256", secret).update(payload, "utf8").digest("hex")]
    and [JSON.parse] read at the payload type ([None]: it throws). *)
Record Externals : Type := mkExternals {
  hmacSha256Hex : string → string → string;
  parsePayload : string → option CryptoWebhookPayload;
}.

(** The part of [env] the route reads. *)
Record RouteEnv : Set := mkRouteEnv {
  usdtWebhookSecret : string;
  settlement : Env;
}.

(** The request: the [x-usdt-signature] header and the body text. *)
Record Request : Set := mkRequest {
  signatureHeader : option string;
  bodyText : string;
}.

Record Response : Set := mkResponse {
  responseStatus : Z;
  responseError : option string;
}.

Definition BAD_REQUEST_RESPONSE : Response :=
  mkResponse 400 (Some "Invalid request payload.").

(** [timingSafeEqual] on two buffers of the same length. *)
Definition timingSafeEqual (a b : string) : bool := String.eqb a b.

Definition isValidHmacSignature (ext : Externals) (payload signature secret : string) : bool :=
  let digest := hmacSha256Hex ext secret payload in
  let expected := digest in
  let provided := signature in
  if negb (Nat.eqb (String.length expected) (String.length provided)) then false
  else timingSafeEqual expected provided.

(** [POST /api/payments/crypto/usdt/webhook] *)
Definition usdtWebhook (ext : Externals) (env : RouteEnv) (request : Request)
  : M (World Database) Response :=
  if String.eqb (usdtWebhookSecret env) "" then
    ret (mkResponse 500 (Some "USDT webhook configuration is missing."))
  else
    match signatureHeader request with
    | None => ret BAD_REQUEST_RESPONSE
    | Some signature =>
        if String.eqb signature "" then ret BAD_REQUEST_RESPONSE
        else
          let* payloadText := await (fun db => Returned (bodyText request) db) in
          if negb (isValidHmacSignature ext payloadText signature (usdtWebhookSecret env)) then
            ret (mkResponse 400 (Some "Invalid USDT webhook signature."))
          else
            match parsePayload ext payloadText with
            | None => ret BAD_REQUEST_RESPONSE
            | Some payload =>
                if String.eqb (userId payload) ""
                   || String.eqb (transactionId payload) ""
                   || String.eqb (currency payload) ""
                   || String.eqb (network payload) ""
                then ret BAD_REQUEST_RESPONSE
                else
                  exec handleUsdtPayment (settlement env) payload then
                  ret (mkResponse 204 None)
            end
    end.

(** The request is signed with the configured secret and carries a
    payload with its four names filled in. *)
Definition authentic (ext : Externals) (env : RouteEnv) (request : Request)
           (payload : CryptoWebhookPayload) : Prop :=
  usdtWebhookSecret env ≠ ""
  ∧ signatureHeader request
    = Some (hmacSha256Hex ext (usdtWebhookSecret env) (bodyText request))
  ∧ hmacSha256Hex ext (usdtWebhookSecret env) (bodyText request) ≠ ""
  ∧ parsePayload ext (bodyText request) = Some payload
  ∧ userId payload ≠ "" ∧ transactionId payload ≠ ""
  ∧ currency payload ≠ "" ∧ network payload ≠ "".

End UsdtWebhook.

(** ** Sessions *)

Module Sessions.
Import Fx.
Local Open Scope Z_scope.
Local Open Scope fx_scope.

Record AuthEnv : Set := mkAuthEnv {
  sessionTtlSeconds : Z;
}.

Definition SESSION_TTL_MS (env : AuthEnv) : Z := sessionTtlSeconds env * 1000.

Record SessionRecord : Set := mkSessionRecord {
  sessionId : string;
  userId : string;
  createdAtUnixMs : Z;
}.

Record UserProfile : Set := mkProfile {
  profile_id : string;
  profile_name : string;
  profile_email : string;
  profile_apiCredits : Z;
}.

(** The in-memory [sessionStore] of the server process and the [users]
    table (rows under their primary key). *)
Record Memory : Type := mkMemory {
  sessionStore : gmap string SessionRecord;
  users : gmap string PaymentStore.UserRow;
}.

Definition withSessions (f : gmap string SessionRecord → gmap string SessionRecord)
           (m : Memory) : Memory :=
  mkMemory (f (sessionStore m)) (users m).

Definition mapDatabaseUserToProfile (id : string) (databaseUser : PaymentStore.UserRow)
  : UserProfile :=
  mkProfile id (PaymentStore.user_name databaseUser) (PaymentStore.user_email databaseUser)
            (PaymentStore.user_apiCredits databaseUser).

(** [sessionAgeMs > SESSION_TTL_MS] *)
Definition expired (env : AuthEnv) (nowUnixMs : Z) (sessionRecord : SessionRecord) : bool :=
  nowUnixMs - createdAtUnixMs sessionRecord >? SESSION_TTL_MS env.

(** [nowUnixMs] is what [Date.now()] yields in this call. *)
Definition pruneExpiredSessions (env : AuthEnv) (nowUnixMs : Z) : M (World Memory) unit :=
  modifyStore
    (withSessions
       (filter (λ entry : string * SessionRecord, expired env nowUnixMs entry.2 = false))).

Definition createSessionForUser (nowUnixMs : Z) (userId : string) : M (World Memory) string :=
  let* sessionId := randomUUID in
  exec modifyStore (withSessions <[sessionId := mkSessionRecord sessionId userId nowUnixMs]>) then
  ret sessionId.

Definition getUserBySession (env : AuthEnv) (nowUnixMs : Z) (sessionId : option string)
  : M (World Memory) (option UserProfile) :=
  match sessionId with
  | None => ret None
  | Some sessionId =>
      if String.eqb sessionId "" then ret None
      else
        exec pruneExpiredSessions env nowUnixMs then
        let* sessionRecord := getsStore (fun m => sessionStore m !! sessionId) in
        match sessionRecord with
        | None => ret None
        | Some sessionRecord =>
            let* databaseUser :=
              await (fun m => Returned (users m !! userId sessionRecord) m) in
            match databaseUser with
            | None => ret None
            | Some databaseUser =>
                ret (Some (mapDatabaseUserToProfile (userId sessionRecord) databaseUser))
            end
        end
  end.

Definition logout (sessionId : option string) : M (World Memory) unit :=
  match sessionId with
  | None => ret tt
  | Some sessionId =>
      if String.eqb sessionId "" then ret tt
      else modifyStore (withSessions (delete sessionId))
  end.

(** The sessions a lookup at [nowUnixMs] leaves in memory. *)
Definition live (env : AuthEnv) (nowUnixMs : Z) (sessions : gmap string SessionRecord)
  : gmap string SessionRecord :=
  filter (λ entry : string * SessionRecord, expired env nowUnixMs entry.2 = false) sessions.

End Sessions.

(** ** API keys ([apiKeyService]) *)

Module ApiKeys.
Import Fx JsString.
Local Open Scope fx_scope.

(** What the service takes from the runtime: [Bun.password.hash] and
    [String.prototype.trim]. *)
Record Runtime : Type := mkRuntime {
  passwordHash : string → string;
  trim : string → string;
}.

Inductive ApiKeyStatus : Set := active | revoked.

Definition ApiKeyStatus_eqb (a b : ApiKeyStatus) : bool :=
  match a, b with
  | active, active | revoked, revoked => true
  | _, _ => false
  end.

(** A row of [api_keys]: [id] is the primary key, [keyHash] is unique. *)
Record ApiKeyRow : Set := mkApiKey {
  key_id : string;
  key_userId : string;
  key_name : string;
  key_keyHash : string;
  key_prefix : string;
  key_maskedKey : string;
  key_status : ApiKeyStatus;
  key_lastUsedAt : option string;
  key_createdAt : string;
}.

Record ApiKeySummary : Set := mkSummary {
  summary_id : string;
  summary_name : string;
  summary_prefix : string;
  summary_maskedKey : string;
  summary_createdAt : string;
  summary_lastUsedAt : option string;
  summary_status : ApiKeyStatus;
}.

Record CreateApiKeyResponse : Set := mkCreated {
  apiKey : ApiKeySummary;
  rawKey : string;
}.

Definition mapDatabaseApiKeyToSummary (databaseApiKey : ApiKeyRow) : ApiKeySummary :=
  mkSummary (key_id databaseApiKey) (key_name databaseApiKey) (key_prefix databaseApiKey)
            (key_maskedKey databaseApiKey) (key_createdAt databaseApiKey)
            (key_lastUsedAt databaseApiKey) (key_status databaseApiKey).

Definition API_KEY_MASK_SECTION : string := "************".

Definition generateRawApiKey {D} : M (World D) string :=
  let* uuid := randomUUID in
  ret ("ave_live_" +:+ removeDashes uuid).

Definition generateApiKeyMask (rawApiKey : string) : string :=
  let prefixLength := 12%nat in
  let suffixLength := 4%nat in
  let prefix := sliceTo prefixLength rawApiKey in
  let suffix := sliceLast suffixLength rawApiKey in
  prefix +:+ API_KEY_MASK_SECTION +:+ suffix.

(** *** Statements against [api_keys] *)

Definition insertApiKey (row : ApiKeyRow) (table : list ApiKeyRow)
  : Result (list ApiKeyRow) ApiKeyRow :=
  if existsb (fun r => String.eqb (key_id r) (key_id row)) table
     || existsb (fun r => String.eqb (key_keyHash r) (key_keyHash row)) table
  then Threw "duplicate key value violates unique constraint" table
  else Returned row (table ++ [row]).

(** [and(eq(apiKeysTable.userId, userId), eq(apiKeysTable.id, keyId))] *)
Definition ownedKey (userId keyId : string) (r : ApiKeyRow) : bool :=
  String.eqb (key_userId r) userId && String.eqb (key_id r) keyId.

Definition setStatus (status : ApiKeyStatus) (r : ApiKeyRow) : ApiKeyRow :=
  mkApiKey (key_id r) (key_userId r) (key_name r) (key_keyHash r) (key_prefix r)
           (key_maskedKey r) status (key_lastUsedAt r) (key_createdAt r).

(** [update ... set({status: "revoked"}).where(...).returning()] *)
Definition updateRevoked (userId keyId : string) (table : list ApiKeyRow)
  : Result (list ApiKeyRow) (list ApiKeyRow) :=
  Returned (map (setStatus revoked) (List.filter (ownedKey userId keyId) table))
           (map (fun r => if ownedKey userId keyId r then setStatus revoked r else r) table).

(** [select ... where(...).limit(1)] *)
Definition selectOwnedKey (userId keyId : string) (table : list ApiKeyRow)
  : Result (list ApiKeyRow) (list ApiKeyRow) :=
  Returned (take 1 (List.filter (ownedKey userId keyId) table)) table.

(** *** [apiKeyService] *)

Definition create (rt : Runtime) (userId name : string)
  : M (World (list ApiKeyRow)) CreateApiKeyResponse :=
  let* now := getIsoTimestamp in
  let* rawApiKey := generateRawApiKey in
  let* keyHash := await (fun table => Returned (passwordHash rt rawApiKey) table) in
  let* uuid := randomUUID in
  let apiKeyId := "key_" +:+ idFragment 16 uuid in
  let prefix := sliceTo 12 rawApiKey in
  let maskedKey := generateApiKeyMask rawApiKey in
  let* databaseApiKey :=
    await (insertApiKey
             (mkApiKey apiKeyId userId name keyHash prefix maskedKey active None now)) in
  ret (mkCreated (mapDatabaseApiKeyToSummary databaseApiKey) rawApiKey).

Definition revoke (userId keyId : string) : M (World (list ApiKeyRow)) bool :=
  let* updated := await (updateRevoked userId keyId) in
  ret (match head updated with Some _ => true | None => false end).

Definition rotate (rt : Runtime) (userId keyId : string) (name : option string)
  : M (World (list ApiKeyRow)) (option CreateApiKeyResponse) :=
  let* existingApiKeys := await (selectOwnedKey userId keyId) in
  match head existingApiKeys with
  | None => ret None
  | Some existingApiKey =>
      if negb (ApiKeyStatus_eqb (key_status existingApiKey) active) then ret None
      else
        let nextName :=
          match name with
          | Some name =>
              if String.eqb (trim rt name) "" then key_name existingApiKey +:+ " (rotated)"
              else trim rt name
          | None => key_name existingApiKey +:+ " (rotated)"
          end in
        let* rotatedApiKey := create rt userId nextName in
        exec revoke userId keyId then
        ret (Some rotatedApiKey)
  end.

(** *** Observations *)

(** The number of active keys of a user. *)
Definition activeKeys (userId : string) (table : list ApiKeyRow) : nat :=
  length (List.filter
            (fun r => String.eqb (key_userId r) userId
                      && ApiKeyStatus_eqb (key_status r) active) table).

(** The rows of everybody else. *)
Definition keysOfOthers (userId : string) (table : list ApiKeyRow) : list ApiKeyRow :=
  List.filter (fun r => negb (String.eqb (key_userId r) userId)) table.

(** [r'] is [r], or [r] revoked. *)
Definition revokedOrSame (r r' : ApiKeyRow) : Prop :=
  r' = r ∨ r' = setStatus revoked r.

(** The active key the user holds under [keyId], if any. *)
Definition activeOwnedKey (userId keyId : string) (table : list ApiKeyRow)
  : option ApiKeyRow :=
  match head (List.filter (ownedKey userId keyId) table) with
  | Some r => if ApiKeyStatus_eqb (key_status r) active then Some r else None
  | None => None
  end.

(** [revoke] on one row. *)
Definition revokeRow (userId keyId : string) (r : ApiKeyRow) : ApiKeyRow :=
  if ownedKey userId keyId r then setStatus revoked r else r.

(** What [create] leaves: one new active row of the user under a fresh
    id, holding the hash and the mask of the key handed out. *)
Definition createdKey (rt : Runtime) (u name : string) (t0 : list ApiKeyRow)
           (response : CreateApiKeyResponse) (new : ApiKeyRow) : Prop :=
  ¬ In (key_id new) (map key_id t0)
  ∧ key_userId new = u ∧ key_name new = name ∧ key_status new = active
  ∧ key_keyHash new = passwordHash rt (rawKey response)
  ∧ key_prefix new = sliceTo 12 (rawKey response)
  ∧ key_maskedKey new = generateApiKeyMask (rawKey response)
  ∧ apiKey response = mapDatabaseApiKeyToSummary new.

(** The table after [rotate] has revoked the old key and added [new]. *)
Definition rotated (rt : Runtime) (u k : string) (t0 t1 : list ApiKeyRow)
           (response : CreateApiKeyResponse) : Prop :=
  ∃ old new name,
    activeOwnedKey u k t0 = Some old
    ∧ createdKey rt u name t0 response new
    ∧ t1 = map (revokeRow u k) t0 ++ [new].

(** The table when [rotate] fails after [create]. *)
Definition halfRotated (rt : Runtime) (u k : string) (t0 t1 : list ApiKeyRow) : Prop :=
  ∃ old new name response,
    activeOwnedKey u k t0 = Some old
    ∧ createdKey rt u name t0 response new
    ∧ t1 = t0 ++ [new].

End ApiKeys.

(** ** Accounts: registration and password reset ([authStore]) *)

Module Accounts.
Import Fx.
Local Open Scope fx_scope.

(** What the code takes from outside: [createHash("sha256")] in
    [hashToken], [Bun.password.hash], the string methods [trim] and
    [toLowerCase], and [new Date(ms).toISOString()]. *)
Record Runtime : Type := mkRuntime {
  hashToken : string → string;
  passwordHash : string → string;
  trim : string → string;
  toLowerCase : string → string;
  toISOString : Z → string;
}.

(** The part of [env] the account code reads. *)
Record AccountEnv : Set := mkAccountEnv {
  initialUserCredits : Z;
  passwordResetTokenTtlMinutes : Z;
}.

(** A row of [password_reset_tokens]: [id] is the primary key,
    [tokenHash] is unique. *)
Record TokenRow : Set := mkToken {
  token_id : string;
  token_userId : string;
  token_tokenHash : string;
  token_expiresAt : string;
  token_usedAt : option string;
  token_createdAt : string;
}.

Record AuthDb : Type := mkAuthDb {
  users : gmap string PaymentStore.UserRow;
  passwordResetTokens : list TokenRow;
}.

Record RegisterRequest : Set := mkRegister {
  name : string;
  email : string;
  registerPassword : string;
}.

Record ResetPasswordRequest : Set := mkReset {
  token : string;
  password : string;
}.

(** The truth value of a nullable text column. *)
Definition truthy (value : option string) : bool :=
  match value with
  | Some s => negb (String.eqb s "")
  | None => false
  end.

(** *** Statements *)

Definition selectTokenByHash (tokenHash : string)
  : AuthDb → Result AuthDb (option TokenRow) :=
  fun d =>
    Returned (List.find (fun r => String.eqb (token_tokenHash r) tokenHash)
                        (passwordResetTokens d)) d.

Definition updateUserPassword (userId passwordHash now : string)
  : AuthDb → Result AuthDb unit :=
  fun d =>
    Returned tt
      (mkAuthDb
         (match users d !! userId with
          | Some u =>
              <[userId := PaymentStore.mkUser
                            (PaymentStore.user_name u) (PaymentStore.user_email u)
                            passwordHash (PaymentStore.user_apiCredits u)
                            (PaymentStore.user_createdAt u) now]> (users d)
          | None => users d
          end)
         (passwordResetTokens d)).

Definition setUsedAt (now : string) (r : TokenRow) : TokenRow :=
  mkToken (token_id r) (token_userId r) (token_tokenHash r) (token_expiresAt r)
          (Some now) (token_createdAt r).

Definition updateTokenUsed (id now : string) : AuthDb → Result AuthDb unit :=
  fun d =>
    Returned tt
      (mkAuthDb (users d)
                (map (fun r => if String.eqb (token_id r) id then setUsedAt now r else r)
                     (passwordResetTokens d))).

(** [select().from(usersTable).where(eq(usersTable.email, e)).limit(1)],
    the row with its primary key. *)
Definition selectUserByEmail (email : string)
  : AuthDb → Result AuthDb (option (string * PaymentStore.UserRow)) :=
  fun d =>
    Returned (List.find (fun entry : string * PaymentStore.UserRow =>
                           String.eqb (PaymentStore.user_email entry.2) email)
                        (map_to_list (users d))) d.

Definition insertToken (row : TokenRow) : AuthDb → Result AuthDb unit :=
  fun d =>
    if existsb (fun r => String.eqb (token_id r) (token_id row)) (passwordResetTokens d)
       || existsb (fun r => String.eqb (token_tokenHash r) (token_tokenHash row))
                  (passwordResetTokens d)
    then Threw "duplicate key value violates unique constraint" d
    else Returned tt (mkAuthDb (users d) (passwordResetTokens d ++ [row])).

(** [insert(usersTable).values(row).returning()]: [id] is the primary
    key, [email] is unique. *)
Definition insertUser (id : string) (row : PaymentStore.UserRow)
  : AuthDb → Result AuthDb (string * PaymentStore.UserRow) :=
  fun d =>
    match users d !! id with
    | Some _ => Threw "duplicate key value violates unique constraint" d
    | None =>
        if existsb (fun entry : string * PaymentStore.UserRow =>
                      String.eqb (PaymentStore.user_email entry.2)
                                 (PaymentStore.user_email row))
                   (map_to_list (users d))
        then Threw "duplicate key value violates unique constraint" d
        else Returned (id, row) (mkAuthDb (<[id := row]> (users d)) (passwordResetTokens d))
    end.

(** *** [authStore.register] *)

Definition register (rt : Runtime) (env : AccountEnv) (input : RegisterRequest)
  : M (World AuthDb) Sessions.UserProfile :=
  let normalizedEmail := toLowerCase rt (trim rt (email input)) in
  let* now := getIsoTimestamp in
  let* existingUser := await (selectUserByEmail normalizedEmail) in
  match existingUser with
  | Some _ => throw "Email already registered."
  | None =>
      let* uuid := randomUUID in
      let* hashed := await (fun d => Returned (passwordHash rt (registerPassword input)) d) in
      let* createdUser :=
        await (insertUser ("usr_" +:+ JsString.idFragment 20 uuid)
                 (PaymentStore.mkUser (trim rt (name input)) normalizedEmail hashed
                                      (initialUserCredits env) now now)) in
      ret (Sessions.mapDatabaseUserToProfile createdUser.1 createdUser.2)
  end.

(** *** [getUserByEmail], [authStore.createForgotPasswordToken] *)

Definition getUserByEmail (rt : Runtime) (email : string)
  : M (World AuthDb) (option (string * PaymentStore.UserRow)) :=
  let normalizedEmail := toLowerCase rt (trim rt email) in
  let* databaseUser := await (selectUserByEmail normalizedEmail) in
  ret databaseUser.

(** [nowUnixMs] is what [Date.now()] yields in this call. *)
Definition createForgotPasswordToken (rt : Runtime) (env : AccountEnv) (nowUnixMs : Z)
           (email : string) : M (World AuthDb) (option string) :=
  let* databaseUser := getUserByEmail rt email in
  match databaseUser with
  | None => ret None
  | Some (databaseUserId, _) =>
      let* uuid1 := randomUUID in
      let* uuid2 := randomUUID in
      let rawToken := JsString.removeDashes uuid1 +:+ JsString.removeDashes uuid2 in
      let* now := getIsoTimestamp in
      let expiresAt :=
        toISOString rt (nowUnixMs + passwordResetTokenTtlMinutes env * 60 * 1000)%Z in
      let* uuid3 := randomUUID in
      exec await (insertToken
                    (mkToken ("prt_" +:+ JsString.idFragment 20 uuid3) databaseUserId
                             (hashToken rt rawToken) expiresAt None now)) then
      ret (Some rawToken)
  end.

(** *** [authStore.resetPassword] *)

Definition resetPassword (rt : Runtime) (input : ResetPasswordRequest)
  : M (World AuthDb) bool :=
  let tokenHash := hashToken rt (token input) in
  let* now := getIsoTimestamp in
  let* databaseToken := await (selectTokenByHash tokenHash) in
  match databaseToken with
  | None => ret false
  | Some databaseToken =>
      if truthy (token_usedAt databaseToken)
         || String.ltb (token_expiresAt databaseToken) now
      then ret false
      else
        exec VideoTasks.transaction (
          let* hashed := await (fun d => Returned (passwordHash rt (password input)) d) in
          exec await (updateUserPassword (token_userId databaseToken) hashed now) then
          await (updateTokenUsed (token_id databaseToken) now)) then
        ret true
  end.

(** *** Observations *)

(** The token row a raw token selects, when it can still be used at
    [now]. *)
Definition usableToken (rt : Runtime) (rawToken now : string) (d : AuthDb)
  : option TokenRow :=
  match List.find (fun r => String.eqb (token_tokenHash r) (hashToken rt rawToken))
                  (passwordResetTokens d) with
  | Some t =>
      if truthy (token_usedAt t) || String.ltb (token_expiresAt t) now then None
      else Some t
  | None => None
  end.

(** [d] is [d0] after the reset by token row [t] went through: the
    password hash of the token's user is the hash of the new password,
    and the token is marked as used at [now]. *)
Definition resetDone (rt : Runtime) (input : ResetPasswordRequest) (now : string)
           (t : TokenRow) (d0 d : AuthDb) : Prop :=
  users d
  = match users d0 !! token_userId t with
    | Some u =>
        <[token_userId t := PaymentStore.mkUser
                              (PaymentStore.user_name u) (PaymentStore.user_email u)
                              (passwordHash rt (password input))
                              (PaymentStore.user_apiCredits u)
                              (PaymentStore.user_createdAt u) now]> (users d0)
    | None => users d0
    end
  ∧ passwordResetTokens d
    = map (fun r => if String.eqb (token_id r) (token_id t) then setUsedAt now r else r)
          (passwordResetTokens d0).

(** No two users share an email. *)
Definition uniqueEmails (d : AuthDb) : Prop :=
  ∀ i j u v, users d !! i = Some u → users d !! j = Some v →
             PaymentStore.user_email u = PaymentStore.user_email v → i = j.

(** Some user holds the email. *)
Definition emailTaken (email : string) (d : AuthDb) : Prop :=
  ∃ i u, users d !! i = Some u ∧ PaymentStore.user_email u = email.

(** [d] is [d0] with the one new user [u] under the fresh id [id], made
    from the request. *)
Definition registered (rt : Runtime) (env : AccountEnv) (input : RegisterRequest)
           (id : string) (u : PaymentStore.UserRow) (d0 d : AuthDb) : Prop :=
  users d0 !! id = None
  ∧ ¬ emailTaken (toLowerCase rt (trim rt (email input))) d0
  ∧ users d = <[id := u]> (users d0)
  ∧ passwordResetTokens d = passwordResetTokens d0
  ∧ PaymentStore.user_name u = trim rt (name input)
  ∧ PaymentStore.user_email u = toLowerCase rt (trim rt (email input))
  ∧ PaymentStore.user_passwordHash u = passwordHash rt (registerPassword input)
  ∧ PaymentStore.user_apiCredits u = initialUserCredits env.

(** [d] is [d0] with a fresh, unused token row [t] for the user found
    under the normalized [email], whose hash is that of [rawToken] and is
    the hash of no other row. *)
Definition issued (rt : Runtime) (env : AccountEnv) (nowUnixMs : Z) (email rawToken : string)
           (t : TokenRow) (d0 d : AuthDb) : Prop :=
  users d = users d0
  ∧ passwordResetTokens d = passwordResetTokens d0 ++ [t]
  ∧ token_tokenHash t = hashToken rt rawToken
  ∧ token_usedAt t = None
  ∧ token_expiresAt t
    = toISOString rt (nowUnixMs + passwordResetTokenTtlMinutes env * 60 * 1000)%Z
  ∧ existsb (fun r => String.eqb (token_tokenHash r) (hashToken rt rawToken))
            (passwordResetTokens d0) = false
  ∧ ∃ u, List.find (fun entry : string * PaymentStore.UserRow =>
                      String.eqb (PaymentStore.user_email entry.2)
                                 (toLowerCase rt (trim rt email)))
                   (map_to_list (users d0)) = Some (token_userId t, u).

End Accounts.

(** ** Concrete servers, requests and runtimes *)

Module ServerFixtures.
Import Fx PaymentFixtures.
Local Open Scope Z_scope.

Definition uuidsC : nat → string :=
  fun n => match n with
           | O => "3f2b8c1e-9d3a-4c51-a7e2-0b6f1c1e9d3a"
           | 1%nat => "5e8d7a4b-2c9f-4e03-b1d6-9a7e3d5c1b2f"
           | _ => "c41f0a97-e5b8-4d2f-9a30-7c2d4206c03a"
           end.

(** *** Video tasks *)

(** [CREDITS_PER_TASK=10], [SEEDANCE_MODEL=seedance-v2], the defaults. *)
Definition taskEnv : VideoTasks.Env := VideoTasks.mkEnv 10 "seedance-v2".

(** One user of balance 300, no task, an empty ledger, no timer. *)
Definition serverAlice : VideoTasks.Server :=
  VideoTasks.mkServer {[aliceId := alice]} [] [] [].

(** A request for 7.5 seconds. *)
Definition clipRequest : VideoTasks.VideoTaskCreateRequest :=
  VideoTasks.mkRequest "Cinematic drone shot over a futuristic neon city" None "16:9" (15 # 2).

(** *** Sessions *)

(** [SESSION_TTL_SECONDS] at its default, seven days. *)
Definition authEnv : Sessions.AuthEnv := Sessions.mkAuthEnv 604800.

Definition sessionOfAlice : string := "8a6e0804-2bd0-4672-b79d-d97027f9071a".

(** Alice logged in at 2026-03-01T10:00:00Z. *)
Definition memoryAlice : Sessions.Memory :=
  Sessions.mkMemory
    {[sessionOfAlice := Sessions.mkSessionRecord sessionOfAlice aliceId 1772359200000]}
    {[aliceId := alice]}.

Definition memoryNoSession : Sessions.Memory :=
  Sessions.mkMemory ∅ {[aliceId := alice]}.

(** *** API keys *)

(** A runtime whose hash tags the key and whose [trim] finds nothing to
    trim. *)
Definition keyRuntime : ApiKeys.Runtime :=
  ApiKeys.mkRuntime (fun rawApiKey => "$argon2id$v=19$" +:+ rawApiKey) (fun s => s).

Definition keyOfAlice : ApiKeys.ApiKeyRow :=
  ApiKeys.mkApiKey "key_0123456789abcdef" aliceId "CI deploy"
                   "$argon2id$v=19$ave_live_0123456789abcdef0123456789abcdef"
                   "ave_live_012" "ave_live_012************cdef"
                   ApiKeys.active None "2026-02-01T08:00:00.000Z".

Definition bobId : string := "usr_7d1b3e5f60a1b24f9c2a".

Definition keyOfBob : ApiKeys.ApiKeyRow :=
  ApiKeys.mkApiKey "key_fedcba9876543210" bobId "Render farm"
                   "$argon2id$v=19$ave_live_fedcba9876543210fedcba9876543210"
                   "ave_live_fed" "ave_live_fed************3210"
                   ApiKeys.active None "2026-02-03T09:30:00.000Z".

Definition keyTable : list ApiKeys.ApiKeyRow := [keyOfAlice; keyOfBob].

(** *** The USDT webhook *)

(** The body of a webhook call (the quotes of the JSON text left out). *)
Definition usdtBody : string :=
  "{transactionId:7c2d4206c03a883dd9066d620335dc1be272a8dc733cfa3f6d10308faa37facc,userId:usr_4f9c2a7d1b3e5f60a1b2,amountMinor:2500,currency:USDT,network:TRON,status:confirmed,confirmations:3}".

(** A signer that tags the payload with the secret, and a parser that
    knows the one body. *)
Definition signer : UsdtWebhook.Externals :=
  UsdtWebhook.mkExternals
    (fun secret payload => secret +:+ ":" +:+ payload)
    (fun body => if String.eqb body usdtBody
                 then Some (webhook PaymentStore.hook_confirmed 3 2500)
                 else None).

Definition routeEnv : UsdtWebhook.RouteEnv := UsdtWebhook.mkRouteEnv "whsec_51f0" env2.

(** *** Accounts *)

(** A runtime whose hashes tag their input, whose [trim] and
    [toLowerCase] find nothing to change, and whose [toISOString] knows
    the one instant 2026-03-01T10:30:00Z. *)
Definition resetRuntime : Accounts.Runtime :=
  Accounts.mkRuntime (fun rawToken => "sha256:" +:+ rawToken)
                          (fun password => "$argon2id$v=19$" +:+ password)
                          (fun s => s) (fun s => s)
                          (fun ms => if (ms =? 1772361000000)%Z
                                     then "2026-03-01T10:30:00.000Z"
                                     else "1970-01-01T00:00:00.000Z").

(** [PASSWORD_RESET_TOKEN_TTL_MINUTES] at its default. *)
Definition resetEnv : Accounts.AccountEnv := Accounts.mkAccountEnv 300 30.

Definition authDbNoToken : Accounts.AuthDb :=
  Accounts.mkAuthDb {[aliceId := alice]} [].

Definition rawResetToken : string :=
  "3f2b8c1e9d3a4c51a7e20b6f1c1e9d3a5e8d7a4b2c9f4e03b1d69a7e3d5c1b2f".

(** A token for Alice that expires at 10:30. *)
Definition resetTokenOfAlice : Accounts.TokenRow :=
  Accounts.mkToken "prt_c41f0a97e5b84d2f9a30" aliceId ("sha256:" +:+ rawResetToken)
                        "2026-03-01T10:30:00.000Z" None "2026-03-01T10:00:00.000Z".

Definition authDbAlice : Accounts.AuthDb :=
  Accounts.mkAuthDb {[aliceId := alice]} [resetTokenOfAlice].

Definition resetRequest : Accounts.ResetPasswordRequest :=
  Accounts.mkReset rawResetToken "correct horse battery staple".

(** A second sign-up under Alice's email. *)
Definition registerRequest : Accounts.RegisterRequest :=
  Accounts.mkRegister "Alice" "alice@example.com" "correct horse battery staple".

End ServerFixtures.

(** ** Reasoning rules for the effect monad *)

Module FxRules.
Import Fx.

Section Rules.
Context {S : Type}.

Lemma triple_ret {A} (a : A) (P : S → Prop) (Q : A → S → Prop) (E : S → Prop) :
  (∀ s, P s → Q a s) → triple P (ret a) Q E.
Proof. intros H s Hs. simpl. auto. Qed.

Lemma triple_throw {A} (e : string) (P : S → Prop) (Q : A → S → Prop) (E : S → Prop) :
  (∀ s, P s → E s) → triple P (throw e) Q E.
Proof. intros H s Hs. simpl. auto. Qed.

Lemma triple_bind {A B} (m : M S A) (k : A → M S B)
      (P : S → Prop) (R : A → S → Prop) (Q : B → S → Prop) (E : S → Prop) :
  triple P m R E → (∀ a, triple (R a) (k a) Q E) → triple P (bind m k) Q E.
Proof.
  intros Hm Hk s Hs. unfold bind. specialize (Hm s Hs).
  destruct (m s) as [a s'|e s']; [apply (Hk a s' Hm) | exact Hm].
Qed.

Lemma triple_weaken {A} (m : M S A) (P P' : S → Prop)
      (Q Q' : A → S → Prop) (E E' : S → Prop) :
  triple P' m Q' E' →
  (∀ s, P s → P' s) → (∀ a s, Q' a s → Q a s) → (∀ s, E' s → E s) →
  triple P m Q E.
Proof.
  intros Hm HP HQ HE s Hs. specialize (Hm s (HP s Hs)).
  destruct (m s); auto.
Qed.

(** A loop keeps an invariant indexed by the elements already handled. *)
Lemma triple_forM_ {A} (f : A → M S unit) (I : list A → S → Prop) (E : S → Prop) :
  ∀ (todo handled : list A),
    (∀ pre x, triple (I pre) (f x) (fun _ => I (pre ++ [x])) E) →
    triple (I handled) (forM_ todo f) (fun _ => I (handled ++ todo)) E.
Proof.
  induction todo as [|x todo IH]; intros handled Hf.
  - apply triple_ret. intros s Hs. by rewrite app_nil_r.
  - simpl. eapply triple_bind; [apply Hf|]. intros []. simpl.
    replace (handled ++ x :: todo) with ((handled ++ [x]) ++ todo)
      by (by rewrite <- app_assoc).
    apply IH, Hf.
Qed.

(** The special case of a predicate every iteration keeps. *)
Lemma triple_forM_keep {A} (f : A → M S unit) (I : S → Prop) (l : list A) :
  (∀ x, triple I (f x) (fun _ => I) I) →
  triple I (forM_ l f) (fun _ => I) I.
Proof.
  intros Hf.
  apply (triple_forM_ f (fun _ => I) I l []). intros _ x. apply Hf.
Qed.
End Rules.

Lemma triple_assume {S A} (m : M S A) (φ : Prop) (P : S → Prop)
      (Q : A → S → Prop) (E : S → Prop) :
  (φ → triple P m Q E) → triple (fun s => P s ∧ φ) m Q E.
Proof. intros H s [Hs Hφ]. by apply H. Qed.

Lemma triple_pre {S A} (m : M S A) (P P' : S → Prop) (Q : A → S → Prop) (E : S → Prop) :
  triple P' m Q E → (∀ s, P s → P' s) → triple P m Q E.
Proof. intros H HP. eapply triple_weaken; eauto. Qed.

Lemma triple_tryCatch {S A} (m : M S A) (h : string → M S A)
      (P : S → Prop) (Q : A → S → Prop) (E' E : S → Prop) :
  triple P m Q E' → (∀ e, triple E' (h e) Q E) → triple P (tryCatch m h) Q E.
Proof.
  intros Hm Hh s Hs. unfold tryCatch. specialize (Hm s Hs).
  destruct (m s) as [a s'|e s']; [exact Hm | apply (Hh e s' Hm)].
Qed.

Lemma triple_finally {S A} (m : M S A) (fin : M S unit)
      (P : S → Prop) (Q' Q : A → S → Prop) (E' E : S → Prop) :
  triple P m Q' E' →
  (∀ a, triple (Q' a) fin (fun _ => Q a) E) →
  triple E' fin (fun _ => E) E →
  triple P (finally m fin) Q E.
Proof.
  intros Hm Hq He s Hs. unfold finally. specialize (Hm s Hs).
  destruct (m s) as [a s'|e s'].
  - specialize (Hq a s' Hm). by destruct (fin s').
  - specialize (He s' Hm). by destruct (fin s').
Qed.

Section WorldRules.
Context {D : Type}.

(** Predicates on the store, read in a world. *)
Definition onStore (p : D → Prop) : World D → Prop := fun w => p (store w).

Lemma triple_await {A} (op : D → Result D A) (P : D → Prop)
      (Q : A → D → Prop) (E : D → Prop) :
  (∀ d, P d → E d) →
  (∀ d, P d → match op d with
              | Returned a d' => Q a d'
              | Threw _ d' => E d'
              end) →
  triple (onStore P) (await op) (fun a => onStore (Q a)) (onStore E).
Proof.
  intros HE Hop w Hw. unfold await, onStore in *.
  specialize (Hop (store w) Hw).
  destruct (faultIn w) as [[|n]|]; simpl; auto;
    destruct (op (store w)); simpl; auto.
Qed.

Lemma triple_getIsoTimestamp (P : World D → Prop) (E : World D → Prop) :
  triple P getIsoTimestamp (fun _ => P) E.
Proof. intros w Hw. exact Hw. Qed.

Lemma triple_randomUUID (P : D → Prop) (E : World D → Prop) :
  triple (onStore P) randomUUID (fun _ => onStore P) E.
Proof. intros w Hw. exact Hw. Qed.

Lemma triple_getsStore {A} (f : D → A) (P : D → Prop) (E : World D → Prop) :
  triple (onStore P) (getsStore f) (fun a => onStore (fun d => P d ∧ a = f d)) E.
Proof. intros w Hw. split; [exact Hw | reflexivity]. Qed.

Lemma triple_modifyStore (f : D → D) (P Q : D → Prop) (E : World D → Prop) :
  (∀ d, P d → Q (f d)) →
  triple (onStore P) (modifyStore f) (fun _ => onStore Q) E.
Proof. intros H w Hw. apply H, Hw. Qed.

(** In a world where nothing fails an awaited statement is the
    statement. *)
Lemma await_calm {A} (op : D → Result D A) (w : World D) :
  faultIn w = None →
  await op w = match op (store w) with
               | Returned a d => Returned a (setStore d w)
               | Threw e d => Threw e (setStore d w)
               end.
Proof.
  intros H. unfold await, tick, setStore. rewrite H. reflexivity.
Qed.

Lemma setStore_store (w : World D) : setStore (store w) w = w.
Proof. by destruct w. Qed.
End WorldRules.

End FxRules.

(** ** Facts about the chain worker *)

Module ChainWorkerFacts.
Import Fx FxRules ChainWorker.
Local Open Scope Z_scope.

Lemma Number_of_BigInt_safe z :
  Z.abs z <= MAX_SAFE_INTEGER → Number_of_BigInt z = z.
Proof.
  intros H. unfold Number_of_BigInt.
  destruct (Z.leb_spec (Z.abs z) MAX_SAFE_INTEGER); [reflexivity | lia].
Qed.

Lemma upsertDeposit_unfold config input w :
  upsertDeposit config input w
  = await (insertDepositOnConflictDoUpdate (depositValues config input (clock w))) w.
Proof. reflexivity. Qed.

Lemma depositValues_confirmations config input now :
  row_confirmations (depositValues config input now)
  = Z.min (specConfirmations (blockNumber input) (latestBlock input)) MAX_SAFE_INTEGER.
Proof.
  unfold depositValues, specConfirmations. simpl.
  set (c := if latestBlock input >=? blockNumber input then _ else _).
  assert (0 <= c).
  { subst c. destruct (Z.geb_spec (latestBlock input) (blockNumber input)); lia. }
  destruct (Z.gtb_spec c MAX_SAFE_INTEGER).
  - rewrite Number_of_BigInt_safe; [lia | unfold MAX_SAFE_INTEGER; lia].
  - rewrite Number_of_BigInt_safe; lia.
Qed.

Lemma depositValues_status config input now :
  row_status (depositValues config input now)
  = specStatus (minConfirmations config)
               (row_confirmations (depositValues config input now)).
Proof. reflexivity. Qed.

Lemma sameId_wellKeyed rows t i :
  wellKeyed rows →
  existsb (sameId (t, i)) rows = existsb (sameEvent t i) rows.
Proof.
  induction 1 as [|r rows Hr _ IH]; [reflexivity|].
  simpl. rewrite IH. f_equal. unfold sameId, sameEvent. by rewrite Hr.
Qed.

Lemma sameEvent_setConfirmation t i c s n r :
  sameEvent t i (setConfirmation c s n r) = sameEvent t i r.
Proof. reflexivity. Qed.

Lemma insert_wellKeyed v st :
  wellKeyed (deposits st) → row_id v = (row_txHash v, row_logIndex v) →
  insertDepositOnConflictDoUpdate v st
  = Returned tt (withDeposits (upserted v (deposits st)) st).
Proof.
  intros Hk Hv. unfold insertDepositOnConflictDoUpdate, upserted.
  destruct (existsb (sameEvent _ _) _) eqn:E; [reflexivity|].
  rewrite Hv, sameId_wellKeyed, E by done. reflexivity.
Qed.

Lemma upserted_wellKeyed v rows :
  wellKeyed rows → row_id v = (row_txHash v, row_logIndex v) →
  wellKeyed (upserted v rows).
Proof.
  intros Hk Hv. unfold upserted, wellKeyed in *.
  destruct (existsb _ _).
  - apply Forall_map. eapply Forall_impl; [exact Hk|].
    intros r Hr. simpl. by destruct (sameEvent _ _ r).
  - apply Forall_app. split; [done | by repeat constructor].
Qed.

Lemma find_upserted v rows :
  ∃ r, List.find (sameEvent (row_txHash v) (row_logIndex v)) (upserted v rows) = Some r
       ∧ row_confirmations r = row_confirmations v
       ∧ row_status r = row_status v.
Proof.
  unfold upserted.
  destruct (existsb _ _) eqn:E.
  - induction rows as [|r rows IH]; [discriminate|].
    simpl in *. destruct (sameEvent _ _ r) eqn:Er.
    + rewrite sameEvent_setConfirmation, Er. eexists. split; [reflexivity|]. done.
    + rewrite Er. simpl in E. by apply IH.
  - induction rows as [|r rows IH].
    + simpl. assert (sameEvent (row_txHash v) (row_logIndex v) v = true) as ->.
      { unfold sameEvent. rewrite String.eqb_refl, Z.eqb_refl. done. }
      eauto.
    + simpl in *. apply orb_false_elim in E as [-> E]. by apply IH.
Qed.


(** *** The sweep, row by row *)

Lemma withDeposits_id st : withDeposits (deposits st) st = st.
Proof. by destruct st. Qed.

Lemma sweep_loop_calm config latestBlock now ps :
  ∀ w, faultIn w = None →
    forM_ ps (fun pendingDeposit =>
      let blockNumber := BigInt_of_Number (row_blockNumber pendingDeposit) in
      let confirmations := Number_of_BigInt (latestBlock - blockNumber + 1) in
      let nextStatus :=
        if confirmations >=? minConfirmations config then confirmed else pending in
      if (confirmations =? row_confirmations pendingDeposit)
         && DepositStatus_eqb nextStatus (row_status pendingDeposit)
      then ret tt
      else await (updateDepositById (row_id pendingDeposit) confirmations nextStatus now)) w
    = Returned tt
        (setStore
           (withDeposits
              (map (fun r => fold_left (stepRow config latestBlock now) ps r)
                   (deposits (store w)))
              (store w))
           w).
Proof.
  induction ps as [|p ps IH]; intros w Hw.
  - simpl. unfold ret. rewrite map_id, withDeposits_id, setStore_store. reflexivity.
  - cbn [forM_]. unfold bind at 1.
    destruct ((_ =? _) && _) eqn:Hsame.
    + unfold ret at 1. rewrite IH by done. do 3 f_equal.
      apply map_ext. intros r. cbn [fold_left]. f_equal.
      unfold stepRow. cbv zeta. by rewrite Hsame.
    + rewrite await_calm by done. cbn [updateDepositById].
      rewrite IH by done.
      unfold setStore, withDeposits. cbn [store deposits faultIn clock entropy drawn
        workerState isPolling console].
      rewrite map_map. do 3 f_equal. apply map_ext. intros r.
      cbn [fold_left]. f_equal.
      unfold stepRow. cbv zeta. by rewrite Hsame.
Qed.

Lemma refresh_calm config latestBlock w :
  faultIn w = None →
  refreshPendingConfirmations config latestBlock w
  = Returned tt
      (setStore
         (withDeposits
            (map (fun r =>
                    fold_left (stepRow config latestBlock (clock w))
                      (List.filter
                         (fun r => DepositStatus_eqb (row_status r) pending
                                   && (row_blockNumber r <=? Number_of_BigInt latestBlock))
                         (deposits (store w)))
                      r)
                 (deposits (store w)))
            (store w))
         w).
Proof.
  intros Hw. unfold refreshPendingConfirmations. unfold bind at 1.
  rewrite await_calm by done. cbn [selectPendingUpTo].
  rewrite setStore_store. unfold bind, getIsoTimestamp.
  apply sweep_loop_calm, Hw.
Qed.



Lemma sameId_true i r : sameId i r = true ↔ row_id r = i.
Proof.
  unfold sameId. rewrite andb_true_iff, String.eqb_eq, Z.eqb_eq.
  destruct (row_id r), i; simpl. split; [intros [-> ->]; done | by inversion 1].
Qed.

Lemma sameId_refl r : sameId (row_id r) r = true.
Proof. by apply sameId_true. Qed.

Lemma sameId_setConfirmation i c s n r :
  sameId i (setConfirmation c s n r) = sameId i r.
Proof. reflexivity. Qed.

Lemma stepRow_other config latestBlock now r p :
  row_id p ≠ row_id r → stepRow config latestBlock now r p = r.
Proof.
  intros Hne. unfold stepRow. cbv zeta.
  destruct (_ && _); [done|].
  destruct (sameId (row_id p) r) eqn:E; [|done].
  apply sameId_true in E. congruence.
Qed.

Lemma stepRow_id config latestBlock now r p :
  row_id (stepRow config latestBlock now r p) = row_id r.
Proof.
  unfold stepRow. cbv zeta. destruct (_ && _); [done|].
  by destruct (sameId _ _).
Qed.

Lemma stepRow_twice config latestBlock now r :
  stepRow config latestBlock now (stepRow config latestBlock now r r) r
  = stepRow config latestBlock now r r.
Proof.
  unfold stepRow. cbv zeta. destruct (_ && _); [done|].
  rewrite sameId_refl, sameId_setConfirmation, sameId_refl. reflexivity.
Qed.

Lemma fold_stepRow_fixed config latestBlock now r0 r ps :
  row_id r = row_id r0 →
  (∀ p, In p ps → row_id p = row_id r0 → p = r0) →
  stepRow config latestBlock now r r0 = r →
  fold_left (stepRow config latestBlock now) ps r = r.
Proof.
  intros Hid Hps Hfix. induction ps as [|p ps IH]; [done|].
  cbn [fold_left].
  destruct (decide (row_id p = row_id r0)) as [E|E].
  - rewrite (Hps p (or_introl eq_refl) E), Hfix.
    apply IH. intros q Hq. apply Hps. by right.
  - rewrite stepRow_other by congruence.
    apply IH. intros q Hq. apply Hps. by right.
Qed.

Lemma fold_stepRow_absent config latestBlock now r0 ps :
  (∀ p, In p ps → row_id p ≠ row_id r0) →
  fold_left (stepRow config latestBlock now) ps r0 = r0.
Proof.
  intros Hps. induction ps as [|p ps IH]; [done|].
  cbn [fold_left]. rewrite stepRow_other by (apply Hps; by left).
  apply IH. intros q Hq. apply Hps. by right.
Qed.

Lemma fold_stepRow_present config latestBlock now r0 ps :
  (∀ p, In p ps → row_id p = row_id r0 → p = r0) →
  In r0 ps →
  fold_left (stepRow config latestBlock now) ps r0
  = stepRow config latestBlock now r0 r0.
Proof.
  intros Hps. induction ps as [|p ps IH]; [done|].
  intros Hin. cbn [fold_left].
  destruct (decide (row_id p = row_id r0)) as [E|E].
  - rewrite (Hps p (or_introl eq_refl) E).
    apply fold_stepRow_fixed with (r0 := r0).
    + apply stepRow_id.
    + intros q Hq. apply Hps. by right.
    + apply stepRow_twice.
  - rewrite stepRow_other by congruence.
    apply IH.
    + intros q Hq. apply Hps. by right.
    + destruct Hin as [->|]; [done | assumption].
Qed.

Lemma NoDup_map_inj {A B} (f : A → B) (l : list A) x y :
  List.NoDup (map f l) → In x l → In y l → f x = f y → x = y.
Proof.
  induction l as [|a l IH]; [done|].
  simpl. inversion 1 as [|? ? Hnot Hnd]; subst.
  intros [->|Hx] [->|Hy] Hf; try done.
  - exfalso. apply Hnot. rewrite Hf. by apply in_map.
  - exfalso. apply Hnot. rewrite <- Hf. by apply in_map.
  - by apply IH.
Qed.

Lemma sweep_row config latestBlock now rows r :
  List.NoDup (map row_id rows) → In r rows →
  fold_left (stepRow config latestBlock now)
            (List.filter
               (fun r => DepositStatus_eqb (row_status r) pending
                         && (row_blockNumber r <=? Number_of_BigInt latestBlock))
               rows)
            r
  = sweptRow config latestBlock now r.
Proof.
  intros Hnd Hr. unfold sweptRow.
  destruct (DepositStatus_eqb (row_status r) pending
            && (row_blockNumber r <=? Number_of_BigInt latestBlock)) eqn:Hsel.
  - rewrite fold_stepRow_present.
    + unfold stepRow. rewrite sameId_refl. reflexivity.
    + intros p Hp E. apply filter_In in Hp as [Hp _].
      by apply (NoDup_map_inj row_id rows).
    + apply filter_In. by split.
  - apply fold_stepRow_absent. intros p Hp E.
    apply filter_In in Hp as [Hp Hsel'].
    assert (p = r) as -> by by apply (NoDup_map_inj row_id rows).
    simpl in Hsel'. congruence.
Qed.

(** In a world where nothing fails the sweep returns, and maps
    [sweptRow] over the table. *)
Lemma refresh_swept config latestBlock w :
  faultIn w = None → List.NoDup (map row_id (deposits (store w))) →
  refreshPendingConfirmations config latestBlock w
  = Returned tt
      (setStore
         (withDeposits
            (map (sweptRow config latestBlock (clock w)) (deposits (store w)))
            (store w))
         w).
Proof.
  intros Hw Hnd. rewrite refresh_calm by done. do 3 f_equal.
  apply map_ext_in. intros r Hr. by apply sweep_row.
Qed.


(** *** Replaying a batch *)

Lemma valuesOf_keyed config latestBlock now tl :
  row_id (valuesOf config latestBlock now tl)
  = (row_txHash (valuesOf config latestBlock now tl),
     row_logIndex (valuesOf config latestBlock now tl)).
Proof. reflexivity. Qed.

Lemma upsertLogs_calm config latestBlock batch :
  ∀ w, faultIn w = None → wellKeyed (deposits (store w)) →
    upsertLogs config latestBlock batch w
    = Returned tt
        (setStore
           (withDeposits
              (fold_left (fun rows tl => upserted (valuesOf config latestBlock (clock w) tl) rows)
                         batch (deposits (store w)))
              (store w))
           w).
Proof.
  unfold upsertLogs.
  induction batch as [|tl batch IH]; intros w Hw Hk.
  - simpl. unfold ret. by rewrite withDeposits_id, setStore_store.
  - cbn [forM_ fold_left]. unfold bind at 1.
    rewrite upsertDeposit_unfold, await_calm by done.
    rewrite insert_wellKeyed by done.
    rewrite IH; [| done | by apply upserted_wellKeyed].
    reflexivity.
Qed.

Lemma sameEvent_touch t i r v : sameEvent t i (touch r v) = sameEvent t i r.
Proof. unfold touch. by destruct (sameEvent _ _ r). Qed.

Lemma existsb_map_touch t i rows v :
  existsb (sameEvent t i) (map (fun r => touch r v) rows) = existsb (sameEvent t i) rows.
Proof.
  induction rows as [|r rows IH]; [done|].
  simpl. by rewrite sameEvent_touch, IH.
Qed.

Lemma sameEvent_refl v : sameEvent (row_txHash v) (row_logIndex v) v = true.
Proof. unfold sameEvent. by rewrite String.eqb_refl, Z.eqb_refl. Qed.

Lemma present_upserted v u rows :
  present v rows ∨ (row_txHash v = row_txHash u ∧ row_logIndex v = row_logIndex u) →
  present v (upserted u rows).
Proof.
  unfold present, upserted. intros H.
  destruct (existsb (sameEvent (row_txHash u) _) rows) eqn:E.
  - change (existsb (sameEvent (row_txHash v) (row_logIndex v))
                    (map (fun r => touch r u) rows) = true).
    rewrite existsb_map_touch.
    destruct H as [H|[H1 H2]]; [done|]. by rewrite H1, H2.
  - rewrite existsb_app. apply orb_true_iff.
    destruct H as [H|[H1 H2]]; [by left|right].
    simpl. rewrite H1, H2, sameEvent_refl. done.
Qed.

Lemma present_fold v us rows :
  present v rows → present v (fold_left (fun rows u => upserted u rows) us rows).
Proof.
  revert rows. induction us as [|u us IH]; intros rows H; [done|].
  simpl. apply IH, present_upserted. by left.
Qed.

(** On a table that holds every event of the batch, a pass only touches. *)
Lemma fold_upserted_present vs :
  ∀ rows, Forall (fun v => present v rows) vs →
    fold_left (fun rows v => upserted v rows) vs rows
    = map (fun r => fold_left touch vs r) rows.
Proof.
  induction vs as [|v vs IH]; intros rows H.
  - simpl. by rewrite map_id.
  - inversion H as [|? ? Hv Hvs]; subst. cbn [fold_left].
    assert (upserted v rows = map (fun r => touch r v) rows) as ->.
    { unfold upserted. unfold present in Hv. by rewrite Hv. }
    rewrite IH.
    + by rewrite map_map.
    + eapply Forall_impl; [exact Hvs|]. intros u Hu. unfold present in *.
      by rewrite existsb_map_touch.
Qed.

Lemma frame_touch r v : frame (touch r v) = frame r.
Proof. unfold touch. by destruct (sameEvent _ _ r). Qed.

Lemma frame_fold vs : ∀ r, frame (fold_left touch vs r) = frame r.
Proof.
  induction vs as [|v vs IH]; intros r; [done|].
  simpl. by rewrite IH, frame_touch.
Qed.

Lemma sameEvent_frame t i r : sameEvent t i r = sameEvent t i (frame r).
Proof. reflexivity. Qed.

Lemma erase_by_frame r :
  eraseUpdatedAt r = setConfirmation (row_confirmations r) (row_status r) "" (frame r).
Proof. reflexivity. Qed.

(** Touching last with the values a row already has changes nothing but
    [updatedAt], whatever was touched before. *)
Lemma erase_touch_last vs v r :
  sameEvent (row_txHash v) (row_logIndex v) r = true →
  row_confirmations r = row_confirmations v → row_status r = row_status v →
  eraseUpdatedAt (touch (fold_left touch vs r) v) = eraseUpdatedAt r.
Proof.
  intros Hk Hc Hs. unfold touch.
  rewrite (sameEvent_frame _ _ (fold_left touch vs r)), frame_fold, <- sameEvent_frame, Hk.
  rewrite !erase_by_frame. simpl.
  change (setConfirmation (row_confirmations v) (row_status v) ""
            (frame (fold_left touch vs r))
          = setConfirmation (row_confirmations r) (row_status r) "" (frame r)).
  by rewrite frame_fold, Hc, Hs.
Qed.

Lemma touch_other vs v r :
  sameEvent (row_txHash v) (row_logIndex v) r = false →
  touch (fold_left touch vs r) v = fold_left touch vs r.
Proof.
  intros Hk. unfold touch.
  by rewrite (sameEvent_frame _ _ (fold_left touch vs r)), frame_fold, <- sameEvent_frame, Hk.
Qed.

Lemma existsb_false_In {A} (f : A → bool) l x :
  existsb f l = false → In x l → f x = false.
Proof.
  intros H Hx. destruct (f x) eqn:E; [|done].
  assert (existsb f l = true) by (apply existsb_exists; eauto). congruence.
Qed.

(** After a pass over a batch, a second pass over the same logs at the
    same head leaves every row as it is, [updatedAt] apart. *)
Lemma replay_row config latestBlock t1 t2 batch :
  ∀ rows r,
    In r (fold_left (fun rows v => upserted v rows)
                    (map (valuesOf config latestBlock t1) batch) rows) →
    eraseUpdatedAt (fold_left touch (map (valuesOf config latestBlock t2) batch) r)
    = eraseUpdatedAt r.
Proof.
  induction batch as [|tl batch IH] using rev_ind; intros rows r Hr; [done|].
  rewrite !map_app, fold_left_app in *. cbn [map fold_left] in *.
  set (v1 := valuesOf config latestBlock t1 tl) in *.
  set (v2 := valuesOf config latestBlock t2 tl).
  set (rowsB := fold_left _ (map (valuesOf config latestBlock t1) batch) rows) in *.
  unfold upserted in Hr.
  destruct (existsb (sameEvent (row_txHash v1) (row_logIndex v1)) rowsB) eqn:E.
  - apply in_map_iff in Hr as (r0 & <- & Hr0).
    destruct (sameEvent (row_txHash v1) (row_logIndex v1) r0) eqn:Ek.
    + by apply erase_touch_last.
    + rewrite touch_other by done. by apply (IH rows).
  - apply in_app_or in Hr as [Hr|[<-|[]]].
    + rewrite touch_other; [by apply (IH rows)|].
      by apply (existsb_false_In _ rowsB).
    + apply erase_touch_last; [exact (sameEvent_refl v1) | reflexivity | reflexivity].
Qed.


Lemma countEvent_erase t i rows :
  countEvent t i (map eraseUpdatedAt rows) = countEvent t i rows.
Proof.
  unfold countEvent. induction rows as [|r rows IH]; [done|].
  simpl. change (sameEvent t i (eraseUpdatedAt r)) with (sameEvent t i r).
  destruct (sameEvent t i r); simpl; by rewrite IH.
Qed.

Lemma countEvent_zero t i rows :
  existsb (sameEvent t i) rows = false → countEvent t i rows = 0%nat.
Proof.
  unfold countEvent. induction rows as [|r rows IH]; [done|].
  simpl. intros [-> H]%orb_false_elim. by apply IH.
Qed.

Lemma sameEvent_eq t i r :
  sameEvent t i r = true → row_txHash r = t ∧ row_logIndex r = i.
Proof.
  unfold sameEvent. rewrite andb_true_iff, String.eqb_eq, Z.eqb_eq. done.
Qed.

Lemma countEvent_upserted t i v rows :
  (countEvent t i (upserted v rows) <= Nat.max 1 (countEvent t i rows))%nat.
Proof.
  unfold upserted. destruct (existsb _ rows) eqn:E.
  - assert (countEvent t i (map (fun r => touch r v) rows) = countEvent t i rows) as H.
    { unfold countEvent. clear E. induction rows as [|r rows IH]; [done|].
      simpl. rewrite sameEvent_touch. destruct (sameEvent t i r); simpl; by rewrite IH. }
    unfold touch in H. rewrite H. lia.
  - unfold countEvent. rewrite List.filter_app, length_app. simpl.
    destruct (sameEvent t i v) eqn:Ev; simpl; [|lia].
    apply sameEvent_eq in Ev as [<- <-].
    apply countEvent_zero in E. unfold countEvent in E. rewrite E. lia.
Qed.

Lemma countEvent_fold t i vs :
  ∀ rows,
    (countEvent t i (fold_left (fun rows v => upserted v rows) vs rows)
     <= Nat.max 1 (countEvent t i rows))%nat.
Proof.
  induction vs as [|v vs IH]; intros rows; [simpl; lia|].
  cbn [fold_left]. etransitivity; [apply IH|].
  pose proof (countEvent_upserted t i v rows). lia.
Qed.

(** *** A poll cycle *)

Lemma existsb_map_cond t i (rows : list DepositRow) (f : DepositRow → DepositRow) :
  (∀ r, sameEvent t i (f r) = sameEvent t i r) →
  existsb (sameEvent t i) (map f rows) = existsb (sameEvent t i) rows.
Proof.
  intros Hf. induction rows as [|r rows IH]; [done|].
  simpl. by rewrite Hf, IH.
Qed.

Lemma insert_outcome v st :
  match insertDepositOnConflictDoUpdate v st with
  | Returned _ st' =>
      cursorOf st' = cursorOf st
      ∧ (∀ log, recorded st log → recorded st' log)
      ∧ existsb (sameEvent (row_txHash v) (row_logIndex v)) (deposits st') = true
  | Threw _ st' => st' = st
  end.
Proof.
  unfold insertDepositOnConflictDoUpdate, recorded.
  destruct (existsb (sameEvent _ _) (deposits st)) eqn:E.
  - split; [done|]. simpl.
    assert (∀ t i, existsb (sameEvent t i)
                     (map (fun r => if sameEvent (row_txHash v) (row_logIndex v) r
                                    then setConfirmation (row_confirmations v) (row_status v)
                                                         (row_updatedAt v) r
                                    else r) (deposits st))
                   = existsb (sameEvent t i) (deposits st)) as H.
    { intros t i. apply existsb_map_cond. intros r. by destruct (sameEvent _ _ r). }
    split; [intros log; by rewrite H | by rewrite H].
  - destruct (existsb (sameId _) _); [done|].
    split; [done|]. simpl. split.
    + intros log Hl. rewrite existsb_app, Hl. done.
    + rewrite existsb_app. simpl. rewrite sameEvent_refl. apply orb_true_iff. right. done.
Qed.

Lemma update_outcome i c s n st :
  match updateDepositById i c s n st with
  | Returned _ st' =>
      cursorOf st' = cursorOf st ∧ (∀ log, recorded st log → recorded st' log)
  | Threw _ st' => st' = st
  end.
Proof.
  unfold updateDepositById, recorded. split; [done|]. simpl.
  intros log. rewrite existsb_map_cond; [done|].
  intros r. by destruct (sameId i r).
Qed.

Lemma keeps_mono c logs st st' :
  cursorOf st' = cursorOf st → (∀ log, recorded st log → recorded st' log) →
  keeps c logs st → keeps c logs st'.
Proof.
  intros Hc Hr [H1 H2]. split; [congruence|].
  eapply Forall_impl; [exact H2 | exact Hr].
Qed.

Lemma upsertDeposit_records config token log latestBlock c logs :
  triple (onStore (keeps c logs))
         (upsertDeposit config (inputOf token log latestBlock))
         (fun _ => onStore (keeps c (logs ++ [log])))
         (onStore (keeps c logs)).
Proof.
  unfold upsertDeposit.
  eapply triple_bind; [apply triple_getIsoTimestamp|]. intros now. cbv zeta.
  apply triple_await; [done|]. intros st Hst.
  match goal with |- context [insertDepositOnConflictDoUpdate ?v st] =>
    pose proof (insert_outcome v st) as H;
    destruct (insertDepositOnConflictDoUpdate v st) as [[] st'|e st']
  end.
  - destruct H as (Hc & Hr & Hv). destruct Hst as [H1 H2].
    split; [congruence|]. apply Forall_app. split.
    + eapply Forall_impl; [exact H2 | exact Hr].
    + repeat constructor. exact Hv.
  - by subst.
Qed.

Lemma sweep_keeps config latestBlock c logs :
  triple (onStore (keeps c logs))
         (refreshPendingConfirmations config latestBlock)
         (fun _ => onStore (keeps c logs))
         (onStore (keeps c logs)).
Proof.
  unfold refreshPendingConfirmations.
  eapply triple_bind.
  { apply (triple_await _ (keeps c logs) (fun _ => keeps c logs) (keeps c logs)); done. }
  intros pendingDeposits.
  eapply triple_bind; [apply triple_getIsoTimestamp|]. intros now.
  apply triple_forM_keep. intros p. cbv zeta.
  destruct (_ && _).
  - by apply triple_ret.
  - apply triple_await; [done|]. intros st Hst.
    match goal with |- context [updateDepositById ?i ?x ?s ?n st] =>
      pose proof (update_outcome i x s n st) as H;
      destruct (updateDepositById i x s n st) as [[] st'|e st']
    end.
    + destruct H. by eapply keeps_mono.
    + by subst.
Qed.

Lemma getCursorBlock_reads (P : WorkerState → Prop) :
  triple (onStore P) getCursorBlock
         (fun c => onStore (fun st => P st ∧ c = cursorOf st))
         (onStore P).
Proof.
  unfold getCursorBlock.
  eapply triple_bind.
  { apply (triple_await selectCursor P
             (fun row st => P st ∧ row = workerState st) P); [done|].
    intros st Hst. simpl. done. }
  intros [row|]; apply triple_ret; intros w [Hw Hrow]; split; try done;
    unfold cursorOf; by rewrite <- Hrow.
Qed.

Lemma setCursorBlock_writes blockNumber c logs :
  triple (onStore (keeps c logs))
         (setCursorBlock blockNumber)
         (fun _ => onStore (keeps (Some blockNumber) logs))
         (onStore (keeps c logs)).
Proof.
  unfold setCursorBlock.
  eapply triple_bind; [apply triple_getIsoTimestamp|]. intros now.
  apply triple_await; [done|]. intros st [H1 H2]. simpl. split; done.
Qed.

(** The scan of the tracked tokens records every log the client returns
    and leaves the cursor alone. *)
Lemma scan_records config client fromBlock c :
  let latestBlock := getBlockNumber client in
  triple (onStore (keeps c []))
         (forM_ (trackedTokens config) (fun token =>
            bind (await (remote (getLogs client (address token) fromBlock latestBlock)))
                 (fun logs =>
                    forM_ logs (fun log =>
                      upsertDeposit config
                        (mkInput token (transactionHash log) (log_logIndex log)
                                 (log_blockNumber log) (args_from log) (args_to log)
                                 (args_value log) latestBlock)))))
         (fun _ => onStore (keeps c (scannedLogs config client fromBlock)))
         (onStore (fun st => cursorOf st = c)).
Proof.
  intros latestBlock. unfold scannedLogs.
  set (logsOf := fun token => getLogs client (address token) fromBlock (getBlockNumber client)).
  apply (triple_forM_ _ (fun pre => onStore (keeps c (flat_map logsOf pre)))
                      (onStore (fun st => cursorOf st = c))
                      (trackedTokens config) []).
  intros pre token.
  eapply triple_bind.
  { apply (triple_await _ (keeps c (flat_map logsOf pre))
             (fun logs st => keeps c (flat_map logsOf pre) st ∧ logs = logsOf token)
             (fun st => cursorOf st = c)).
    - by intros st [? ?].
    - intros st Hst. simpl. done. }
  intros logs.
  apply (triple_assume _ (logs = logsOf token) (onStore (keeps c (flat_map logsOf pre)))).
  intros ->.
  eapply triple_weaken.
  - apply (triple_forM_ _ (fun lpre => onStore (keeps c (flat_map logsOf pre ++ lpre)))
                        (onStore (fun st => cursorOf st = c)) (logsOf token) []).
    intros lpre log.
    eapply triple_weaken; [apply (upsertDeposit_records config token log latestBlock c)| | |].
    + intros w Hw. exact Hw.
    + intros [] w Hw. unfold onStore in *. by rewrite List.app_assoc.
    + by intros w [? ?].
  - intros w Hw. unfold onStore in *. by rewrite app_nil_r.
  - intros [] w Hw. unfold onStore in *. rewrite flat_map_app. simpl.
    by rewrite app_nil_r.
  - done.
Qed.


Lemma pollOnce_cycle config client c0 :
  triple (onStore (fun st => cursorOf st = c0))
         (pollOnce config client)
         (fun _ => onStore (fun st =>
            (getBlockNumber client
             < match c0 with
               | Some c => c + 1
               | None => default (getBlockNumber client) (startBlock config)
               end
             ∧ cursorOf st = c0)
            ∨ advanced config client c0 st))
         (onStore (fun st => cursorOf st = c0 ∨ advanced config client c0 st)).
Proof.
  unfold pollOnce.
  eapply triple_bind.
  { apply (triple_await _ (fun st => cursorOf st = c0)
             (fun latest st => cursorOf st = c0 ∧ latest = getBlockNumber client)
             (fun st => cursorOf st = c0 ∨ advanced config client c0 st)).
    - intros st Hst. by left.
    - intros st Hst. simpl. done. }
  intros latestBlock.
  apply (triple_assume _ (latestBlock = getBlockNumber client)
                       (onStore (fun st => cursorOf st = c0))).
  intros ->.
  eapply triple_bind.
  { eapply triple_weaken; [apply (getCursorBlock_reads (fun st => cursorOf st = c0))| | |].
    - intros w Hw. exact Hw.
    - intros c w [Hw Hc]. exact (conj Hw (eq_trans Hc Hw)).
    - intros w Hw. by left. }
  intros currentCursor.
  apply (triple_assume _ (currentCursor = c0) (onStore (fun st => cursorOf st = c0))).
  intros ->. cbv zeta.
  set (fromBlock := match c0 with Some c => c + 1 | None => _ end).
  destruct (Z.gtb_spec fromBlock (getBlockNumber client)) as [Hgt|Hle].
  - eapply triple_weaken; [apply (sweep_keeps config (getBlockNumber client) c0 [])| | |].
    + intros w Hw. split; [exact Hw | constructor].
    + intros [] w [Hw _]. left. split; [lia | exact Hw].
    + intros w [Hw _]. by left.
  - eapply triple_bind.
    { eapply triple_weaken; [apply (scan_records config client fromBlock c0)| | |].
      - intros w Hw. split; [exact Hw | constructor].
      - intros a w Hw. exact Hw.
      - intros w Hw. by left. }
    intros [].
    eapply triple_bind.
    { eapply triple_weaken; [apply (setCursorBlock_writes (getBlockNumber client) c0)| | |].
      - intros w Hw. exact Hw.
      - intros a w Hw. exact Hw.
      - intros w [Hw _]. by left. }
    intros [].
    eapply triple_weaken; [apply sweep_keeps| | |].
    + intros w Hw. exact Hw.
    + intros [] w [Hc Hr]. right. by split.
    + intros w [Hc Hr]. right. by split.
Qed.

Lemma advanced_cursorLe config client c0 st :
  advanced config client c0 st → cursorLe c0 (cursorOf st).
Proof.
  intros (Hle & -> & _). destruct c0 as [c|]; simpl; [lia | done].
Qed.

Lemma cursorLe_refl c : cursorLe c c.
Proof. destruct c; simpl; [lia | done]. Qed.


Lemma pollOnce_split config client w :
  pollOnce config client w
  = bind (scanAndAdvance config client) (refreshPendingConfirmations config) w.
Proof.
  unfold pollOnce, scanAndAdvance, bind.
  destruct (await (remote (getBlockNumber client)) w) as [latestBlock w1|]; [|done].
  destruct (getCursorBlock w1) as [currentCursor w2|]; [|done].
  cbv zeta. destruct (_ >? _); [done|].
  destruct (forM_ _ _ w2) as [[] w3|]; [|done].
  destruct (setCursorBlock latestBlock w3) as [[] w4|]; done.
Qed.

Lemma scanAndAdvance_fails config client c0 :
  triple (onStore (fun st => cursorOf st = c0))
         (scanAndAdvance config client)
         (fun _ _ => True)
         (onStore (fun st => cursorOf st = c0)).
Proof.
  unfold scanAndAdvance.
  eapply triple_bind.
  { apply (triple_await _ (fun st => cursorOf st = c0)
             (fun latest st => cursorOf st = c0 ∧ latest = getBlockNumber client)
             (fun st => cursorOf st = c0)); [done|].
    intros st Hst. simpl. done. }
  intros latestBlock.
  apply (triple_assume _ (latestBlock = getBlockNumber client)
                       (onStore (fun st => cursorOf st = c0))).
  intros ->.
  eapply triple_bind.
  { eapply triple_weaken; [apply (getCursorBlock_reads (fun st => cursorOf st = c0))| | |].
    - intros w Hw. exact Hw.
    - intros c w [Hw Hc]. exact Hw.
    - done. }
  intros currentCursor. cbv zeta.
  destruct (_ >? _); [by apply triple_ret|].
  eapply triple_bind.
  { eapply triple_weaken; [apply (scan_records config client _ c0)| | |].
    - intros w Hw. split; [exact Hw | constructor].
    - intros a w Hw. exact Hw.
    - done. }
  intros [].
  eapply triple_bind.
  { eapply triple_weaken; [apply (setCursorBlock_writes (getBlockNumber client) c0)| | |].
    - intros w Hw. exact Hw.
    - intros a w Hw. exact Hw.
    - by intros w [Hw _]. }
  intros []. by apply triple_ret.
Qed.

Lemma runPollCycle_cycle config client c0 :
  triple (onStore (fun st => cursorOf st = c0))
         (runPollCycle config client)
         (fun _ => onStore (fun st => cursorOf st = c0 ∨ advanced config client c0 st))
         (fun _ => False).
Proof.
  unfold runPollCycle.
  eapply triple_bind; [apply triple_getsStore|].
  intros busy. destruct busy.
  { apply triple_ret. intros w [Hw _]. by left. }
  eapply triple_bind.
  { apply (triple_modifyStore _ _ (fun st => cursorOf st = c0)). by intros st [Hst _]. }
  intros [].
  eapply triple_finally with
    (Q' := fun _ => onStore (fun st => cursorOf st = c0 ∨ advanced config client c0 st))
    (E' := fun _ => False).
  - eapply triple_tryCatch.
    + eapply triple_weaken; [apply (pollOnce_cycle config client c0)| | |].
      * intros w Hw. exact Hw.
      * intros [] w [[_ Hw]|Hw]; [by left | by right].
      * intros w Hw. exact Hw.
    + intros e. apply triple_modifyStore. intros st Hst. exact Hst.
  - intros []. apply triple_modifyStore. intros st Hst. exact Hst.
  - intros w [].
Qed.

(** The part of a cycle before the sweep, when it returns: with no block
    to scan it leaves the cursor alone; otherwise every scanned log is
    recorded and the cursor is the head. *)
Lemma scanAndAdvance_advances config client c0 :
  triple (onStore (fun st => cursorOf st = c0))
         (scanAndAdvance config client)
         (fun latestBlock => onStore (fun st =>
            latestBlock = getBlockNumber client
            ∧ ((getBlockNumber client
                < match c0 with
                  | Some c => c + 1
                  | None => default (getBlockNumber client) (startBlock config)
                  end
                ∧ cursorOf st = c0)
               ∨ advanced config client c0 st)))
         (onStore (fun st => cursorOf st = c0)).
Proof.
  unfold scanAndAdvance.
  eapply triple_bind.
  { apply (triple_await _ (fun st => cursorOf st = c0)
             (fun latest st => cursorOf st = c0 ∧ latest = getBlockNumber client)
             (fun st => cursorOf st = c0)); [done|].
    intros st Hst. simpl. done. }
  intros latestBlock.
  apply (triple_assume _ (latestBlock = getBlockNumber client)
                       (onStore (fun st => cursorOf st = c0))).
  intros ->.
  eapply triple_bind.
  { eapply triple_weaken; [apply (getCursorBlock_reads (fun st => cursorOf st = c0))| | |].
    - intros w Hw. exact Hw.
    - intros c w [Hw Hc]. exact (conj Hw (eq_trans Hc Hw)).
    - done. }
  intros currentCursor.
  apply (triple_assume _ (currentCursor = c0) (onStore (fun st => cursorOf st = c0))).
  intros ->. cbv zeta.
  set (fromBlock := match c0 with Some c => c + 1 | None => _ end).
  destruct (Z.gtb_spec fromBlock (getBlockNumber client)) as [Hgt|Hle].
  - apply triple_ret. intros w Hw. split; [done|]. left. split; [lia | exact Hw].
  - eapply triple_bind.
    { eapply triple_weaken; [apply (scan_records config client fromBlock c0)| | |].
      - intros w Hw. split; [exact Hw | constructor].
      - intros a w Hw. exact Hw.
      - done. }
    intros [].
    eapply triple_bind.
    { eapply triple_weaken; [apply (setCursorBlock_writes (getBlockNumber client) c0)| | |].
      - intros w Hw. exact Hw.
      - intros a w Hw. exact Hw.
      - by intros w [Hw _]. }
    intros []. apply triple_ret. intros w [Hc Hr]. split; [done|]. right. by split.
Qed.

(** Where the cursor is after [pollOnce], by what the part before the
    sweep did: the sweep, returning or throwing, keeps the cursor and the
    recorded logs. *)
Lemma pollOnce_cursor config client w :
  let c0 := cursorOf (store w) in
  let fromBlock := fromBlockOf config client (store w) in
  let poll := store (stateOf (pollOnce config client w)) in
  match scanAndAdvance config client w with
  | Returned _ _ =>
      (fromBlock <= getBlockNumber client →
       cursorOf poll = Some (getBlockNumber client)
       ∧ Forall (recorded poll) (scannedLogs config client fromBlock))
      ∧ (getBlockNumber client < fromBlock → cursorOf poll = c0)
  | Threw _ _ => cursorOf poll = c0
  end.
Proof.
  intros c0 fromBlock poll. subst poll. rewrite pollOnce_split. unfold bind.
  pose proof (scanAndAdvance_advances config client c0 w eq_refl) as Hscan.
  destruct (scanAndAdvance config client w) as [latestBlock w1|e w1]; [|exact Hscan].
  destruct Hscan as [-> Hscan].
  change (match c0 with
          | Some c => c + 1
          | None => default (getBlockNumber client) (startBlock config)
          end) with fromBlock in Hscan.
  unfold advanced in Hscan. cbv zeta in Hscan.
  change (match c0 with
          | Some c => c + 1
          | None => default (getBlockNumber client) (startBlock config)
          end) with fromBlock in Hscan.
  destruct Hscan as [[Hlt Hc]|(Hle & Hc & Hr)].
  - pose proof (sweep_keeps config (getBlockNumber client) c0 [] w1
                  (conj Hc (List.Forall_nil _))) as Hsweep.
    split; [lia|]. intros _.
    destruct (refreshPendingConfirmations _ _ w1); apply Hsweep.
  - pose proof (sweep_keeps config (getBlockNumber client) _ _ w1 (conj Hc Hr)) as Hsweep.
    split; [|lia]. intros _.
    destruct (refreshPendingConfirmations _ _ w1); apply Hsweep.
Qed.

(** A cycle that is started runs [pollOnce] with the guard up, and
    leaves the two tables as [pollOnce] does. *)
Lemma runPollCycle_tables config client w :
  isPolling (store w) = false →
  let poll := store (stateOf (pollOnce config client
                                (setStore (withPolling true (store w)) w))) in
  let cycle := store (stateOf (runPollCycle config client w)) in
  deposits cycle = deposits poll ∧ workerState cycle = workerState poll.
Proof.
  intros Hidle poll cycle. subst poll cycle.
  unfold runPollCycle, bind, getsStore, modifyStore, finally, tryCatch.
  rewrite Hidle.
  by destruct (pollOnce config client _).
Qed.

End ChainWorkerFacts.

(** ** The properties of the chain worker *)

Module ChainWorkerTheorems.
Import Fx FxRules ChainWorker ChainWorkerFacts WorkerFixtures.
Local Open Scope Z_scope.

Lemma fold_upserted_map {A} (f : A → DepositRow) (l : list A) :
  ∀ rows,
    fold_left (fun rows x => upserted (f x) rows) l rows
    = fold_left (fun rows v => upserted v rows) (map f l) rows.
Proof. induction l as [|x l IH]; intros rows; [done | apply IH]. Qed.

Lemma fold_upserted_wellKeyed vs :
  ∀ rows, wellKeyed rows →
    Forall (fun v => row_id v = (row_txHash v, row_logIndex v)) vs →
    wellKeyed (fold_left (fun rows v => upserted v rows) vs rows).
Proof.
  induction vs as [|v vs IH]; intros rows Hk Hvs; [done|].
  inversion Hvs; subst. simpl. apply IH; [by apply upserted_wellKeyed | done].
Qed.

Lemma present_after vs :
  ∀ rows v, In v vs → present v (fold_left (fun rows v => upserted v rows) vs rows).
Proof.
  induction vs as [|u vs IH]; intros rows v Hv; [done|].
  simpl. destruct Hv as [->|Hv].
  - apply present_fold, present_upserted. by right.
  - by apply IH.
Qed.

(** C6.  Replaying a batch of transfer logs through the upsert step of
    the scanner, with the same head, changes nothing but [updatedAt]:
    both passes return; after the second pass the table holds the same
    rows, in the same order, with the same confirmations and status and
    every other column but [updatedAt]; no identity gains a row in
    either pass beyond the one it needs, and the cursor row is not
    touched. *)
Theorem replay_idempotent (config : Config) (latestBlock : Z)
        (batch : list (TrackedToken * TransferLog)) (d : WorkerState)
        (t1 t2 : string) (ids : nat → string) :
  wellKeyed (deposits d) →
  ∃ d1 d2,
    upsertLogs config latestBlock batch (calm d t1 ids) = Returned tt (calm d1 t1 ids)
    ∧ upsertLogs config latestBlock batch (calm d1 t2 ids) = Returned tt (calm d2 t2 ids)
    ∧ map eraseUpdatedAt (deposits d2) = map eraseUpdatedAt (deposits d1)
    ∧ workerState d2 = workerState d1
    ∧ (∀ t i, countEvent t i (deposits d2) = countEvent t i (deposits d1))
    ∧ (∀ t i, (countEvent t i (deposits d) <= 1)%nat →
              (countEvent t i (deposits d1) <= 1)%nat)
    ∧ Forall (fun tl => recorded d1 (snd tl)) batch.
Proof.
  intros Hk.
  set (rows1 := fold_left (fun rows v => upserted v rows)
                          (map (valuesOf config latestBlock t1) batch) (deposits d)).
  assert (wellKeyed rows1) as Hk1.
  { apply fold_upserted_wellKeyed; [done|]. apply Forall_map.
    apply List.Forall_forall. intros tl _. apply valuesOf_keyed. }
  assert (Forall (fun v => present v rows1) (map (valuesOf config latestBlock t2) batch))
    as Hpresent.
  { apply Forall_map, List.Forall_forall. intros tl Htl.
    change (present (valuesOf config latestBlock t1 tl) rows1).
    apply present_after, in_map, Htl. }
  set (rows2 := fold_left (fun rows v => upserted v rows)
                          (map (valuesOf config latestBlock t2) batch) rows1).
  assert (map eraseUpdatedAt rows2 = map eraseUpdatedAt rows1) as Hsame.
  { unfold rows2. rewrite fold_upserted_present by done. rewrite map_map.
    apply map_ext_in. intros r Hr. by apply (replay_row config latestBlock t1 t2 batch (deposits d)). }
  exists (withDeposits rows1 d), (withDeposits rows2 d).
  split; [|split; [|split; [|split; [|split; [|split]]]]].
  - rewrite upsertLogs_calm by done. simpl. by rewrite fold_upserted_map.
  - rewrite upsertLogs_calm by done. simpl. by rewrite fold_upserted_map.
  - exact Hsame.
  - reflexivity.
  - intros t i. simpl. by rewrite <- (countEvent_erase t i rows2), Hsame, countEvent_erase.
  - intros t i Hd. simpl. pose proof (countEvent_fold t i
      (map (valuesOf config latestBlock t1) batch) (deposits d)). fold rows1 in H. lia.
  - apply List.Forall_forall. intros tl Htl.
    change (present (valuesOf config latestBlock t1 tl) rows1).
    apply present_after, in_map, Htl.
Qed.

(** C4 (as amended).  The cursor never decreases: [runPollCycle] always
    returns, and after a cycle, whether [pollOnce] returned or threw,
    the stored cursor is at or above its value before.  [pollOnce] is
    the part before the sweep ([scanAndAdvance]: fetch the head, read the
    cursor, fetch the logs, upsert the deposits, write the cursor)
    followed by the sweep.  When that part throws, the cursor is as it
    was.  When it returns, the cursor is settled whether the sweep then
    returns or throws: with blocks to scan it is the head and every log
    the client returned for the tracked tokens over the scanned range is
    recorded; with none it is as it was.  The same holds of
    [runPollCycle], which runs [pollOnce] with the guard up, and which
    does nothing when the guard is up already.  So whenever the cursor
    has changed it is the head, with every scanned log recorded. *)
Theorem cursor_monotone (config : Config) (client : Rpc) (w : World WorkerState) :
  let c0 := cursorOf (store w) in
  let fromBlock := fromBlockOf config client (store w) in
  let logs := scannedLogs config client fromBlock in
  let poll := stateOf (pollOnce config client w) in
  let cycle := stateOf (runPollCycle config client w) in
  let started := setStore (withPolling true (store w)) w in
  returned (runPollCycle config client w) = true
  ∧ cursorLe c0 (cursorOf (store poll))
  ∧ cursorLe c0 (cursorOf (store cycle))
  ∧ (returned (scanAndAdvance config client w) = false → cursorOf (store poll) = c0)
  ∧ (cursorOf (store poll) ≠ c0 →
     cursorOf (store poll) = Some (getBlockNumber client)
     ∧ Forall (recorded (store poll)) logs)
  ∧ (cursorOf (store cycle) ≠ c0 →
     cursorOf (store cycle) = Some (getBlockNumber client)
     ∧ Forall (recorded (store cycle)) logs)
  ∧ pollOnce config client w
    = bind (scanAndAdvance config client) (refreshPendingConfirmations config) w
  ∧ (returned (scanAndAdvance config client w) = true →
     (fromBlock <= getBlockNumber client →
      cursorOf (store poll) = Some (getBlockNumber client)
      ∧ Forall (recorded (store poll)) logs)
     ∧ (getBlockNumber client < fromBlock → cursorOf (store poll) = c0))
  ∧ (isPolling (store w) = true → store cycle = store w)
  ∧ (isPolling (store w) = false →
     (returned (scanAndAdvance config client started) = false →
      cursorOf (store cycle) = c0)
     ∧ (returned (scanAndAdvance config client started) = true →
        (fromBlock <= getBlockNumber client →
         cursorOf (store cycle) = Some (getBlockNumber client)
         ∧ Forall (recorded (store cycle)) logs)
        ∧ (getBlockNumber client < fromBlock → cursorOf (store cycle) = c0))).
Proof.
  intros c0 fromBlock logs poll cycle started.
  pose proof (pollOnce_cycle config client c0 w eq_refl) as Hpoll.
  pose proof (runPollCycle_cycle config client c0 w eq_refl) as Hcycle.
  pose proof (scanAndAdvance_fails config client c0 w eq_refl) as Hscan.
  assert (onStore (fun st => cursorOf st = c0 ∨ advanced config client c0 st) poll) as Hp.
  { subst poll. destruct (pollOnce config client w) as [[] w'|e w']; simpl; [|done].
    destruct Hpoll as [[_ H]|H]; [by left | by right]. }
  assert (returned (runPollCycle config client w) = true
          ∧ onStore (fun st => cursorOf st = c0 ∨ advanced config client c0 st) cycle)
    as [Hret Hc].
  { subst cycle. by destruct (runPollCycle config client w) as [[] w'|e w']. }
  unfold onStore in *.
  split; [exact Hret|].
  split; [destruct Hp as [->|Hp]; [apply cursorLe_refl | by eapply advanced_cursorLe]|].
  split; [destruct Hc as [->|Hc]; [apply cursorLe_refl | by eapply advanced_cursorLe]|].
  split.
  { intros Hfail. subst poll. rewrite pollOnce_split. unfold bind.
    destruct (scanAndAdvance config client w); [discriminate | exact Hscan]. }
  split.
  { intros Hne. destruct Hp as [Hp|(_ & Hp1 & Hp2)]; [done|]. by split. }
  split.
  { intros Hne. destruct Hc as [Hc|(_ & Hc1 & Hc2)]; [done|]. by split. }
  split; [apply pollOnce_split|].
  split.
  { intros Hok. pose proof (pollOnce_cursor config client w) as H. cbv zeta in H.
    destruct (scanAndAdvance config client w); [exact H | discriminate]. }
  split.
  { intros Hbusy. subst cycle. unfold runPollCycle, bind, getsStore.
    by rewrite Hbusy. }
  intros Hidle.
  destruct (runPollCycle_tables config client w Hidle) as [Hd Hw].
  pose proof (pollOnce_cursor config client started) as H. cbv zeta in H.
  fold cycle in Hd, Hw.
  assert (cursorOf (store cycle)
          = cursorOf (store (stateOf (pollOnce config client started)))) as Hcur
    by (unfold cursorOf; by rewrite Hw).
  assert (∀ log, recorded (store (stateOf (pollOnce config client started))) log
                 → recorded (store cycle) log) as Hrec
    by (intros log; unfold recorded; by rewrite Hd).
  rewrite Hcur.
  change (cursorOf (store started)) with c0 in H.
  change (fromBlockOf config client (store started)) with fromBlock in H.
  fold logs in H.
  destruct (scanAndAdvance config client started).
  - split; [discriminate|]. intros _. destruct H as [H1 H2].
    split; [|exact H2]. intros Hle. destruct (H1 Hle) as [Ha Hb].
    split; [exact Ha|]. eapply Forall_impl; [exact Hb | exact Hrec].
  - split; [by intros _ | discriminate].
Qed.

(** C4, witness: from cursor 98 with head 100 and one transfer at block
    99, a cycle in which nothing fails leaves the cursor at 100 and the
    transfer recorded. *)
Lemma cursor_monotone_witness :
  let w := calm (workerAtCursor 98) "2026-03-01T10:00:00.000Z" noUuid in
  let client := clientAt 100 (transferAt 99) in
  let cycle := store (stateOf (runPollCycle config2 client w)) in
  cursorOf (store w) = Some 98
  ∧ cursorOf cycle = Some 100
  ∧ Forall (recorded cycle) [transferAt 99].
Proof.
  intros w client cycle.
  pose proof (cursor_monotone config2 client w) as H. cbv zeta in H.
  destruct H as (_ & _ & _ & _ & _ & _ & _ & _ & _ & H).
  destruct (H eq_refl) as [_ Hok].
  destruct (Hok eq_refl) as [Hadv _].
  split; [reflexivity|]. apply Hadv. vm_compute. discriminate.
Defined.

(** C4, counterexample to the claim as stated: a cycle whose sweep fails
    right after the cursor write is a failed cycle ([pollOnce] throws,
    [runPollCycle] logs the error), and it leaves the cursor moved from 98
    to 100. *)
Lemma failed_cycle_moves_cursor :
  let w := mkWorld (workerAtCursor 98) (Some 5%nat) "2026-03-01T10:00:00.000Z" noUuid 0 in
  let client := clientAt 100 (transferAt 99) in
  returned (pollOnce config2 client w) = false
  ∧ cursorOf (store w) = Some 98
  ∧ cursorOf (store (stateOf (pollOnce config2 client w))) = Some 100
  ∧ cursorOf (store (stateOf (runPollCycle config2 client w))) = Some 100
  ∧ console (store (stateOf (runPollCycle config2 client w)))
    = ["[chain-worker] poll error operation failed"].
Proof. vm_compute. repeat split; reflexivity. Qed.

(** C5, the code at the failing input.  The claim: a record that is
    confirmed never goes back to pending.  The code: [upsertDeposit]
    overwrites the status on conflict, so the same log upserted again under
    a lower head turns a confirmed record pending; this is reached through
    [runPollCycle] when a cycle fails at the cursor write and the retry
    talks to a node whose head lags. *)
Theorem confirmed_reverts_to_pending :
  let event := findEvent (transactionHash (transferAt 99)) 3 in
  let first := observed config2 (transferAt 99) 100 in
  let second :=
    store (stateOf (upsertDeposit config2 (inputOf usdtToken (transferAt 99) 99)
                                  (calm first "2026-03-01T10:00:15.000Z" noUuid))) in
  let failed :=
    store (stateOf (runPollCycle config2 (clientAt 100 (transferAt 99))
                      (mkWorld (workerAtCursor 98) (Some 4%nat)
                               "2026-03-01T10:00:00.000Z" noUuid 0))) in
  let retried :=
    store (stateOf (runPollCycle config2 (clientAt 99 (transferAt 99))
                      (calm failed "2026-03-01T10:00:15.000Z" noUuid))) in
  (row_status <$> event first = Some confirmed
   ∧ row_status <$> event second = Some pending
   ∧ row_confirmations <$> event second = Some 1)
  ∧ (row_status <$> event failed = Some confirmed
     ∧ cursorOf failed = Some 98
     ∧ row_status <$> event retried = Some pending
     ∧ length (deposits retried) = 1%nat).
Proof. vm_compute. repeat split; reflexivity. Qed.

(** C6, witness: a batch that holds the same transfer twice, replayed on
    an empty table. *)
Lemma replay_idempotent_witness :
  let batch := [(usdtToken, transferAt 99); (usdtToken, transferAt 99)] in
  ∃ d1 d2,
    upsertLogs config2 100 batch (calm emptyWorker "2026-03-01T10:00:00.000Z" noUuid)
    = Returned tt (calm d1 "2026-03-01T10:00:00.000Z" noUuid)
    ∧ upsertLogs config2 100 batch (calm d1 "2026-03-01T10:00:15.000Z" noUuid)
      = Returned tt (calm d2 "2026-03-01T10:00:15.000Z" noUuid)
    ∧ map eraseUpdatedAt (deposits d2) = map eraseUpdatedAt (deposits d1)
    ∧ (countEvent (transactionHash (transferAt 99)) 3 (deposits d1) <= 1)%nat.
Proof.
  intros batch.
  destruct (replay_idempotent config2 100 batch emptyWorker
              "2026-03-01T10:00:00.000Z" "2026-03-01T10:00:15.000Z" noUuid)
    as (d1 & d2 & H1 & H2 & H3 & _ & _ & H6 & _).
  - constructor.
  - exists d1, d2. split; [exact H1|]. split; [exact H2|]. split; [exact H3|].
    apply H6. vm_compute. repeat constructor.
Defined.

End ChainWorkerTheorems.

(** ** Facts about the worker on the integer columns *)

Module IntegerColumnFacts.
Import Fx FxRules ChainWorker ChainWorkerFacts.
Import IntegerColumns.
Local Open Scope Z_scope.

Lemma DepositStatus_eqb_eq a b : DepositStatus_eqb a b = true ↔ a = b.
Proof. destruct a, b; simpl; split; congruence. Qed.

Lemma int4_bounds z : int4 z = true ↔ INT4_MIN <= z <= INT4_MAX.
Proof. unfold int4. rewrite andb_true_iff, !Z.leb_le. tauto. Qed.

Lemma int4_range z : int4 z = true → - 2 ^ 31 <= z <= 2 ^ 31 - 1.
Proof. intros H. apply int4_bounds in H. exact H. Qed.

Lemma MAX_SAFE_INTEGER_value : MAX_SAFE_INTEGER = 9007199254740991.
Proof. reflexivity. Qed.

Lemma pow31_value : 2 ^ 31 = 2147483648.
Proof. reflexivity. Qed.

(** Beyond the safe integers [Number] yields a double of magnitude at
    least [2^53]. *)
Lemma Number_of_BigInt_large z :
  MAX_SAFE_INTEGER < Z.abs z → 2 ^ 53 <= Z.abs (Number_of_BigInt z).
Proof.
  intros H. unfold Number_of_BigInt.
  destruct (Z.leb_spec (Z.abs z) MAX_SAFE_INTEGER) as [|_]; [lia|].
  set (a := Z.abs z) in *. cbv zeta.
  assert (2 ^ 53 <= a) as Ha by (unfold MAX_SAFE_INTEGER in H; lia).
  assert (53 <= Z.log2 a) as Hl.
  { change 53 with (Z.log2 (2 ^ 53)). by apply Z.log2_le_mono. }
  set (e := Z.log2 a - 52).
  assert (1 <= e) as He by (unfold e; lia).
  assert (0 < 2 ^ e) as Hpe by (apply Z.pow_pos_nonneg; lia).
  assert (2 <= 2 ^ e) as Hpe2.
  { change 2 with (2 ^ 1) at 1. apply Z.pow_le_mono_r; lia. }
  assert (2 ^ 52 <= a / 2 ^ e) as Hq.
  { apply Z.div_le_lower_bound; [lia|].
    replace (2 ^ e * 2 ^ 52) with (2 ^ Z.log2 a).
    - apply Z.log2_spec. lia.
    - rewrite <- Z.pow_add_r by lia. f_equal. unfold e. lia. }
  set (q := a / 2 ^ e) in *.
  set (q' := if 2 * (a mod 2 ^ e) <? 2 ^ e then q
             else if 2 ^ e <? 2 * (a mod 2 ^ e) then q + 1
                  else if Z.even q then q else q + 1).
  assert (q <= q') as Hq'.
  { unfold q'. repeat destruct (_ <? _); try destruct (Z.even q); lia. }
  assert (2 ^ 53 <= q' * 2 ^ e) as Hbig.
  { change (2 ^ 53) with (2 ^ 52 * 2). apply Z.mul_le_mono_nonneg; lia. }
  rewrite Z.abs_mul.
  assert (Z.abs (Z.sgn z) = 1) as -> by lia.
  lia.
Qed.

(** A bound the store accepts has been converted exactly. *)
Lemma Number_of_BigInt_int4 z :
  int4 (Number_of_BigInt z) = true → Number_of_BigInt z = z.
Proof.
  intros H. apply int4_range in H.
  destruct (Z.le_gt_cases (Z.abs z) MAX_SAFE_INTEGER) as [Hs|Hl].
  - by apply Number_of_BigInt_safe.
  - apply Number_of_BigInt_large in Hl.
    rewrite pow31_value in H. change (2 ^ 53) with 9007199254740992 in Hl. lia.
Qed.

Lemma int4_Number z : int4 z = true → Number_of_BigInt z = z.
Proof.
  intros H. apply int4_range in H. apply Number_of_BigInt_safe.
  rewrite pow31_value in H. rewrite MAX_SAFE_INTEGER_value. lia.
Qed.

(** The count of the sweep for a stored block and an accepted head is
    exact. *)
Lemma sweep_count_exact head block :
  int4 head = true → int4 block = true →
  Number_of_BigInt (head - BigInt_of_Number block + 1) = head - block + 1.
Proof.
  intros Hh Hb. apply int4_range in Hh, Hb. unfold BigInt_of_Number.
  apply Number_of_BigInt_safe.
  rewrite pow31_value in Hh, Hb. rewrite MAX_SAFE_INTEGER_value. lia.
Qed.

Lemma fitsColumns_parts v :
  fitsColumns v = true →
  int4 (row_blockNumber v) = true ∧ int4 (row_confirmations v) = true.
Proof.
  unfold fitsColumns. rewrite !andb_true_iff. tauto.
Qed.

Lemma fitsColumns_ceiling v :
  fitsColumns v = true → row_confirmations v <= MAX_SAFE_INTEGER.
Proof.
  intros H. apply fitsColumns_parts in H as [_ H]. apply int4_range in H.
  rewrite pow31_value in H. rewrite MAX_SAFE_INTEGER_value. lia.
Qed.

Lemma fitsColumns_setConfirmation c s now r :
  fitsColumns r = true → int4 c = true →
  fitsColumns (setConfirmation c s now r) = true.
Proof.
  unfold fitsColumns. simpl. rewrite !andb_true_iff. tauto.
Qed.

(** *** The two workers *)

Lemma upsertDeposit_submits config input w :
  upsertDeposit config input w
  = await (insertDepositOnConflictDoUpdate (depositValues config input (clock w))) w.
Proof. reflexivity. Qed.

Lemma await_ext {A} (op op' : WorkerState → Result WorkerState A) w :
  op (store w) = op' (store w) → await op w = await op' w.
Proof. intros H. unfold await. by rewrite H. Qed.

(** A row the table can hold is inserted as in [ChainWorker]. *)
Lemma upsertDeposit_fits config input w :
  fitsColumns (depositValues config input (clock w)) = true →
  upsertDeposit config input w = ChainWorker.upsertDeposit config input w.
Proof.
  intros H. rewrite upsertDeposit_submits, upsertDeposit_unfold.
  apply await_ext. unfold insertDepositOnConflictDoUpdate. by rewrite H.
Qed.

(** A row it cannot hold is refused, and nothing is stored. *)
Lemma upsertDeposit_refused config input w :
  fitsColumns (depositValues config input (clock w)) = false →
  returned (upsertDeposit config input w) = false
  ∧ store (stateOf (upsertDeposit config input w)) = store w.
Proof.
  intros H. rewrite upsertDeposit_submits. unfold await.
  unfold insertDepositOnConflictDoUpdate. rewrite H.
  by destruct (faultIn w) as [[|n]|].
Qed.

Lemma forM_ext_in {S A} (f g : A → M S unit) (l : list A) :
  (∀ x s, In x l → f x s = g x s) → ∀ s, forM_ l f s = forM_ l g s.
Proof.
  induction l as [|x l IH]; intros H s; [reflexivity|].
  simpl. unfold bind. rewrite (H x s) by (by left).
  destruct (g x s); [|reflexivity]. apply IH. intros y s' Hy. apply H. by right.
Qed.

Lemma await_select n w l w1 :
  await (ChainWorker.selectPendingUpTo n) w = Returned l w1 →
  l = List.filter
        (fun r => DepositStatus_eqb (row_status r) pending && (row_blockNumber r <=? n))
        (deposits (store w)).
Proof.
  unfold await, ChainWorker.selectPendingUpTo.
  destruct (faultIn w) as [[|k]|]; [discriminate| |]; by intros [= <- _].
Qed.

(** When the head and every count the sweep submits fit, the sweep runs
    as in [ChainWorker]. *)
Lemma refresh_fits config head w :
  int4 (Number_of_BigInt head) = true →
  (∀ r, In r (deposits (store w)) → row_status r = pending →
        row_blockNumber r <= Number_of_BigInt head →
        int4 (Number_of_BigInt (head - BigInt_of_Number (row_blockNumber r) + 1)) = true) →
  refreshPendingConfirmations config head w
  = ChainWorker.refreshPendingConfirmations config head w.
Proof.
  intros Hh Hrows.
  unfold refreshPendingConfirmations, ChainWorker.refreshPendingConfirmations.
  unfold bind at 1 3.
  rewrite (await_ext (selectPendingUpTo (Number_of_BigInt head))
                     (ChainWorker.selectPendingUpTo (Number_of_BigInt head)))
    by (unfold selectPendingUpTo; by rewrite Hh).
  destruct (await (ChainWorker.selectPendingUpTo _) w) as [l w1|] eqn:E; [|reflexivity].
  apply await_select in E as ->.
  unfold bind, getIsoTimestamp. apply forM_ext_in. intros p s Hp. cbv zeta.
  apply filter_In in Hp as [Hp Hsel].
  apply andb_true_iff in Hsel as [Hs Hb].
  apply DepositStatus_eqb_eq in Hs. apply Z.leb_le in Hb.
  destruct (_ && _); [reflexivity|].
  apply await_ext. unfold updateDepositById. by rewrite (Hrows p Hp Hs Hb).
Qed.

(** A run on the integer columns that returns is a run of [ChainWorker]. *)
Lemma forM_returns {S A} (f g : A → M S unit) (l : list A) :
  (∀ x s s', f x s = Returned tt s' → g x s = Returned tt s') →
  ∀ s s', forM_ l f s = Returned tt s' → forM_ l g s = Returned tt s'.
Proof.
  intros H. induction l as [|x l IH]; intros s s' Hrun; [exact Hrun|].
  simpl in *. unfold bind in *.
  destruct (f x s) as [[] s1|] eqn:E; [|discriminate].
  rewrite (H x s s1 E). by apply IH.
Qed.

Lemma await_returns {A} (op op' : WorkerState → Result WorkerState A) :
  (∀ st a st', op st = Returned a st' → op' st = Returned a st') →
  ∀ w a w', await op w = Returned a w' → await op' w = Returned a w'.
Proof.
  intros H w a w'. unfold await.
  destruct (faultIn w) as [[|n]|]; [discriminate| |].
  all: destruct (op (store w)) as [b d|] eqn:E; [|discriminate].
  all: by rewrite (H _ _ _ E).
Qed.

Lemma upsertDeposit_returns config input w w' :
  upsertDeposit config input w = Returned tt w' →
  ChainWorker.upsertDeposit config input w = Returned tt w'.
Proof.
  rewrite upsertDeposit_submits, upsertDeposit_unfold. apply await_returns.
  intros st a st'. unfold insertDepositOnConflictDoUpdate.
  by destruct (fitsColumns _).
Qed.

Lemma refresh_returns config head w w' :
  refreshPendingConfirmations config head w = Returned tt w' →
  ChainWorker.refreshPendingConfirmations config head w = Returned tt w'.
Proof.
  unfold refreshPendingConfirmations, ChainWorker.refreshPendingConfirmations.
  unfold bind at 1 3.
  destruct (await (selectPendingUpTo _) w) as [l w1|] eqn:E; [|discriminate].
  assert (await (ChainWorker.selectPendingUpTo (Number_of_BigInt head)) w = Returned l w1)
    as ->.
  { revert E. apply await_returns. intros st a st'. unfold selectPendingUpTo.
    by destruct (int4 _). }
  unfold bind, getIsoTimestamp. apply forM_returns.
  intros p s s'. cbv zeta. destruct (_ && _); [done|].
  apply await_returns. intros st a st'. unfold updateDepositById.
  by destruct (int4 _).
Qed.

(** *** What the columns keep *)

Lemma triple_forM_in {S A} (f : A → M S unit) (I : S → Prop) (l : list A) :
  (∀ x, In x l → triple I (f x) (fun _ => I) I) →
  triple I (forM_ l f) (fun _ => I) I.
Proof.
  induction l as [|x l IH]; intros H.
  - by apply triple_ret.
  - simpl. eapply triple_bind; [apply H; by left|].
    intros []. apply IH. intros y Hy. apply H. by right.
Qed.

Lemma insert_allFit v st :
  allFit (deposits st) →
  match insertDepositOnConflictDoUpdate v st with
  | Returned _ st' => allFit (deposits st')
  | Threw _ st' => st' = st
  end.
Proof.
  intros H. unfold insertDepositOnConflictDoUpdate.
  destruct (fitsColumns v) eqn:Hv; [|reflexivity].
  unfold ChainWorker.insertDepositOnConflictDoUpdate.
  destruct (existsb (sameEvent _ _) _).
  - simpl. apply List.Forall_forall. intros r' Hr'.
    apply in_map_iff in Hr' as (r & <- & Hr).
    pose proof (proj1 (List.Forall_forall _ _) H r Hr) as Hfit.
    destruct (sameEvent _ _ r); [|exact Hfit].
    apply fitsColumns_setConfirmation; [exact Hfit|].
    by apply fitsColumns_parts in Hv as [_ Hv].
  - destruct (existsb _ _); [reflexivity|].
    simpl. apply Forall_app. split; [exact H | by repeat constructor].
Qed.

Lemma upsertDeposit_allFit config input :
  triple (onStore (fun st => allFit (deposits st)))
         (upsertDeposit config input)
         (fun _ => onStore (fun st => allFit (deposits st)))
         (onStore (fun st => allFit (deposits st))).
Proof.
  unfold upsertDeposit.
  eapply triple_bind; [apply triple_getIsoTimestamp|]. intros now. cbv zeta.
  apply triple_await; [done|]. intros st Hst.
  match goal with |- context [insertDepositOnConflictDoUpdate ?v st] =>
    pose proof (insert_allFit v st Hst) as H;
    destruct (insertDepositOnConflictDoUpdate v st) as [[] st'|e st']
  end; [exact H | by subst].
Qed.

Lemma reevaluated_refl head r : reevaluated head r r.
Proof. split; [done|]. split; [done | by left]. Qed.

Lemma midSweep_start head st :
  allFit (deposits st) → midSweep head (deposits st) st.
Proof.
  intros H. split; [|exact H]. clear H.
  induction (deposits st); constructor; [apply reevaluated_refl | assumption].
Qed.

Lemma update_reevaluated head rows p c s now :
  List.NoDup (map row_id rows) → In p rows →
  row_status p = pending → row_blockNumber p <= head →
  c = head - row_blockNumber p + 1 →
  ∀ l0 l, Forall2 (reevaluated head) l0 l → (∀ r, In r l0 → In r rows) →
          Forall2 (reevaluated head) l0
            (map (fun r => if sameId (row_id p) r then setConfirmation c s now r else r) l).
Proof.
  intros Hnd Hp Hs Hb Hc l0 l H. induction H as [|x y l0 l Hxy _ IH]; intros Hin.
  - constructor.
  - simpl. constructor; [|apply IH; intros r Hr; apply Hin; by right].
    destruct Hxy as (Hid & Hblock & Hxy).
    destruct (sameId (row_id p) y) eqn:E.
    + apply sameId_true in E.
      assert (x = p) as ->.
      { apply (NoDup_map_inj row_id rows); [done | apply Hin; by left | done | congruence]. }
      split; [exact Hid|]. split; [exact Hblock|]. right. by rewrite <- Hc.
    + done.
Qed.

Lemma update_midSweep head rows p c s now st :
  List.NoDup (map row_id rows) → In p rows →
  row_status p = pending → row_blockNumber p <= head →
  c = head - row_blockNumber p + 1 →
  midSweep head rows st →
  match updateDepositById (row_id p) c s now st with
  | Returned _ st' => midSweep head rows st'
  | Threw _ st' => st' = st
  end.
Proof.
  intros Hnd Hp Hs Hb Hc [H2 Hfit]. unfold updateDepositById.
  destruct (int4 c) eqn:Hint; [|reflexivity].
  simpl. split.
  - by apply (update_reevaluated head rows p c s now).
  - apply List.Forall_forall. intros r' Hr'.
    apply in_map_iff in Hr' as (r & <- & Hr).
    pose proof (proj1 (List.Forall_forall _ _) Hfit r Hr) as Hr'.
    destruct (sameId _ r); [|exact Hr'].
    by apply fitsColumns_setConfirmation.
Qed.

(** The sweep, whether it returns or throws and wherever it throws,
    leaves every row as it was or re-evaluated, and every row within the
    columns. *)
Lemma sweep_midSweep config head rows :
  List.NoDup (map row_id rows) → allFit rows →
  triple (onStore (fun st => deposits st = rows))
         (refreshPendingConfirmations config head)
         (fun _ => onStore (midSweep head rows))
         (onStore (midSweep head rows)).
Proof.
  intros Hnd Hfit. unfold refreshPendingConfirmations.
  eapply triple_bind.
  { apply (triple_await _ (fun st => deposits st = rows)
             (fun l st => midSweep head rows st
                          ∧ (int4 head = true
                             ∧ ∀ p, In p l →
                                 In p rows ∧ row_status p = pending
                                 ∧ row_blockNumber p <= head))
             (midSweep head rows)).
    - intros st <-. by apply midSweep_start.
    - intros st <-. unfold selectPendingUpTo.
      destruct (int4 _) eqn:Hh; [|by apply midSweep_start].
      apply Number_of_BigInt_int4 in Hh as Hn. rewrite Hn in Hh |- *. simpl.
      split; [by apply midSweep_start|]. split; [done|].
      intros p Hp. apply filter_In in Hp as [Hp Hsel].
      apply andb_true_iff in Hsel as [Hs Hb].
      apply DepositStatus_eqb_eq in Hs. apply Z.leb_le in Hb. done. }
  intros l.
  apply (triple_assume _ _ (onStore (midSweep head rows))).
  intros [Hh Hl].
  eapply triple_bind; [apply triple_getIsoTimestamp|]. intros now.
  apply triple_forM_in. intros p Hp. cbv zeta.
  destruct (Hl p Hp) as (Hin & Hs & Hb).
  destruct (_ && _); [by apply triple_ret|].
  apply triple_await; [done|]. intros st Hst.
  assert (int4 (row_blockNumber p) = true) as Hblock.
  { by apply fitsColumns_parts, (proj1 (List.Forall_forall _ _) Hfit). }
  rewrite (sweep_count_exact head (row_blockNumber p) Hh Hblock).
  match goal with |- context [updateDepositById ?i ?c ?s ?n st] =>
    pose proof (update_midSweep head rows p c s n st Hnd Hin Hs Hb eq_refl Hst) as H;
    destruct (updateDepositById i c s n st) as [[] st'|e st']
  end; [exact H | by subst].
Qed.

(** A head the select does not accept stops the sweep before any count
    is computed. *)
Lemma refresh_refused config head w :
  int4 (Number_of_BigInt head) = false →
  returned (refreshPendingConfirmations config head w) = false
  ∧ store (stateOf (refreshPendingConfirmations config head w)) = store w.
Proof.
  intros H. unfold refreshPendingConfirmations, bind, await, selectPendingUpTo.
  rewrite H. by destruct (faultIn w) as [[|n]|].
Qed.

(** *** The sweep on one row *)

Lemma sweptRow_selected config head now r :
  int4 head = true → int4 (row_blockNumber r) = true →
  row_status r = pending → row_blockNumber r <= head →
  row_confirmations (sweptRow config head now r) = specConfirmations (row_blockNumber r) head
  ∧ row_status (sweptRow config head now r)
    = specStatus (minConfirmations config) (row_confirmations (sweptRow config head now r)).
Proof.
  intros Hh Hblock Hs Hb. unfold sweptRow, specConfirmations, specStatus.
  rewrite (int4_Number head Hh), (sweep_count_exact head _ Hh Hblock).
  rewrite Hs. simpl.
  destruct (Z.leb_spec (row_blockNumber r) head); [|lia].
  destruct (Z.geb_spec head (row_blockNumber r)); [|lia].
  destruct ((_ =? _) && _) eqn:E; simpl; [|done].
  apply andb_true_iff in E as [E1 E2].
  apply Z.eqb_eq in E1. apply DepositStatus_eqb_eq in E2.
  split; [done|]. by rewrite <- E1, Hs, E2.
Qed.

Lemma sweptRow_skipped config head now r :
  int4 head = true →
  row_status r = confirmed ∨ head < row_blockNumber r →
  sweptRow config head now r = r.
Proof.
  intros Hh H. unfold sweptRow. rewrite (int4_Number head Hh).
  destruct H as [->|H]; [done|].
  destruct (Z.leb_spec (row_blockNumber r) head); [lia|].
  by rewrite andb_false_r.
Qed.

Lemma int4_from_range z : 0 <= z <= INT4_MAX → int4 z = true.
Proof.
  intros H. apply int4_bounds. unfold INT4_MIN, INT4_MAX in *.
  rewrite pow31_value in *. lia.
Qed.

End IntegerColumnFacts.

(** ** The confirmation count, computed and stored *)

Module IntegerColumnTheorems.
Import Fx FxRules ChainWorker ChainWorkerFacts WorkerFixtures.
Import IntegerColumns IntegerColumnFacts.
Local Open Scope Z_scope.

(** C3 (as amended).  On first observation [upsertDeposit] computes, for
    every pair of observed block and head, the count of the confirmation
    policy ([head - observed + 1] when the head is at or past the
    observed block, [0] otherwise) cut off at [Number.MAX_SAFE_INTEGER],
    and the status that count gives.  The row is stored when the
    [integer] columns can hold it, and then the stored count is the
    policy's; otherwise the insert is refused and nothing is stored.  The
    sweep, for a head in [0 .. 2^31 - 2] over rows of non-negative block,
    returns, gives exactly the pending rows whose block is at or below
    the head the count [head - observed + 1] and the status it gives, and
    leaves every other row as it is.  In both cases the run on the
    integer columns is a run of the worker of [ChainWorker]. *)
Theorem confirmation_policy (config : Config) (input : UpsertInput)
        (w1 : World WorkerState) (head : Z) (w2 : World WorkerState) :
  faultIn w1 = None → wellKeyed (deposits (store w1)) →
  faultIn w2 = None → List.NoDup (map row_id (deposits (store w2))) →
  0 <= head < INT4_MAX →
  Forall (fun r => 0 <= row_blockNumber r) (deposits (store w2)) →
  let v := depositValues config input (clock w1) in
  (upsertDeposit config input w1 = await (insertDepositOnConflictDoUpdate v) w1
   ∧ ChainWorker.upsertDeposit config input w1
     = await (ChainWorker.insertDepositOnConflictDoUpdate v) w1
   ∧ row_confirmations v
     = Z.min (specConfirmations (blockNumber input) (latestBlock input))
             MAX_SAFE_INTEGER
   ∧ row_status v = specStatus (minConfirmations config) (row_confirmations v))
  ∧ (fitsColumns v = true →
     ∃ w' r,
       upsertDeposit config input w1 = Returned tt w'
       ∧ ChainWorker.upsertDeposit config input w1 = Returned tt w'
       ∧ findEvent (txHash input) (logIndex input) (store w') = Some r
       ∧ row_confirmations r
         = specConfirmations (blockNumber input) (latestBlock input)
       ∧ row_status r = specStatus (minConfirmations config) (row_confirmations r))
  ∧ (fitsColumns v = false →
     returned (upsertDeposit config input w1) = false
     ∧ store (stateOf (upsertDeposit config input w1)) = store w1)
  ∧ (∃ w',
        refreshPendingConfirmations config head w2 = Returned tt w'
        ∧ ChainWorker.refreshPendingConfirmations config head w2 = Returned tt w'
        ∧ ∀ i r, nth_error (deposits (store w2)) i = Some r →
            ∃ r', nth_error (deposits (store w')) i = Some r'
              ∧ (row_status r = pending → row_blockNumber r <= head →
                 row_confirmations r' = specConfirmations (row_blockNumber r) head
                 ∧ row_status r'
                   = specStatus (minConfirmations config) (row_confirmations r'))
              ∧ (row_status r = confirmed ∨ head < row_blockNumber r → r' = r)).
Proof.
  intros Hf1 Hk Hf2 Hnd Hh Hblocks v.
  assert (int4 head = true) as Hhead by (apply int4_from_range; lia).
  split; [|split; [|split]].
  - split; [apply upsertDeposit_submits|]. split; [apply upsertDeposit_unfold|].
    split; [apply depositValues_confirmations | apply depositValues_status].
  - intros Hfit. rewrite (upsertDeposit_fits config input w1 Hfit).
    rewrite upsertDeposit_unfold, await_calm by done.
    rewrite insert_wellKeyed by done. fold v.
    destruct (find_upserted v (deposits (store w1))) as (r & Hfind & Hc & Hs).
    eexists _, r. split; [reflexivity|]. split; [reflexivity|].
    split; [exact Hfind|].
    assert (row_confirmations v
            = specConfirmations (blockNumber input) (latestBlock input)) as Hexact.
    { pose proof (fitsColumns_parts v Hfit) as [_ Hint]. apply int4_range in Hint.
      pose proof (depositValues_confirmations config input (clock w1)) as Hmin.
      fold v in Hmin. rewrite pow31_value in Hint.
      rewrite MAX_SAFE_INTEGER_value in Hmin. lia. }
    rewrite Hs, Hc. split; [exact Hexact | apply depositValues_status].
  - intros Hfit. by apply upsertDeposit_refused.
  - assert (refreshPendingConfirmations config head w2
            = ChainWorker.refreshPendingConfirmations config head w2) as Hsame.
    { apply refresh_fits; rewrite (int4_Number head Hhead); [exact Hhead|].
      intros r Hr Hs Hb.
      pose proof (proj1 (List.Forall_forall _ _) Hblocks r Hr) as H0.
      simpl in H0.
      assert (int4 (row_blockNumber r) = true) as Hblock
        by (apply int4_from_range; lia).
      rewrite (sweep_count_exact head _ Hhead Hblock).
      apply int4_from_range. lia. }
    rewrite Hsame, refresh_swept by done.
    eexists. split; [reflexivity|]. split; [reflexivity|].
    intros i r Hi. simpl.
    exists (sweptRow config head (clock w2) r). split.
    + by rewrite nth_error_map, Hi.
    + split; [|by apply sweptRow_skipped].
      intros Hs Hb. apply sweptRow_selected; try done.
      apply nth_error_In in Hi.
      pose proof (proj1 (List.Forall_forall _ _) Hblocks r Hi) as H0.
      simpl in H0. apply int4_from_range. lia.
Qed.

(** C9.  Every confirmation count the worker computes and stores is at
    most [Number.MAX_SAFE_INTEGER] and exact, for every observed block
    and every head.  On first observation the count submitted is
    [min (N, Number.MAX_SAFE_INTEGER)] for [N] the count of the policy,
    the conversion to a number changing nothing.  In every world, from a
    table within its columns: after [upsertDeposit] every stored count is
    within the column and at most the ceiling; after the sweep at any
    head, whether it returns or throws, the same holds, and every row is
    as it was or holds [head - blockNumber + 1], the count of a pending
    row at or below the head.  A head the select refuses stops the sweep
    with the table as it was; for a head it accepts the two conversions
    of the sweep are exact on every stored row. *)
Theorem counts_within_ceiling (config : Config) (input : UpsertInput) (head : Z)
        (w : World WorkerState) :
  allFit (deposits (store w)) →
  List.NoDup (map row_id (deposits (store w))) →
  let v := depositValues config input (clock w) in
  let afterUpsert := deposits (store (stateOf (upsertDeposit config input w))) in
  let afterSweep :=
    deposits (store (stateOf (refreshPendingConfirmations config head w))) in
  (upsertDeposit config input w = await (insertDepositOnConflictDoUpdate v) w
   ∧ row_confirmations v
     = Z.min (specConfirmations (blockNumber input) (latestBlock input))
             MAX_SAFE_INTEGER
   ∧ 0 <= row_confirmations v <= MAX_SAFE_INTEGER)
  ∧ Forall (fun r => fitsColumns r = true ∧ row_confirmations r <= MAX_SAFE_INTEGER)
           afterUpsert
  ∧ Forall (fun r => fitsColumns r = true ∧ row_confirmations r <= MAX_SAFE_INTEGER)
           afterSweep
  ∧ Forall2 (reevaluated head) (deposits (store w)) afterSweep
  ∧ (int4 (Number_of_BigInt head) = false →
     returned (refreshPendingConfirmations config head w) = false
     ∧ afterSweep = deposits (store w))
  ∧ (int4 (Number_of_BigInt head) = true →
     Number_of_BigInt head = head
     ∧ Forall (fun r =>
                 Number_of_BigInt (head - BigInt_of_Number (row_blockNumber r) + 1)
                 = head - row_blockNumber r + 1
                 ∧ head - row_blockNumber r + 1 <= MAX_SAFE_INTEGER)
              (deposits (store w))).
Proof.
  intros Hfit Hnd v afterUpsert afterSweep.
  assert (∀ rows, allFit rows →
            Forall (fun r => fitsColumns r = true
                             ∧ row_confirmations r <= MAX_SAFE_INTEGER) rows) as Hceil.
  { intros rows H. eapply Forall_impl; [exact H|].
    intros r Hr. split; [exact Hr | by apply fitsColumns_ceiling]. }
  split; [|split; [|split; [|split; [|split]]]].
  - split; [apply upsertDeposit_submits|].
    pose proof (depositValues_confirmations config input (clock w)) as Hmin.
    fold v in Hmin. split; [exact Hmin|].
    assert (0 <= specConfirmations (blockNumber input) (latestBlock input)).
    { unfold specConfirmations. destruct (Z.geb_spec (latestBlock input) (blockNumber input)); lia. }
    rewrite MAX_SAFE_INTEGER_value in *. lia.
  - apply Hceil. subst afterUpsert.
    pose proof (upsertDeposit_allFit config input w Hfit) as H.
    by destruct (upsertDeposit config input w).
  - apply Hceil. subst afterSweep.
    pose proof (sweep_midSweep config head _ Hnd Hfit w eq_refl) as H.
    destruct (refreshPendingConfirmations config head w); apply H.
  - subst afterSweep.
    pose proof (sweep_midSweep config head _ Hnd Hfit w eq_refl) as H.
    destruct (refreshPendingConfirmations config head w); apply H.
  - intros Hh. subst afterSweep.
    destruct (refresh_refused config head w Hh) as [H1 H2]. by rewrite H2.
  - intros Hh. pose proof (Number_of_BigInt_int4 head Hh) as Hn.
    split; [exact Hn|]. rewrite Hn in Hh.
    eapply Forall_impl; [exact Hfit|]. intros r Hr. simpl.
    apply fitsColumns_parts in Hr as [Hb _].
    split; [by apply sweep_count_exact|].
    apply int4_range in Hh, Hb. rewrite pow31_value in Hh, Hb.
    rewrite MAX_SAFE_INTEGER_value. lia.
Qed.

(** C3, witness: the two scenarios of the design document, with
    [minConfirmations = 2].  A transfer at block 99 seen at head 100 is
    stored confirmed with 2 confirmations; one at block 100, stored
    pending with 1, is made confirmed with 2 by the sweep at head 101. *)
Lemma confirmation_policy_witness :
  (∃ r, findEvent (transactionHash (transferAt 99)) 3 (observed config2 (transferAt 99) 100) = Some r
        ∧ row_confirmations r = 2 ∧ row_status r = confirmed)
  ∧ (∃ r, nth_error (deposits (observed config2 (transferAt 100) 100)) 0 = Some r
          ∧ row_confirmations r = 1 ∧ row_status r = pending)
  ∧ (∃ r', nth_error
             (deposits (store (stateOf (refreshPendingConfirmations config2 101
                (calm (observed config2 (transferAt 100) 100) "2026-03-01T10:00:15.000Z" noUuid)))))
             0 = Some r'
           ∧ row_confirmations r' = 2 ∧ row_status r' = confirmed).
Proof.
  pose proof (confirmation_policy config2 (inputOf usdtToken (transferAt 99) 100)
                (calm emptyWorker "2026-03-01T10:00:00.000Z" noUuid) 101
                (calm (observed config2 (transferAt 100) 100) "2026-03-01T10:00:15.000Z" noUuid))
    as H.
  cbv zeta in H.
  destruct H as (_ & Hstored & _ & (w'' & Hrun' & _ & Hrows)).
  - reflexivity.
  - constructor.
  - reflexivity.
  - vm_compute. constructor; [intros [] | constructor].
  - split; [lia | reflexivity].
  - apply List.Forall_forall. intros r [<-|[]]. vm_compute. discriminate.
  - destruct Hstored as (w' & r & _ & Hrun & Hfind & Hc & Hs); [reflexivity|].
    split; [|split].
    + exists r. unfold observed. rewrite Hrun. split; [exact Hfind|].
      rewrite Hs, Hc. split; reflexivity.
    + eexists. split; [reflexivity|]. split; reflexivity.
    + rewrite Hrun'. simpl.
      destruct (Hrows 0%nat _ eq_refl) as (r' & Hr' & Hsel & _).
      exists r'. split; [exact Hr'|].
      destruct Hsel as [H1 H2]; [reflexivity | vm_compute; discriminate |].
      rewrite H2, H1. split; reflexivity.
Defined.

(** C3, counterexample to the claim as stated: for a transfer at block 0
    first seen at head [2^53], [upsertDeposit] computes the count
    [Number.MAX_SAFE_INTEGER], not [head - observed + 1]; the row it
    submits is beyond the [integer] columns, the insert is refused and
    nothing is stored. *)
Lemma confirmation_count_cut_off :
  let input := inputOf usdtToken (transferAt 0) (2 ^ 53) in
  let w := calm emptyWorker "2026-03-01T10:00:00.000Z" noUuid in
  let v := depositValues config2 input (clock w) in
  ChainWorker.upsertDeposit config2 input w
  = await (ChainWorker.insertDepositOnConflictDoUpdate v) w
  ∧ upsertDeposit config2 input w = await (insertDepositOnConflictDoUpdate v) w
  ∧ latestBlock input >= blockNumber input
  ∧ row_confirmations v = MAX_SAFE_INTEGER
  ∧ row_confirmations v ≠ latestBlock input - blockNumber input + 1
  ∧ fitsColumns v = false
  ∧ returned (upsertDeposit config2 input w) = false
  ∧ store (stateOf (upsertDeposit config2 input w)) = store w.
Proof.
  vm_compute. repeat split; (reflexivity || discriminate).
Qed.

(** C9, witness: a pending deposit at block 0.  The sweep at head
    [2^53] is refused at its select and leaves the stored count; the
    sweep at head 60000000 stores 60000001. *)
Lemma counts_within_ceiling_witness :
  let first := observed config50 (transferAt 0) 0 in
  let w := calm first "2026-03-01T10:00:15.000Z" noUuid in
  let sweptAt head :=
    deposits (store (stateOf (refreshPendingConfirmations config50 head w))) in
  Forall (fun r => fitsColumns r = true ∧ row_confirmations r <= MAX_SAFE_INTEGER)
         (sweptAt (2 ^ 53))
  ∧ Forall2 (reevaluated 60000000) (deposits first) (sweptAt 60000000)
  ∧ row_confirmations <$> sweptAt (2 ^ 53) = [1]
  ∧ row_confirmations <$> sweptAt 60000000 = [60000001].
Proof.
  intros first w sweptAt.
  assert (allFit (deposits (store w))) as Hfit.
  { constructor; [reflexivity | constructor]. }
  assert (List.NoDup (map row_id (deposits (store w)))) as Hnd.
  { vm_compute. constructor; [intros [] | constructor]. }
  pose proof (counts_within_ceiling config50 (inputOf usdtToken (transferAt 0) 0)
                (2 ^ 53) w Hfit Hnd) as H1.
  pose proof (counts_within_ceiling config50 (inputOf usdtToken (transferAt 0) 0)
                60000000 w Hfit Hnd) as H2.
  cbv zeta in H1, H2.
  destruct H1 as (_ & _ & H1 & _). destruct H2 as (_ & _ & _ & H2 & _).
  split; [exact H1|]. split; [exact H2|]. split; reflexivity.
Defined.

End IntegerColumnTheorems.

(** ** Facts about payment settlement *)

Module PaymentStoreFacts.
Import Fx FxRules PaymentStore.
Local Open Scope Z_scope.

Lemma hasPayment_find pid ps :
  hasPayment pid ps = false
  ↔ List.find (fun p => String.eqb (pay_providerPaymentId p) pid) ps = None.
Proof.
  unfold hasPayment. induction ps as [|p ps IH]; [done|].
  simpl. destruct (String.eqb _ _); simpl; [split; discriminate | exact IH].
Qed.

Lemma countReference_app r l1 l2 :
  countReference r (l1 ++ l2) = (countReference r l1 + countReference r l2)%nat.
Proof. unfold countReference. by rewrite List.filter_app, length_app. Qed.

Lemma hasPayment_app r l1 l2 :
  hasPayment r (l1 ++ l2) = hasPayment r l1 || hasPayment r l2.
Proof. unfold hasPayment. apply existsb_app. Qed.

Lemma hasPayment_update r f ps :
  (∀ p, pay_providerPaymentId (f p) = pay_providerPaymentId p) →
  hasPayment r (map f ps) = hasPayment r ps.
Proof.
  intros Hf. unfold hasPayment. induction ps as [|p ps IH]; [done|].
  simpl. by rewrite Hf, IH.
Qed.

Lemma bounded_more_payments r db ps :
  (hasPayment r (payments db) = true → hasPayment r ps = true) →
  bounded r db → bounded r (withPayments ps db).
Proof.
  unfold bounded. simpl. intros H Hb.
  destruct (hasPayment r (payments db)); [rewrite H by done; exact Hb|].
  destruct (hasPayment r ps); lia.
Qed.

(** *** The statements *)

Lemma insertPayment_outcome row db :
  match insertPayment row db with
  | Returned _ db' => db' = withPayments (payments db ++ [row]) db
  | Threw _ db' => db' = db
  end.
Proof. unfold insertPayment. by destruct (existsb _ _). Qed.

Lemma insertLedger_outcome row db :
  match insertLedger row db with
  | Returned _ db' => db' = withLedger (creditLedger db ++ [row]) db
  | Threw _ db' => db' = db
  end.
Proof. unfold insertLedger. by destruct (existsb _ _). Qed.

Lemma updateUserCredits_outcome u delta now db :
  match updateUserCredits u delta now db with
  | Returned _ db' => payments db' = payments db ∧ creditLedger db' = creditLedger db
  | Threw _ db' => db' = db
  end.
Proof. unfold updateUserCredits. by destruct (users db !! u). Qed.

(** *** [grantCredits] appends at most one entry, tagged with the
    reference it is given *)

Lemma grantCredits_once pid r u delta reason meta :
  triple (onStore (granting pid r))
         (grantCredits u delta reason (Some pid) meta)
         (fun _ => onStore (bounded r))
         (onStore (bounded r)).
Proof.
  unfold grantCredits.
  eapply triple_bind; [apply triple_getIsoTimestamp|]. intros now.
  eapply triple_bind.
  { apply (triple_await _ (granting pid r) (fun _ => granting pid r) (bounded r)).
    - by intros db [H _].
    - intros db Hdb. pose proof (updateUserCredits_outcome u delta now db) as H.
      destruct (updateUserCredits u delta now db) as [o db'|e db'].
      + destruct H as [Hp Hl]. unfold granting, bounded in *. by rewrite Hp, Hl.
      + subst. by destruct Hdb. }
  intros [updatedUser|].
  2: { apply triple_throw. by intros w [H _]. }
  eapply triple_bind; [apply triple_randomUUID|]. intros uuid.
  eapply triple_bind.
  { apply (triple_await _ (granting pid r) (fun _ => bounded r) (bounded r)).
    - by intros db [H _].
    - intros db (Hb & Hpid).
      match goal with |- context [insertLedger ?row db] =>
        pose proof (insertLedger_outcome row db) as H;
        destruct (insertLedger row db) as [[] db'|e db']
      end; subst; [|done].
      unfold bounded in *. simpl. rewrite countReference_app.
      unfold countReference at 2. simpl.
      destruct (String.eqb pid r) eqn:E; simpl.
      + apply String.eqb_eq in E as <-.
        destruct Hpid as [Hp Hc]; [done|]. rewrite Hc, Hp. lia.
      + lia. }
  intros []. by apply triple_ret.
Qed.

Lemma selectPayment_reads pid (P : Database → Prop) :
  triple (onStore P) (await (selectPayment pid))
         (fun existing => onStore (fun db =>
            P db ∧ (existing = None → hasPayment pid (payments db) = false)))
         (onStore P).
Proof.
  apply triple_await; [done|]. intros db Hdb. simpl. split; [done|].
  apply hasPayment_find.
Qed.

(** Recording a new payment under [pid] and then granting at most once
    keeps the bound of every reference. *)
Lemma record_then_grant pid r row (grant : M (World Database) unit) :
  pay_providerPaymentId row = pid →
  triple (onStore (granting pid r)) grant (fun _ => onStore (bounded r)) (onStore (bounded r)) →
  triple (onStore (fun db => bounded r db ∧ hasPayment pid (payments db) = false))
         (bind (await (insertPayment row)) (fun _ => grant))
         (fun _ => onStore (bounded r))
         (onStore (bounded r)).
Proof.
  intros Hrow Hgrant.
  apply (triple_bind _ _ _ (fun _ => onStore (granting pid r))); [|intros []; exact Hgrant].
  apply triple_await; [by intros db [H _]|].
  intros db [Hb Hnone].
  pose proof (insertPayment_outcome row db) as H.
  destruct (insertPayment row db) as [[] db'|e db']; subst; [|done].
  split.
  - apply bounded_more_payments; [|done]. intros Hr. rewrite hasPayment_app, Hr. done.
  - intros ->. simpl. split.
    + rewrite hasPayment_app. unfold hasPayment at 2. simpl.
      rewrite String.eqb_refl. apply orb_true_iff. by right.
    + unfold bounded in Hb. rewrite Hnone in Hb. lia.
Qed.


Lemma grant_then_return pid r u delta reason meta :
  triple (onStore (granting pid r))
         (bind (grantCredits u delta reason (Some pid) meta) (fun _ => ret tt))
         (fun _ => onStore (bounded r))
         (onStore (bounded r)).
Proof.
  eapply triple_bind; [apply grantCredits_once|]. intros ?. by apply triple_ret.
Qed.

Lemma settle_once pid r (settle : string → M (World Database) unit) :
  (∀ uuid, ∃ row grant,
      settle uuid = bind (await (insertPayment row)) (fun _ => grant)
      ∧ pay_providerPaymentId row = pid
      ∧ triple (onStore (granting pid r)) grant
               (fun _ => onStore (bounded r)) (onStore (bounded r))) →
  triple (onStore (bounded r))
         (bind (await (selectPayment pid)) (fun existingPayment =>
            match existingPayment with
            | Some _ => ret tt
            | None => bind randomUUID settle
            end))
         (fun _ => onStore (bounded r))
         (onStore (bounded r)).
Proof.
  intros Hsettle.
  eapply triple_bind; [apply selectPayment_reads|].
  intros [existing|].
  - apply triple_ret. by intros w [H _].
  - eapply triple_bind.
    { apply (triple_randomUUID
               (fun db => bounded r db ∧ (None = None → hasPayment pid (payments db) = false))). }
    intros uuid. destruct (Hsettle uuid) as (row & grant & -> & Hrow & Hgrant).
    eapply triple_pre; [by apply (record_then_grant pid r row grant)|].
    intros w [Hb Hnone]. split; [done | by apply Hnone].
Qed.

Lemma handleStripeEvent_bounded r event :
  triple (onStore (bounded r)) (handleStripeEvent event)
         (fun _ => onStore (bounded r)) (onStore (bounded r)).
Proof.
  destruct event as [session|paymentIntent|type]; simpl.
  - destruct (purchase _ _) as [[userId creditsToBuy]|]; [|by apply triple_ret].
    eapply triple_bind; [apply triple_getIsoTimestamp|]. intros now.
    apply (settle_once _ r). intros uuid.
    eexists _, _. split; [reflexivity|]. split; [reflexivity|].
    apply grant_then_return.
  - destruct (purchase _ _) as [[userId creditsToBuy]|]; [|by apply triple_ret].
    eapply triple_bind; [apply triple_getIsoTimestamp|]. intros now.
    apply (settle_once _ r). intros uuid.
    eexists _, _. split; [reflexivity|]. split; [reflexivity|].
    apply grant_then_return.
  - by apply triple_ret.
Qed.

Lemma updatePaymentById_bounded r i st raw now db :
  bounded r db →
  match updatePaymentById i st raw now db with
  | Returned _ db' => bounded r db'
  | Threw _ db' => bounded r db'
  end.
Proof.
  intros Hb. simpl. apply bounded_more_payments; [|done].
  intros H. rewrite hasPayment_update; [done|].
  intros p. by destruct (String.eqb _ _).
Qed.

Lemma handleUsdtPayment_bounded r env payload :
  triple (onStore (bounded r)) (handleUsdtPayment env payload)
         (fun _ => onStore (bounded r)) (onStore (bounded r)).
Proof.
  unfold handleUsdtPayment. cbv zeta.
  eapply triple_bind; [apply triple_getIsoTimestamp|]. intros now.
  eapply triple_bind; [apply selectPayment_reads|].
  intros [existing|].
  - apply triple_await; [by intros db [H _]|].
    intros db [Hb _]. by apply updatePaymentById_bounded.
  - eapply triple_bind.
    { apply (triple_randomUUID
               (fun db => bounded r db
                          ∧ (None = None
                             → hasPayment ("usdt_" +:+ transactionId payload) (payments db)
                               = false))). }
    intros uuid.
    eapply triple_pre.
    + apply (record_then_grant ("usdt_" +:+ transactionId payload) r); [reflexivity|].
      destruct (_ && _).
      * apply grant_then_return.
      * apply triple_ret. by intros w [H _].
    + intros w [Hb Hnone]. split; [done | by apply Hnone].
Qed.

Lemma deliver_bounded env r db d : bounded r db → bounded r (deliver env db d).
Proof.
  intros Hb. unfold deliver.
  set (w := mkWorld db (failsAfter d) (receivedAt d) (uuids d) 0).
  assert (triple (onStore (bounded r)) (handle env (delivered d))
                 (fun _ => onStore (bounded r)) (onStore (bounded r))) as H.
  { destruct (delivered d); [apply handleStripeEvent_bounded | apply handleUsdtPayment_bounded]. }
  specialize (H w Hb). by destruct (handle env (delivered d) w).
Qed.

Lemma deliverAll_bounded env r ds : ∀ db, bounded r db → bounded r (deliverAll env ds db).
Proof.
  unfold deliverAll. induction ds as [|d ds IH]; intros db Hb; [done|].
  simpl. by apply IH, deliver_bounded.
Qed.

(** *** What a grant writes *)

(** Whatever fails, [grantCredits] leaves payments alone and appends
    nothing or the one entry; it appends only for a user that exists. *)
Lemma grantCredits_frame (db0 : Database) userId delta reason referenceId metadataJson :
  triple (onStore (fun db => payments db = payments db0
                             ∧ creditLedger db = creditLedger db0
                             ∧ users db = users db0))
         (grantCredits userId delta reason referenceId metadataJson)
         (fun _ => onStore (fun db =>
            payments db = payments db0
            ∧ ∃ u uuid now,
                users db0 !! userId = Some u
                ∧ creditLedger db
                  = creditLedger db0
                    ++ [grantEntry uuid userId delta (user_apiCredits u) reason
                                   referenceId metadataJson now]))
         (onStore (fun db => payments db = payments db0
                             ∧ creditLedger db = creditLedger db0)).
Proof.
  unfold grantCredits.
  eapply triple_bind; [apply triple_getIsoTimestamp|]. intros now.
  eapply triple_bind.
  { apply (triple_await _ _
             (fun o db => payments db = payments db0
                          ∧ creditLedger db = creditLedger db0
                          ∧ ∀ u', o = Some u' →
                              ∃ u, users db0 !! userId = Some u ∧ u' = credited delta now u)
             (fun db => payments db = payments db0 ∧ creditLedger db = creditLedger db0)).
    - by intros db (? & ? & ?).
    - intros db (Hp & Hl & Hu). unfold updateUserCredits. rewrite Hu.
      destruct (users db0 !! userId) as [u|] eqn:E; simpl.
      + split; [done|]. split; [done|]. intros u' [= <-]. by exists u.
      + split; [done|]. split; [done|]. intros u' [=]. }
  intros [updatedUser|].
  2: { apply triple_throw. by intros w (? & ? & ?). }
  eapply triple_bind; [apply triple_randomUUID|]. intros uuid.
  eapply triple_bind.
  { apply (triple_await _ _
             (fun _ db => payments db = payments db0
                ∧ ∃ u uuid now,
                    users db0 !! userId = Some u
                    ∧ creditLedger db
                      = creditLedger db0
                        ++ [grantEntry uuid userId delta (user_apiCredits u) reason
                                       referenceId metadataJson now])
             (fun db => payments db = payments db0 ∧ creditLedger db = creditLedger db0)).
    - by intros db (? & ? & ?).
    - intros db (Hp & Hl & Hu).
      destruct (Hu updatedUser eq_refl) as (u & Hlook & ->).
      match goal with |- context [insertLedger ?row db] =>
        pose proof (insertLedger_outcome row db) as H;
        destruct (insertLedger row db) as [[] db'|e db']
      end; subst; [|done].
      simpl. split; [done|]. exists u, uuid, now. split; [done|]. by rewrite Hl. }
  intros []. apply triple_ret. by intros w H.
Qed.

(** When nothing fails and the drawn key is free, [grantCredits] for an
    existing user writes both the balance and the entry. *)
Lemma grantCredits_calm userId delta reason referenceId metadataJson w u :
  faultIn w = None → users (store w) !! userId = Some u →
  freshLedgerId ("cred_" +:+ entropy w (drawn w)) (store w) →
  ∃ w',
    grantCredits userId delta reason referenceId metadataJson w
    = Returned (user_apiCredits u + delta) w'
    ∧ store w'
      = mkDb (<[userId := credited delta (clock w) u]> (users (store w)))
             (payments (store w))
             (creditLedger (store w)
              ++ [grantEntry (entropy w (drawn w)) userId delta (user_apiCredits u)
                             reason referenceId metadataJson (clock w)]).
Proof.
  intros Hf Hu Hfresh. unfold grantCredits, bind, getIsoTimestamp.
  rewrite await_calm by done. unfold updateUserCredits. rewrite Hu.
  unfold randomUUID. cbn [store faultIn clock entropy drawn setStore].
  rewrite await_calm by done.
  cbn [store faultIn clock entropy drawn setStore].
  unfold insertLedger, freshLedgerId in *. cbn [creditLedger withUsers led_id].
  rewrite Hfresh. eexists. split; reflexivity.
Qed.


(** *** [handleUsdtPayment] *)

Lemma handleUsdtPayment_ledger env payload db0 :
  let outcome db :=
    creditLedger db = creditLedger db0
    ∨ (isPaymentSettled env payload = true
       ∧ existingPayment payload db0 = None
       ∧ 0 < derivedCredits payload
       ∧ ∃ u uuid now,
           users db0 !! userId payload = Some u
           ∧ creditLedger db
             = creditLedger db0 ++ [usdtGrant payload uuid now (user_apiCredits u)]) in
  triple (onStore (fun db => db = db0)) (handleUsdtPayment env payload)
         (fun _ => onStore outcome) (onStore outcome).
Proof.
  intros outcome. unfold handleUsdtPayment. cbv zeta.
  eapply triple_bind; [apply triple_getIsoTimestamp|]. intros now.
  eapply triple_bind.
  { apply (triple_await _ _
             (fun o db => db = db0 ∧ o = existingPayment payload db0)
             outcome).
    - intros db ->. by left.
    - intros db ->. simpl. done. }
  intros existing.
  apply (triple_assume _ (existing = existingPayment payload db0)
                       (onStore (fun db => db = db0))).
  intros Hex. destruct existing as [existing|].
  - apply triple_await; [intros db ->; by left|]. intros db ->. simpl. by left.
  - eapply triple_bind; [apply triple_randomUUID|]. intros uuid.
    eapply triple_bind.
    { apply (triple_await _ _
               (fun _ db => creditLedger db = creditLedger db0 ∧ users db = users db0)
               outcome).
      - intros db ->. by left.
      - intros db ->.
        match goal with |- context [insertPayment ?row db0] =>
          pose proof (insertPayment_outcome row db0) as H;
          destruct (insertPayment row db0) as [[] db'|e db']
        end; subst; [done | by left]. }
    intros [].
    change (amountMinor payload / 100) with (derivedCredits payload).
    change (isConfirmed (status payload) && _) with (isPaymentSettled env payload).
    destruct (isPaymentSettled env payload) eqn:Hs; simpl.
    2: { apply triple_ret. intros w (H & _). by left. }
    destruct (Z.gtb_spec (derivedCredits payload) 0) as [Hpos|Hnon].
    2: { apply triple_ret. intros w (H & _). by left. }
    intros w (Hl & Hu).
    pose proof (grantCredits_frame (store w) (userId payload) (derivedCredits payload)
                  "payment_usdt_confirmed" (Some (canonicalId payload))
                  (Some (json_payload payload)) w (conj eq_refl (conj eq_refl eq_refl)))
      as Hgrant.
    unfold bind. unfold canonicalId in Hgrant at 1.
    destruct (grantCredits _ _ _ _ _ w) as [bal w'|e w']; simpl.
    + destruct Hgrant as (_ & u & uuid' & now' & Hlook & Hledger).
      right. split; [done|]. split; [done|]. split; [lia|].
      exists u, uuid', now'. rewrite <- Hu, <- Hl. by split.
    + destruct Hgrant as (_ & Hledger). left. unfold onStore. congruence.
Qed.


Lemma existsb_orb {A} (f g : A → bool) l :
  existsb (fun x => f x || g x) l = existsb f l || existsb g l.
Proof.
  induction l as [|x l IH]; [done|]. simpl. rewrite IH.
  destruct (f x), (g x), (existsb f l), (existsb g l); reflexivity.
Qed.

Lemma insertPayment_fresh row db :
  freshPaymentId (pay_id row) db →
  hasPayment (pay_providerPaymentId row) (payments db) = false →
  insertPayment row db = Returned tt (withPayments (payments db ++ [row]) db).
Proof.
  unfold freshPaymentId, hasPayment, insertPayment. intros H1 H2.
  by rewrite existsb_orb, H1, H2.
Qed.

(** An existing record: the handler updates it and returns. *)
Lemma handleUsdtPayment_existing env payload w existing :
  faultIn w = None → existingPayment payload (store w) = Some existing →
  handleUsdtPayment env payload w
  = Returned tt
      (setStore
         (withPayments
            (map (fun r => if String.eqb (pay_id r) (pay_id existing)
                           then setPaymentStatus (paymentStatus env payload)
                                                 (json_payload payload) (clock w) r
                           else r)
                 (payments (store w)))
            (store w))
         w).
Proof.
  intros Hf Hex. unfold handleUsdtPayment, bind, getIsoTimestamp.
  rewrite await_calm by done. cbn [selectPayment]. rewrite setStore_store.
  unfold existingPayment, canonicalId in Hex. rewrite Hex.
  rewrite await_calm by done. reflexivity.
Qed.

(** A new canonical id, nothing fails, the drawn payment key is free:
    the payment row is inserted; then the grant, if any, runs in the
    world [w1] the insert leaves. *)
Lemma handleUsdtPayment_new env payload w :
  faultIn w = None → existingPayment payload (store w) = None →
  freshPaymentId ("pay_" +:+ entropy w (drawn w)) (store w) →
  let w1 :=
    mkWorld (withPayments
               (payments (store w)
                ++ [usdtPayment env payload (entropy w (drawn w)) (clock w)])
               (store w))
            None (clock w) (entropy w) (S (drawn w)) in
  handleUsdtPayment env payload w
  = if isPaymentSettled env payload && (derivedCredits payload >? 0)
    then bind (grantCredits (userId payload) (derivedCredits payload)
                            "payment_usdt_confirmed" (Some (canonicalId payload))
                            (Some (json_payload payload)))
              (fun _ => ret tt) w1
    else Returned tt w1.
Proof.
  intros Hf Hex Hfresh w1. unfold handleUsdtPayment, getIsoTimestamp.
  unfold bind at 1. unfold bind at 1.
  rewrite await_calm by done. cbn [selectPayment]. rewrite setStore_store.
  unfold existingPayment, canonicalId in Hex. rewrite Hex.
  unfold bind at 1. unfold randomUUID. unfold bind at 1.
  rewrite await_calm by done. cbn [store faultIn clock entropy drawn].
  rewrite insertPayment_fresh; [| exact Hfresh | by apply hasPayment_find].
  unfold setStore. cbn [store faultIn clock entropy drawn]. rewrite Hf.
  subst w1. unfold isPaymentSettled, derivedCredits.
  by destruct (_ && _).
Qed.

Lemma find_map_keep {A} (p : A → bool) (f : A → A) l :
  (∀ x, p (f x) = p x) → List.find p (map f l) = f <$> List.find p l.
Proof.
  intros Hf. induction l as [|x l IH]; [done|].
  simpl. rewrite Hf. by destruct (p x).
Qed.

Lemma find_app_new {A} (p : A → bool) l x :
  List.find p l = None → p x = true → List.find p (l ++ [x]) = Some x.
Proof.
  intros Hl Hx. induction l as [|y l IH]; simpl in *; [by rewrite Hx|].
  destruct (p y); [done | by apply IH].
Qed.

End PaymentStoreFacts.

(** ** The properties of payment settlement *)

Module PaymentStoreTheorems.
Import Fx FxRules PaymentStore PaymentStoreFacts PaymentFixtures.
Local Open Scope Z_scope.

(** C1.  Exactly-once credit grant: take any reference id [r] whose
    ledger entries are bounded to begin with (at most one, and none without a
    payment recorded under [r]; an empty ledger is such a start).  After any
    number of deliveries handled one after the other by [handleStripeEvent]
    and [handleUsdtPayment], each returning or throwing at any point, the
    credit ledger holds at most one entry whose [referenceId] is [r]. *)
Theorem exactly_once_credit_grant (env : Env) (r : string) (db : Database)
        (ds : list Delivery) :
  bounded r db →
  (countReference r (creditLedger (deliverAll env ds db)) <= 1)%nat.
Proof.
  intros Hb. pose proof (deliverAll_bounded env r ds db Hb) as H.
  unfold bounded in H. destruct (hasPayment _ _); lia.
Qed.


Lemma pay_status_found env payload w :
  faultIn w = None →
  freshPaymentId ("pay_" +:+ entropy w (drawn w)) (store w) →
  ∃ p, existingPayment payload (store (stateOf (handleUsdtPayment env payload w))) = Some p
       ∧ pay_status p = paymentStatus env payload.
Proof.
  intros Hf Hfresh.
  destruct (existingPayment payload (store w)) as [existing|] eqn:Hex.
  - rewrite (handleUsdtPayment_existing env payload w existing) by done.
    unfold existingPayment in *. simpl.
    rewrite find_map_keep.
    + rewrite Hex. simpl. rewrite String.eqb_refl. by eexists.
    + intros x. by destruct (String.eqb (pay_id x) (pay_id existing)).
  - rewrite handleUsdtPayment_new by done.
    set (row := usdtPayment env payload (entropy w (drawn w)) (clock w)).
    set (w1 := mkWorld _ _ _ _ _).
    assert (existingPayment payload (store w1) = Some row) as Hrow.
    { unfold existingPayment in *. simpl. apply find_app_new; [done|].
      apply String.eqb_refl. }
    destruct (_ && _); [|by exists row].
    pose proof (grantCredits_frame (store w1) (userId payload) (derivedCredits payload)
                  "payment_usdt_confirmed" (Some (canonicalId payload))
                  (Some (json_payload payload)) w1 (conj eq_refl (conj eq_refl eq_refl)))
      as Hgrant.
    unfold bind.
    destruct (grantCredits _ _ _ _ _ w1) as [bal w'|e w']; simpl;
      exists row; unfold existingPayment in *; destruct Hgrant as [-> _]; done.
Qed.

(** C7 (as amended).  [handleUsdtPayment] appends a ledger entry only
    when the payload is settled (status confirmed and confirmations at
    or above the minimum), no payment record with the canonical id
    exists, the derived credits [floor(amountMinor / 100)] are positive
    and the user exists; the entry then carries exactly the derived
    credits and the canonical id, and it is the only one appended.  When
    nothing fails and the drawn keys are free, these conditions are also
    sufficient.  The payment record is written or updated with status
    succeeded when the payload is settled, failed when the payload
    status is failed, pending otherwise, also when no credits are
    granted. *)
Theorem usdt_grant_conditions (env : Env) (payload : CryptoWebhookPayload)
        (w : World Database) :
  let db := store w in
  let db' := store (stateOf (handleUsdtPayment env payload w)) in
  let grantable :=
    isPaymentSettled env payload = true
    ∧ existingPayment payload db = None
    ∧ 0 < derivedCredits payload
    ∧ is_Some (users db !! userId payload) in
  (creditLedger db' = creditLedger db
   ∨ (grantable
      ∧ ∃ e, creditLedger db' = creditLedger db ++ [e]
             ∧ led_deltaCredits e = amountMinor payload / 100
             ∧ led_referenceId e = Some ("usdt_" +:+ transactionId payload)
             ∧ led_userId e = userId payload))
  ∧ (faultIn w = None →
     freshPaymentId ("pay_" +:+ entropy w (drawn w)) db →
     (∃ p, existingPayment payload db' = Some p
           ∧ pay_status p = paymentStatus env payload)
     ∧ (grantable →
        freshLedgerId ("cred_" +:+ entropy w (S (drawn w))) db →
        ∃ u, users db !! userId payload = Some u
             ∧ creditLedger db'
               = creditLedger db
                 ++ [usdtGrant payload (entropy w (S (drawn w))) (clock w)
                               (user_apiCredits u)]
             ∧ user_apiCredits <$> users db' !! userId payload
               = Some (user_apiCredits u + amountMinor payload / 100))).
Proof.
  intros db db' grantable. split.
  - pose proof (handleUsdtPayment_ledger env payload db w eq_refl) as H.
    assert (creditLedger db' = creditLedger db
            ∨ isPaymentSettled env payload = true
              ∧ existingPayment payload db = None
              ∧ 0 < derivedCredits payload
              ∧ ∃ u uuid now,
                  users db !! userId payload = Some u
                  ∧ creditLedger db'
                    = creditLedger db ++ [usdtGrant payload uuid now (user_apiCredits u)])
      as [Hsame|(Hs & Hex & Hpos & u & uuid & now & Hu & Hl)].
    { subst db'. by destruct (handleUsdtPayment env payload w). }
    + by left.
    + right. split; [by repeat split|]. eexists. split; [exact Hl|]. done.
  - intros Hf Hfresh. split; [by apply pay_status_found|].
    intros (Hs & Hex & Hpos & [u Hu]) Hcred. exists u. split; [done|].
    subst db'. rewrite handleUsdtPayment_new by done.
    rewrite Hs. destruct (Z.gtb_spec (derivedCredits payload) 0) as [_|]; [|lia].
    simpl. unfold bind.
    set (w1 := mkWorld _ _ _ _ _).
    destruct (grantCredits_calm (userId payload) (derivedCredits payload)
                "payment_usdt_confirmed" (Some (canonicalId payload))
                (Some (json_payload payload)) w1 u eq_refl Hu Hcred)
      as (w' & -> & Hstore).
    simpl. rewrite Hstore. simpl. split; [done|].
    by rewrite lookup_insert_eq.
Qed.


Lemma handleUsdtPayment_existing_any env payload w existing :
  existingPayment payload (store w) = Some existing →
  store (stateOf (handleUsdtPayment env payload w)) = store w
  ∨ store (stateOf (handleUsdtPayment env payload w))
    = withPayments (refreshed env payload (clock w) existing (payments (store w)))
                   (store w).
Proof.
  intros Hex. unfold existingPayment, canonicalId in Hex.
  unfold handleUsdtPayment, bind, getIsoTimestamp, await.
  destruct (faultIn w) as [[|[|n]]|] eqn:Hf; cbn [selectPayment tick store faultIn fmap option_fmap option_map Nat.pred];
    rewrite ?Hex; simpl; rewrite ?Hf; simpl; auto.
Qed.

Lemma withPayments_same db : withPayments (payments db) db = db.
Proof. by destruct db. Qed.

(** C10.  When the canonical id of a USDT webhook is already recorded,
    [handleUsdtPayment] touches nothing but the status, the raw payload
    and [updatedAt] of the recorded payment: users and ledger are as
    before, no payment row is added, every row keeps its user, amount,
    currency, purchased credits and identifiers, and rows other than the
    recorded one are unchanged.  When nothing fails the handler returns
    and the recorded payment carries the status the payload implies; a
    pending payload thus turns a succeeded record back to pending. *)
Theorem usdt_existing_record_frame (env : Env) (payload : CryptoWebhookPayload)
        (w : World Database) (existing : PaymentRow) :
  existingPayment payload (store w) = Some existing →
  let db := store w in
  let db' := store (stateOf (handleUsdtPayment env payload w)) in
  users db' = users db
  ∧ creditLedger db' = creditLedger db
  ∧ length (payments db') = length (payments db)
  ∧ (∀ i p, nth_error (payments db) i = Some p →
       ∃ p', nth_error (payments db') i = Some p'
             ∧ pay_id p' = pay_id p
             ∧ pay_userId p' = pay_userId p
             ∧ pay_provider p' = pay_provider p
             ∧ pay_providerPaymentId p' = pay_providerPaymentId p
             ∧ pay_amountMinor p' = pay_amountMinor p
             ∧ pay_currency p' = pay_currency p
             ∧ pay_creditsPurchased p' = pay_creditsPurchased p
             ∧ pay_createdAt p' = pay_createdAt p
             ∧ (pay_id p ≠ pay_id existing → p' = p))
  ∧ (faultIn w = None →
     returned (handleUsdtPayment env payload w) = true
     ∧ ∃ p', existingPayment payload db' = Some p'
             ∧ pay_status p' = paymentStatus env payload
             ∧ pay_rawPayloadJson p' = json_payload payload
             ∧ pay_updatedAt p' = clock w
             ∧ (status payload = hook_pending → pay_status p' = pending)).
Proof.
  intros Hex db db'.
  assert (db' = db ∨ db' = withPayments (refreshed env payload (clock w) existing (payments db)) db)
    as Hcases by by apply handleUsdtPayment_existing_any.
  split; [by destruct Hcases as [->| ->]|].
  split; [by destruct Hcases as [->| ->]|].
  split.
  { destruct Hcases as [->| ->]; [done|]. simpl. unfold refreshed. by rewrite length_map. }
  split.
  { intros i p Hp. destruct Hcases as [->| ->].
    - exists p. by repeat split.
    - simpl. unfold refreshed. rewrite nth_error_map, Hp. simpl.
      eexists. split; [reflexivity|].
      destruct (String.eqb (pay_id p) (pay_id existing)) eqn:E; repeat split; try done.
      intros Hne. apply String.eqb_eq in E. done. }
  intros Hf. subst db'.
  rewrite (handleUsdtPayment_existing env payload w existing) by done.
  split; [reflexivity|]. unfold existingPayment in *.
  cbn [stateOf store setStore payments withPayments].
  rewrite find_map_keep.
  - rewrite Hex. simpl. rewrite String.eqb_refl. eexists. split; [reflexivity|].
    simpl. repeat split.
    intros Hp. unfold paymentStatus, isPaymentSettled. by rewrite Hp.
  - intros x. by destruct (String.eqb (pay_id x) (pay_id existing)).
Qed.

(** C1, witness: a confirmed USDT webhook and a checkout completion, each
    delivered twice, from a store with an empty ledger. *)
Lemma exactly_once_credit_grant_witness :
  let ds := [delivery (usdt_webhook (webhook hook_confirmed 3 2500)) "2026-03-01T10:00:00.000Z" uuidsA;
             delivery (usdt_webhook (webhook hook_confirmed 5 2500)) "2026-03-01T10:00:20.000Z" uuidsB;
             delivery (stripe_event checkout) "2026-03-01T10:01:00.000Z" uuidsB;
             delivery (stripe_event checkout) "2026-03-01T10:01:05.000Z" uuidsA] in
  (countReference ("usdt_" +:+ tronTx) (creditLedger (deliverAll env2 ds dbAlice)) <= 1)%nat
  ∧ (countReference "stripe_cs_test_a1B2c3D4" (creditLedger (deliverAll env2 ds dbAlice)) <= 1)%nat
  ∧ length (creditLedger (deliverAll env2 ds dbAlice)) = 2%nat.
Proof.
  intros ds. split; [|split].
  - apply exactly_once_credit_grant. vm_compute. constructor.
  - apply exactly_once_credit_grant. vm_compute. constructor.
  - vm_compute. reflexivity.
Defined.

(** C2, the code at the failing input.  The claim: a pending webhook
    followed by a confirmed one with enough confirmations, for the same
    transaction, yields exactly one grant of [floor(amountMinor / 100)]
    credits of the second payload.  The code: the second webhook finds the
    record of the first, sets it to succeeded and returns; the ledger stays
    empty and the balance stays 300. *)
Theorem pending_then_confirmed_grants_nothing :
  let first := webhook hook_pending 0 2500 in
  let second := webhook hook_confirmed 3 2500 in
  let db1 := deliver env2 dbAlice
               (delivery (usdt_webhook first) "2026-03-01T10:00:00.000Z" uuidsA) in
  let db2 := deliver env2 db1
               (delivery (usdt_webhook second) "2026-03-01T10:00:20.000Z" uuidsB) in
  confirmations second >= usdtConfirmationsRequired env2
  ∧ amountMinor second / 100 = 25
  ∧ pay_status <$> existingPayment second db1 = Some pending
  ∧ pay_status <$> existingPayment second db2 = Some succeeded
  ∧ creditLedger db2 = []
  ∧ countReference (canonicalId second) (creditLedger db2) = 0%nat
  ∧ user_apiCredits <$> users db2 !! aliceId = Some 300.
Proof. vm_compute. repeat split; (reflexivity || discriminate). Qed.

(** C7, counterexample to the claim as stated: a settled payload for a
    new transaction whose derived credits are not positive is one of the
    "other cases", no ledger entry is appended, and yet the payment record
    is written with status succeeded, neither pending nor failed. *)
Lemma settled_without_credits_is_succeeded :
  let payload := webhook hook_confirmed 3 50 in
  let db' := store (stateOf (handleUsdtPayment env2 payload
                               (calm dbAlice "2026-03-01T10:00:00.000Z" uuidsA))) in
  ¬ (0 < amountMinor payload / 100)
  ∧ creditLedger db' = []
  ∧ pay_status <$> existingPayment payload db' = Some succeeded
  ∧ pay_status <$> existingPayment payload db' ≠ Some pending
  ∧ pay_status <$> existingPayment payload db' ≠ Some failed.
Proof. vm_compute. repeat split; (reflexivity || discriminate). Qed.

(** C7, witness: a settled webhook of 2599 minor units for a new
    transaction grants 25 credits to a user of balance 300. *)
Lemma usdt_grant_conditions_witness :
  let payload := webhook hook_confirmed 3 2599 in
  let db' := store (stateOf (handleUsdtPayment env2 payload
                               (calm dbAlice "2026-03-01T10:00:00.000Z" uuidsA))) in
  (∃ p, existingPayment payload db' = Some p ∧ pay_status p = succeeded)
  ∧ ∃ e, creditLedger db' = [e] ∧ led_deltaCredits e = 25 ∧ led_balanceAfter e = 325
         ∧ user_apiCredits <$> users db' !! aliceId = Some 325.
Proof.
  intros payload db'.
  destruct (usdt_grant_conditions env2 payload
              (calm dbAlice "2026-03-01T10:00:00.000Z" uuidsA)) as [_ H].
  destruct H as [Hstatus Hgrant]; [reflexivity | reflexivity |].
  split; [exact Hstatus|].
  destruct Hgrant as (u & Hu & Hl & Hb).
  - split; [reflexivity|]. split; [reflexivity|]. split; [reflexivity|].
    exists alice. reflexivity.
  - reflexivity.
  - vm_compute in Hu. injection Hu as <-.
    eexists. split; [exact Hl|]. split; [reflexivity|]. split; [reflexivity|]. exact Hb.
Defined.

(** C8, the code at the failing input.  The claim: [grantCredits]
    applies the balance increment and the ledger append atomically, so that
    a failure of the ledger insert leaves the balance as it was.  The code
    opens no transaction: when the insert fails after the update, the user
    has 325 credits and the ledger has no entry for them.  (For an unknown
    user nothing is written.) *)
Theorem grant_without_ledger_entry :
  let grant := grantCredits aliceId 25 "payment_usdt_confirmed"
                            (Some ("usdt_" +:+ tronTx)) None in
  let failed := grant (mkWorld dbAlice (Some 1%nat) "2026-03-01T10:00:00.000Z" uuidsA 0) in
  let unknown := grantCredits "usr_missing" 25 "payment_usdt_confirmed" None None
                              (calm dbAlice "2026-03-01T10:00:00.000Z" uuidsA) in
  (returned failed = false
   ∧ user_apiCredits <$> users (store (stateOf failed)) !! aliceId = Some 325
   ∧ creditLedger (store (stateOf failed)) = []
   ∧ ledgerSum aliceId (creditLedger (store (stateOf failed))) = 0)
  ∧ (returned unknown = false ∧ store (stateOf unknown) = dbAlice).
Proof. vm_compute. repeat split; reflexivity. Qed.

(** C10, witness: a pending webhook replayed on a succeeded record. *)
Lemma usdt_existing_record_frame_witness :
  let settled := deliver env2 dbAlice
                   (delivery (usdt_webhook (webhook hook_confirmed 3 2500))
                             "2026-03-01T10:00:00.000Z" uuidsA) in
  let replayed := store (stateOf (handleUsdtPayment env2 (webhook hook_pending 0 9900)
                           (calm settled "2026-03-01T10:05:00.000Z" uuidsB))) in
  pay_status <$> existingPayment (webhook hook_pending 0 9900) settled = Some succeeded
  ∧ (∃ p', existingPayment (webhook hook_pending 0 9900) replayed = Some p'
           ∧ pay_status p' = pending)
  ∧ creditLedger replayed = creditLedger settled
  ∧ length (payments replayed) = 1%nat.
Proof.
  intros settled replayed.
  destruct (usdt_existing_record_frame env2 (webhook hook_pending 0 9900)
              (calm settled "2026-03-01T10:05:00.000Z" uuidsB)
              (usdtPayment env2 (webhook hook_confirmed 3 2500) (uuidsA 0%nat)
                           "2026-03-01T10:00:00.000Z"))
    as (_ & Hl & Hlen & _ & Hcalm).
  - reflexivity.
  - destruct Hcalm as (_ & p' & Hp' & _ & _ & _ & Hpending); [reflexivity|].
    split; [reflexivity|]. split; [exists p'; split; [exact Hp' | by apply Hpending]|].
    split; [exact Hl | exact Hlen].
Defined.

End PaymentStoreTheorems.

(** ** The chain worker: what every cycle keeps *)

Module ChainWorkerInvariantFacts.
Import Fx FxRules ChainWorker ChainWorkerFacts ChainWorkerInvariants.
Local Open Scope Z_scope.

(** A statement of the worker against the deposits table: it maps rows to
    rows with the same frame, or appends one keyed row whose id is new. *)
Lemma continues_refl rows : continues rows rows.
Proof. exists []. by rewrite app_nil_r. Qed.

Lemma continues_trans a b c : continues a b → continues b c → continues a c.
Proof.
  intros [x Hx] [y Hy]. exists (x ++ y). by rewrite Hy, Hx, <- List.app_assoc.
Qed.

Lemma continues_map rows (f : DepositRow → DepositRow) :
  (∀ r, frame (f r) = frame r) → continues rows (map f rows).
Proof.
  intros Hf. exists []. rewrite app_nil_r, map_map. apply map_ext. exact Hf.
Qed.

Lemma continues_app rows v : continues rows (rows ++ [v]).
Proof. exists [frame v]. by rewrite map_app. Qed.

Lemma insert_continues v st :
  match insertDepositOnConflictDoUpdate v st with
  | Returned _ st' | Threw _ st' =>
      continues (deposits st) (deposits st')
      ∧ workerState st' = workerState st
      ∧ isPolling st' = isPolling st ∧ console st' = console st
  end.
Proof.
  unfold insertDepositOnConflictDoUpdate.
  destruct (existsb (sameEvent _ _) _).
  - simpl. split; [|done]. apply continues_map. intros r. by destruct (sameEvent _ _ r).
  - destruct (existsb (sameId _) _); simpl.
    + split; [apply continues_refl | done].
    + split; [apply continues_app | done].
Qed.

Lemma update_continues i c s n st :
  match updateDepositById i c s n st with
  | Returned _ st' | Threw _ st' =>
      continues (deposits st) (deposits st')
      ∧ workerState st' = workerState st
      ∧ isPolling st' = isPolling st ∧ console st' = console st
  end.
Proof.
  simpl. split; [|done]. apply continues_map. intros r. by destruct (sameId i r).
Qed.

(** *** Key invariants *)

Lemma sameId_false_notin i rows :
  existsb (sameId i) rows = false → ¬ In i (map row_id rows).
Proof.
  induction rows as [|r rows IH]; simpl; [tauto|].
  intros [Hr Hrows]%orb_false_elim [Heq|Hin]; [|by apply IH].
  assert (sameId i r = true) by by apply sameId_true. congruence.
Qed.

Lemma NoDup_snoc {A} (l : list A) x : List.NoDup l → ¬ In x l → List.NoDup (l ++ [x]).
Proof.
  intros Hl Hx. induction Hl as [|y l Hy Hl IH]; simpl.
  - constructor; [tauto | constructor].
  - constructor.
    + rewrite in_app_iff. simpl. intros [H|[H|[]]]; [done|]. apply Hx. by left.
    + apply IH. intros H. apply Hx. by right.
Qed.

Lemma insert_keyed v st :
  row_id v = (row_txHash v, row_logIndex v) → keyed st →
  match insertDepositOnConflictDoUpdate v st with
  | Returned _ st' => keyed st'
  | Threw _ st' => False
  end.
Proof.
  intros Hv [Hk Hnd]. rewrite insert_wellKeyed by done.
  split; simpl; [by apply upserted_wellKeyed|].
  unfold upserted. destruct (existsb (sameEvent _ _) _) eqn:E.
  - rewrite map_map. erewrite map_ext; [exact Hnd|].
    intros r. simpl. by destruct (sameEvent _ _ r).
  - rewrite map_app. simpl. apply NoDup_snoc; [done|].
    apply sameId_false_notin. rewrite Hv. by rewrite sameId_wellKeyed.
Qed.

Lemma update_keyed i c s n st :
  keyed st →
  match updateDepositById i c s n st with
  | Returned _ st' => keyed st'
  | Threw _ st' => False
  end.
Proof.
  intros [Hk Hnd]. simpl. split; simpl.
  - unfold wellKeyed in *. apply Forall_map. eapply Forall_impl; [exact Hk|].
    intros r Hr. simpl. by destruct (sameId i r).
  - rewrite map_map. erewrite map_ext; [exact Hnd|].
    intros r. simpl. by destruct (sameId i r).
Qed.

(** *** Every statement-stable predicate survives a cycle *)

Section Stable.
Context (I : WorkerState → Prop) (HI : statementsKeep I).

Lemma upsertDeposit_stable config input :
  triple (onStore I) (upsertDeposit config input) (fun _ => onStore I) (onStore I).
Proof.
  unfold upsertDeposit.
  eapply triple_bind; [apply triple_getIsoTimestamp|]. intros now. cbv zeta.
  apply triple_await; [done|]. intros st Hst.
  destruct HI as (Hins & _ & _).
  match goal with |- context [insertDepositOnConflictDoUpdate ?v st] =>
    specialize (Hins v st eq_refl Hst);
    destruct (insertDepositOnConflictDoUpdate v st)
  end; exact Hins.
Qed.

Lemma refresh_stable config latestBlock :
  triple (onStore I) (refreshPendingConfirmations config latestBlock)
         (fun _ => onStore I) (onStore I).
Proof.
  unfold refreshPendingConfirmations.
  eapply triple_bind.
  { apply (triple_await _ I (fun _ => I) I); [done|]. intros st Hst. exact Hst. }
  intros pendingDeposits.
  eapply triple_bind; [apply triple_getIsoTimestamp|]. intros now.
  apply triple_forM_keep. intros p. cbv zeta.
  destruct (_ && _); [by apply triple_ret|].
  apply triple_await; [done|]. intros st Hst.
  destruct HI as (_ & Hupd & _).
  match goal with |- context [updateDepositById ?i ?c ?s ?n st] =>
    specialize (Hupd i c s n st Hst);
    destruct (updateDepositById i c s n st)
  end; exact Hupd.
Qed.

Lemma pollOnce_stable config client :
  triple (onStore I) (pollOnce config client) (fun _ => onStore I) (onStore I).
Proof.
  unfold pollOnce.
  eapply triple_bind.
  { apply (triple_await _ I (fun _ => I) I); [done|]. intros st Hst. exact Hst. }
  intros latestBlock.
  eapply triple_bind.
  { eapply triple_weaken; [apply (getCursorBlock_reads I)| | |]; [done| |done].
    intros c w [Hw _]. exact Hw. }
  intros currentCursor. cbv zeta.
  destruct (_ >? _); [apply refresh_stable|].
  eapply triple_bind.
  { apply triple_forM_keep. intros token.
    eapply triple_bind.
    { apply (triple_await _ I (fun _ => I) I); [done|]. intros st Hst. exact Hst. }
    intros logs. apply triple_forM_keep. intros log. apply upsertDeposit_stable. }
  intros [].
  apply (triple_bind _ _ _ (fun _ => onStore I)); [|intros []; apply refresh_stable].
  unfold setCursorBlock.
  eapply triple_bind; [apply triple_getIsoTimestamp|]. intros now.
  apply triple_await; [done|]. intros st Hst.
  destruct HI as (_ & _ & Hcur). by apply Hcur.
Qed.

End Stable.

Lemma keyed_stable : statementsKeep keyed.
Proof.
  split; [|split].
  - intros v st Hv Hst. pose proof (insert_keyed v st Hv Hst) as H.
    by destruct (insertDepositOnConflictDoUpdate v st).
  - intros i c s n st Hst. exact (update_keyed i c s n st Hst).
  - by intros b now st [? ?].
Qed.

Lemma continues_stable rows0 busy lines :
  statementsKeep (fun st => continues rows0 (deposits st) ∧ memoryIs busy lines st).
Proof.
  unfold memoryIs. split; [|split].
  - intros v st _ (Hc & Hp & Hl). pose proof (insert_continues v st) as Hi.
    destruct (insertDepositOnConflictDoUpdate v st);
      destruct Hi as (Hi & _ & Hp' & Hl');
      (split; [by eapply continues_trans | split; congruence]).
  - intros i c s n st (Hc & Hp & Hl). simpl. split; [|done].
    eapply continues_trans; [exact Hc|].
    apply continues_map. intros r. by destruct (sameId i r).
  - by intros b now st (? & ? & ?).
Qed.

Lemma statementsKeep_and (I J : WorkerState → Prop) :
  statementsKeep I → statementsKeep J → statementsKeep (fun st => I st ∧ J st).
Proof.
  intros (I1 & I2 & I3) (J1 & J2 & J3). split; [|split].
  - intros v st Hv [HI HJ]. split; [by apply I1 | by apply J1].
  - intros i c s n st [HI HJ]. split; [by apply I2 | by apply J2].
  - intros b now st [HI HJ]. split; [by apply I3 | by apply J3].
Qed.

Lemma memory_stable busy lines : statementsKeep (memoryIs busy lines).
Proof.
  pose proof (continues_stable [] busy lines) as (H1 & H2 & H3).
  split; [|split].
  - intros v st Hv Hm. apply (H1 v st Hv). split; [|done]. by exists (map frame (deposits st)).
  - intros i c s n st Hm. apply (H2 i c s n st). split; [|done]. by exists (map frame (deposits st)).
  - intros b now st Hm. exact Hm.
Qed.

(** A cycle started idle: [runPollCycle] returns, the flag is down again,
    at most one line went to the console, and whatever the statements of a
    cycle keep is kept. *)
Lemma runPollCycle_idle (J : WorkerState → Prop) config client lines :
  statementsKeep J →
  (∀ st b, J st → J (withPolling b st)) →
  (∀ st l, J st → J (withConsole l st)) →
  triple (onStore (fun st => J st ∧ memoryIs false lines st))
         (runPollCycle config client)
         (fun _ => onStore (fun st =>
            J st ∧ isPolling st = false
            ∧ ∃ extra, console st = lines ++ extra ∧ (length extra <= 1)%nat))
         (fun _ => False).
Proof.
  intros HJ Hp Hc. unfold runPollCycle.
  eapply triple_bind; [apply triple_getsStore|].
  intros busy.
  apply (triple_pre _ _ (fun w => onStore (fun st => J st ∧ memoryIs false lines st) w
                                  ∧ busy = false)).
  2: { intros w [[HJw [Hb Hl]] ->]. done. }
  apply triple_assume. intros ->.
  eapply triple_bind.
  { apply (triple_modifyStore _ _ (fun st => J st ∧ memoryIs true lines st)).
    intros st (HJst & _ & Hl). split; [by apply Hp | done]. }
  intros [].
  eapply triple_finally with
    (Q' := fun _ => onStore (fun st =>
             J st ∧ ∃ extra, console st = lines ++ extra ∧ (length extra <= 1)%nat))
    (E' := fun _ => False).
  - eapply triple_tryCatch.
    + eapply triple_weaken;
        [apply (pollOnce_stable _ (statementsKeep_and _ _ HJ (memory_stable true lines)))
        | | |].
      * intros w Hw. exact Hw.
      * intros [] w (HJw & _ & Hl). split; [done|]. exists [].
        split; [by rewrite app_nil_r | simpl; lia].
      * intros w Hw. exact Hw.
    + intros e. apply triple_modifyStore. intros st (HJst & _ & Hl).
      split; [by apply Hc|]. eexists [_]. simpl. split; [by rewrite Hl | lia].
  - intros []. apply triple_modifyStore. intros st (HJst & Hx).
    split; [by apply Hp | done].
  - intros w [].
Qed.

Lemma keyed_countEvent st t i :
  keyed st → (countEvent t i (deposits st) <= 1)%nat.
Proof.
  intros [Hk Hnd]. unfold countEvent, wellKeyed in *.
  induction (deposits st) as [|r rows IH]; simpl; [lia|].
  inversion Hk as [|? ? Hr Hrows]; subst. inversion Hnd as [|? ? Hnot Hnd']; subst.
  specialize (IH Hrows Hnd').
  destruct (sameEvent t i r) eqn:E; simpl; [|exact IH].
  assert (List.filter (sameEvent t i) rows = []) as ->; [|simpl; lia].
  apply sameEvent_eq in E as [Et Ei].
  assert (∀ r', In r' rows → sameEvent t i r' = false) as Hnone.
  { intros r' Hr'. destruct (sameEvent t i r') eqn:E'; [|done].
    apply sameEvent_eq in E' as [Et' Ei']. exfalso. apply Hnot.
    apply in_map_iff. exists r'. split; [|done].
    rewrite Hr. rewrite (proj1 (List.Forall_forall _ _) Hrows r' Hr').
    by rewrite Et, Ei, Et', Ei'. }
  clear -Hnone. induction rows as [|r' rows IH]; [done|]. simpl.
  rewrite (Hnone r') by by left. apply IH. intros x Hx. apply Hnone. by right.
Qed.

End ChainWorkerInvariantFacts.

Module ChainWorkerInvariantTheorems.
Import Fx FxRules ChainWorker ChainWorkerFacts ChainWorkerInvariants ChainWorkerInvariantFacts.
Local Open Scope Z_scope.

(** X1.  The reentrancy guard.  A cycle that finds [isPolling] set does
    nothing at all: no call to the chain client, no statement against the
    store.  A cycle started idle always returns, whatever fails inside,
    leaves [isPolling] cleared, and writes at most one line to the console. *)
Theorem reentrancy_guard (config : Config) (client : Rpc) (w : World WorkerState) :
  (isPolling (store w) = true → runPollCycle config client w = Returned tt w)
  ∧ (isPolling (store w) = false →
     returned (runPollCycle config client w) = true
     ∧ isPolling (store (stateOf (runPollCycle config client w))) = false
     ∧ ∃ extra,
         console (store (stateOf (runPollCycle config client w)))
         = console (store w) ++ extra
         ∧ (length extra <= 1)%nat).
Proof.
  split.
  - intros Hbusy. unfold runPollCycle, bind, getsStore. by rewrite Hbusy.
  - intros Hidle.
    assert (statementsKeep (fun _ : WorkerState => True)) as HT by done.
    pose proof (runPollCycle_idle (fun _ => True) config client (console (store w))
                  HT (fun _ _ _ => Logic.I) (fun _ _ _ => Logic.I) w
                  (conj Logic.I (conj Hidle eq_refl))) as H.
    destruct (runPollCycle config client w) as [[] w'|e w']; [|done].
    destruct H as (_ & Hp & Hx). done.
Qed.

(** X2.  Rows of [chain_deposits] are never deleted or reordered, and of
    an existing row only confirmations, status and [updatedAt] ever
    change, in any cycle and whatever fails in it. *)
Theorem deposits_only_grow (config : Config) (client : Rpc) (w : World WorkerState) :
  continues (deposits (store w)) (deposits (store (stateOf (pollOnce config client w))))
  ∧ continues (deposits (store w))
              (deposits (store (stateOf (runPollCycle config client w)))).
Proof.
  split.
  - pose proof (pollOnce_stable _ (continues_stable (deposits (store w))
                  (isPolling (store w)) (console (store w))) config client w
                  (conj (continues_refl _) (conj eq_refl eq_refl))) as H.
    by destruct (pollOnce config client w) as [[] w'|e w']; destruct H.
  - destruct (isPolling (store w)) eqn:Hbusy.
    + unfold runPollCycle, bind, getsStore. rewrite Hbusy. apply continues_refl.
    + assert (statementsKeep (fun st => continues (deposits (store w)) (deposits st))) as HJ.
      { pose proof (continues_stable (deposits (store w)) false []) as (H1 & H2 & H3).
        pose proof (memory_stable false []) as (M1 & M2 & M3).
        split; [|split].
        - intros v st Hv Hc. pose proof (insert_continues v st) as Hi.
          destruct (insertDepositOnConflictDoUpdate v st); destruct Hi as [Hi _];
            by eapply continues_trans.
        - intros i c s n st Hc. simpl. eapply continues_trans; [exact Hc|].
          apply continues_map. intros r. by destruct (sameId i r).
        - by intros b now st Hc. }
      pose proof (runPollCycle_idle _ config client (console (store w)) HJ
                    (fun _ _ H => H) (fun _ _ H => H) w
                    (conj (continues_refl _) (conj Hbusy eq_refl))) as H.
      destruct (runPollCycle config client w) as [[] w'|e w']; [|done].
      by destruct H.
Qed.

(** X3.  The key discipline of [chain_deposits] survives every cycle:
    if every row carries the id of its [(txHash, logIndex)] and no id
    occurs twice, the same holds after [pollOnce] and after
    [runPollCycle], whatever fails; so no event ever has two rows. *)
Theorem deposit_keys_kept (config : Config) (client : Rpc) (w : World WorkerState) :
  keyed (store w) →
  keyed (store (stateOf (pollOnce config client w)))
  ∧ keyed (store (stateOf (runPollCycle config client w)))
  ∧ ∀ t i,
      (countEvent t i (deposits (store (stateOf (runPollCycle config client w)))) <= 1)%nat.
Proof.
  intros Hk.
  assert (keyed (store (stateOf (runPollCycle config client w)))) as Hcycle.
  { destruct (isPolling (store w)) eqn:Hbusy.
    - unfold runPollCycle, bind, getsStore. by rewrite Hbusy.
    - pose proof (runPollCycle_idle keyed config client (console (store w)) keyed_stable
                    (fun _ _ H => H) (fun _ _ H => H) w
                    (conj Hk (conj Hbusy eq_refl))) as H.
      destruct (runPollCycle config client w) as [[] w'|e w']; [|done].
      by destruct H. }
  split; [|split; [exact Hcycle|]].
  - pose proof (pollOnce_stable keyed keyed_stable config client w Hk) as H.
    by destruct (pollOnce config client w) as [[] w'|e w'].
  - intros t i. by apply keyed_countEvent.
Qed.

(** *** On concrete inputs *)

Import WorkerFixtures.

Lemma reentrancy_guard_witness :
  let busy := calm (mkState [] (Some (mkCursor 98 "2026-03-01T09:59:45.000Z")) true [])
                   "2026-03-01T10:00:00.000Z" noUuid in
  let idle := calm (workerAtCursor 98) "2026-03-01T10:00:00.000Z" noUuid in
  runPollCycle config2 (clientAt 100 (transferAt 99)) busy = Returned tt busy
  ∧ returned (runPollCycle config2 (clientAt 100 (transferAt 99)) idle) = true
  ∧ isPolling (store (stateOf (runPollCycle config2 (clientAt 100 (transferAt 99)) idle)))
    = false.
Proof.
  intros busy idle.
  destruct (reentrancy_guard config2 (clientAt 100 (transferAt 99)) busy) as [Hbusy _].
  destruct (reentrancy_guard config2 (clientAt 100 (transferAt 99)) idle) as [_ Hidle].
  split; [apply Hbusy; reflexivity|].
  destruct Hidle as (Hret & Hflag & _); [reflexivity|]. by split.
Defined.

Lemma deposit_keys_kept_witness :
  let w := calm (observed config2 (transferAt 99) 100) "2026-03-01T10:00:15.000Z" noUuid in
  keyed (store (stateOf (runPollCycle config2 (clientAt 101 (transferAt 99)) w)))
  ∧ (countEvent (transactionHash (transferAt 99)) 3
       (deposits (store (stateOf (runPollCycle config2 (clientAt 101 (transferAt 99)) w))))
     <= 1)%nat.
Proof.
  intros w.
  destruct (deposit_keys_kept config2 (clientAt 101 (transferAt 99)) w) as (_ & Hk & Hc).
  - split; vm_compute; repeat constructor. intros [].
  - split; [exact Hk | apply Hc].
Defined.

End ChainWorkerInvariantTheorems.

(** ** The chain worker: steady state *)

Module ChainWorkerSteadyFacts.
Import Fx FxRules ChainWorker ChainWorkerFacts ChainWorkerInvariants ChainWorkerInvariantFacts.
Local Open Scope Z_scope.

Lemma triple_await_calm {D A} (op : D → Result D A) (P : D → Prop)
      (Q : A → D → Prop) (E : World D → Prop) :
  (∀ d, P d → match op d with
              | Returned a d' => Q a d'
              | Threw _ _ => False
              end) →
  triple (fun w => faultIn w = None ∧ P (store w)) (await op)
         (fun a w => faultIn w = None ∧ Q a (store w)) E.
Proof.
  intros Hop w [Hf Hw]. rewrite await_calm by done.
  specialize (Hop (store w) Hw). by destruct (op (store w)).
Qed.

Lemma sweptRow_id config h now r : row_id (sweptRow config h now r) = row_id r.
Proof.
  unfold sweptRow. destruct (_ && _); [|done]. cbv zeta. by destruct (_ && _).
Qed.

Lemma DepositStatus_eqb_refl s : DepositStatus_eqb s s = true.
Proof. by destruct s. Qed.

(** A swept row is a fixed point of the sweep at the same head. *)
Lemma sweptRow_idem config h t1 t2 r :
  sweptRow config h t2 (sweptRow config h t1 r) = sweptRow config h t1 r.
Proof.
  set (c := Number_of_BigInt (h - BigInt_of_Number (row_blockNumber r) + 1)).
  set (s := if c >=? minConfirmations config then confirmed else pending).
  destruct (DepositStatus_eqb (row_status r) pending
            && (row_blockNumber r <=? Number_of_BigInt h)) eqn:Hsel.
  - destruct ((c =? row_confirmations r) && DepositStatus_eqb s (row_status r)) eqn:Hsame.
    + assert (∀ t, sweptRow config h t r = r) as Hr.
      { intros t. unfold sweptRow. rewrite Hsel. cbv zeta. fold c. fold s. by rewrite Hsame. }
      by rewrite !Hr.
    + assert (sweptRow config h t1 r = setConfirmation c s t1 r) as ->.
      { unfold sweptRow. rewrite Hsel. cbv zeta. fold c. fold s. by rewrite Hsame. }
      apply andb_true_iff in Hsel as [_ Hb].
      unfold sweptRow.
      cbn [row_status row_blockNumber row_confirmations setConfirmation].
      fold c. fold s. rewrite Hb, Z.eqb_refl, DepositStatus_eqb_refl.
      by destruct (DepositStatus_eqb s pending).
  - assert (∀ t, sweptRow config h t r = r) as Hr.
    { intros t. unfold sweptRow. by rewrite Hsel. }
    by rewrite !Hr.
Qed.

Lemma swept_NoDup config h now rows :
  List.NoDup (map row_id rows) → List.NoDup (map row_id (map (sweptRow config h now) rows)).
Proof.
  intros H. rewrite map_map. erewrite map_ext; [exact H|].
  intros r. apply sweptRow_id.
Qed.

(** With the cursor at or past the head a cycle is the sweep alone. *)
Lemma pollOnce_skip config client w :
  faultIn w = None →
  (fromBlockOf config client (store w) >? getBlockNumber client) = true →
  pollOnce config client w
  = refreshPendingConfirmations config (getBlockNumber client) w.
Proof.
  intros Hf Hfrom. unfold pollOnce. unfold bind at 1.
  rewrite await_calm by done. cbn [remote]. rewrite setStore_store.
  unfold bind at 1. unfold getCursorBlock. unfold bind at 1.
  rewrite await_calm by done. cbn [selectCursor]. rewrite setStore_store.
  unfold fromBlockOf, cursorOf in Hfrom.
  destruct (workerState (store w)) as [row|]; simpl in *; unfold ret; by rewrite Hfrom.
Qed.

(** In a world where nothing fails, on a keyed table, the part of a cycle
    before the sweep returns, and leaves such a world and table. *)
Lemma scanAndAdvance_calm config client :
  triple (fun w => faultIn w = None ∧ keyed (store w))
         (scanAndAdvance config client)
         (fun latest w => faultIn w = None ∧ keyed (store w)
                          ∧ latest = getBlockNumber client)
         (fun _ => False).
Proof.
  unfold scanAndAdvance.
  eapply triple_bind.
  { apply (triple_await_calm _ keyed (fun latest st => keyed st ∧ latest = getBlockNumber client)).
    intros st Hst. simpl. done. }
  intros latestBlock.
  apply (triple_pre _ _ (fun w => (fun w => faultIn w = None ∧ keyed (store w)) w
                                  ∧ latestBlock = getBlockNumber client)).
  2: { intros w (? & ? & ?). done. }
  apply triple_assume. intros ->.
  apply (triple_bind _ _ _ (fun _ w => faultIn w = None ∧ keyed (store w))).
  { unfold getCursorBlock. eapply triple_bind.
    { apply (triple_await_calm _ keyed (fun _ st => keyed st)). intros st Hst. simpl. done. }
    intros [row|]; apply triple_ret; intros w Hw; exact Hw. }
  intros currentCursor. cbv zeta.
  destruct (_ >? _); [apply triple_ret; by intros w [? ?]|].
  eapply triple_bind.
  { apply (triple_forM_ _ (fun _ w => faultIn w = None ∧ keyed (store w))
                        (fun _ => False) (trackedTokens config) []).
    intros _ token.
    eapply triple_bind.
    { apply (triple_await_calm _ keyed (fun _ st => keyed st)). intros st Hst. exact Hst. }
    intros logs.
    apply (triple_forM_ _ (fun _ w => faultIn w = None ∧ keyed (store w))
                        (fun _ => False) logs []).
    intros _ log. unfold upsertDeposit.
    eapply triple_bind; [apply triple_getIsoTimestamp|]. intros now. cbv zeta.
    apply (triple_await_calm _ keyed (fun _ st => keyed st)).
    intros st Hst. by apply insert_keyed. }
  intros [].
  eapply triple_bind.
  { unfold setCursorBlock.
    eapply triple_bind; [apply triple_getIsoTimestamp|]. intros now.
    apply (triple_await_calm _ keyed (fun _ st => keyed st)).
    intros st [? ?]. simpl. done. }
  intros []. apply triple_ret. by intros w [? ?].
Qed.

Lemma refresh_fixpoint config h w0 t2 ids :
  faultIn w0 = None → List.NoDup (map row_id (deposits (store w0))) →
  let st1 := withDeposits (map (sweptRow config h (clock w0)) (deposits (store w0)))
                          (store w0) in
  refreshPendingConfirmations config h w0 = Returned tt (setStore st1 w0)
  ∧ refreshPendingConfirmations config h (calm st1 t2 ids) = Returned tt (calm st1 t2 ids).
Proof.
  intros Hf Hnd st1. split; [by apply refresh_swept|].
  rewrite refresh_swept; [|done | by apply swept_NoDup].
  unfold calm, setStore. cbn [store faultIn clock entropy drawn].
  do 2 f_equal. subst st1. unfold withDeposits. cbn [deposits workerState isPolling console].
  f_equal. rewrite map_map. apply map_ext. intros r. apply sweptRow_idem.
Qed.

End ChainWorkerSteadyFacts.

Module ChainWorkerSteadyTheorems.
Import Fx FxRules ChainWorker ChainWorkerFacts ChainWorkerInvariants.
Import ChainWorkerInvariantFacts ChainWorkerSteadyFacts.
Local Open Scope Z_scope.

(** X4.  The sweep writes back only what changed: when nothing fails, a
    second sweep at the same head, at any later time, leaves the store
    exactly as the first sweep left it, [updatedAt] of every row
    included. *)
Theorem sweep_twice_writes_nothing (config : Config) (h : Z) (w : World WorkerState)
        (t2 : string) (ids : nat → string) :
  faultIn w = None → List.NoDup (map row_id (deposits (store w))) →
  ∃ st1,
    refreshPendingConfirmations config h w = Returned tt (setStore st1 w)
    ∧ refreshPendingConfirmations config h (calm st1 t2 ids)
      = Returned tt (calm st1 t2 ids).
Proof.
  intros Hf Hnd. eexists. by apply refresh_fixpoint.
Qed.

(** X5.  Steady state.  On a keyed table, a cycle in which nothing fails
    returns; and a further such cycle against a client reporting the same
    head fetches no log, leaves the cursor alone and leaves the whole
    store exactly as it was. *)
Theorem steady_state (config : Config) (client client2 : Rpc) (w : World WorkerState)
        (t2 : string) (ids : nat → string) :
  faultIn w = None → keyed (store w) →
  getBlockNumber client2 = getBlockNumber client →
  ∃ w1,
    pollOnce config client w = Returned tt w1
    ∧ pollOnce config client2 (calm (store w1) t2 ids)
      = Returned tt (calm (store w1) t2 ids).
Proof.
  intros Hf Hk Hhead.
  pose proof (pollOnce_cycle config client (cursorOf (store w)) w eq_refl) as Hcycle.
  pose proof (scanAndAdvance_calm config client w (conj Hf Hk)) as Hscan.
  rewrite pollOnce_split in *. unfold bind in *.
  destruct (scanAndAdvance config client w) as [latest w0|]; [|done].
  destruct Hscan as (Hf0 & [Hk0 Hnd0] & ->).
  destruct (refresh_fixpoint config (getBlockNumber client) w0 t2 ids Hf0 Hnd0) as [H1 H2].
  rewrite H1 in *. eexists. split; [reflexivity|].
  cbn [store setStore].
  rewrite pollOnce_skip; [by rewrite Hhead | reflexivity |].
  unfold onStore in Hcycle. cbn [store setStore calm] in *.
  unfold fromBlockOf. rewrite Hhead.
  destruct Hcycle as [[Hlt ->]|(_ & -> & _)]; apply Z.gtb_lt; [exact Hlt | lia].
Qed.

(** *** On concrete inputs *)

Import WorkerFixtures.

Lemma sweep_twice_writes_nothing_witness :
  let w := calm (observed config2 (transferAt 100) 100) "2026-03-01T10:00:15.000Z" noUuid in
  ∃ st1,
    refreshPendingConfirmations config2 101 w = Returned tt (setStore st1 w)
    ∧ refreshPendingConfirmations config2 101 (calm st1 "2026-03-01T10:00:30.000Z" noUuid)
      = Returned tt (calm st1 "2026-03-01T10:00:30.000Z" noUuid).
Proof.
  intros w.
  apply (sweep_twice_writes_nothing config2 101 w "2026-03-01T10:00:30.000Z" noUuid).
  - reflexivity.
  - vm_compute. repeat constructor. intros [].
Defined.

Lemma steady_state_witness :
  let w := calm (workerAtCursor 98) "2026-03-01T10:00:00.000Z" noUuid in
  ∃ w1,
    pollOnce config2 (clientAt 100 (transferAt 99)) w = Returned tt w1
    ∧ pollOnce config2 (clientAt 100 (transferAt 99))
        (calm (store w1) "2026-03-01T10:00:15.000Z" noUuid)
      = Returned tt (calm (store w1) "2026-03-01T10:00:15.000Z" noUuid).
Proof.
  intros w.
  apply (steady_state config2 (clientAt 100 (transferAt 99)) (clientAt 100 (transferAt 99)) w
           "2026-03-01T10:00:15.000Z" noUuid).
  - reflexivity.
  - split; vm_compute; constructor.
  - reflexivity.
Defined.

End ChainWorkerSteadyTheorems.

(** ** The payment store: ledger and settlement *)

Module PaymentInvariantFacts.
Import Fx FxRules PaymentStore PaymentStoreFacts PaymentInvariants.
Local Open Scope Z_scope.

Lemma settledFrom_refl db : settledFrom db db.
Proof. split; [done | by left]. Qed.

Lemma grant_settles db1 pid u delta reason meta :
  0 < delta → hasPayment pid (payments db1) = true →
  triple (onStore (fun db => db = db1))
         (bind (grantCredits u delta reason (Some pid) meta) (fun _ => ret tt))
         (fun _ => onStore (settledFrom db1)) (onStore (settledFrom db1)).
Proof.
  intros Hpos Hpid.
  eapply triple_bind.
  { eapply triple_weaken; [apply (grantCredits_frame db1 u delta reason (Some pid) meta)| | |].
    - intros w Hw. unfold onStore in *. by rewrite Hw.
    - intros bal w H. exact H.
    - intros w [Hp Hl]. split; [by rewrite Hp | by left]. }
  intros bal. apply triple_ret. intros w (Hp & usr & uuid & now & _ & Hl).
  split; [by rewrite Hp|]. right. eexists _, pid. split; [exact Hl|].
  split; [done|]. split; [done|]. unfold onStore. by rewrite Hp.
Qed.

Lemma settledFrom_recorded db0 row db :
  settledFrom (withPayments (payments db0 ++ [row]) db0) db → settledFrom db0 db.
Proof.
  intros [Hp Hl]. split; [|exact Hl].
  intros r Hr. apply Hp. simpl. rewrite hasPayment_app, Hr. done.
Qed.

Lemma record_then_settle db0 row (grant : M (World Database) unit) :
  triple (onStore (fun db => db = withPayments (payments db0 ++ [row]) db0)) grant
         (fun _ => onStore (settledFrom (withPayments (payments db0 ++ [row]) db0)))
         (onStore (settledFrom (withPayments (payments db0 ++ [row]) db0))) →
  triple (onStore (fun db => db = db0))
         (bind (await (insertPayment row)) (fun _ => grant))
         (fun _ => onStore (settledFrom db0)) (onStore (settledFrom db0)).
Proof.
  intros Hgrant.
  apply (triple_bind _ _ _
           (fun _ => onStore (fun db => db = withPayments (payments db0 ++ [row]) db0))).
  - apply triple_await; [intros db ->; apply settledFrom_refl|].
    intros db ->. pose proof (insertPayment_outcome row db0) as H.
    destruct (insertPayment row db0) as [[] db'|e db']; subst;
      [done | apply settledFrom_refl].
  - intros []. eapply triple_weaken; [exact Hgrant| | |].
    + done.
    + intros [] w H. by eapply settledFrom_recorded.
    + intros w H. by eapply settledFrom_recorded.
Qed.

Lemma hasPayment_new pid row ps :
  pay_providerPaymentId row = pid → hasPayment pid (ps ++ [row]) = true.
Proof.
  intros <-. rewrite hasPayment_app. unfold hasPayment at 2. simpl.
  rewrite String.eqb_refl. apply orb_true_iff. by right.
Qed.

Lemma purchase_positive userId creditsToBuy u c :
  purchase userId creditsToBuy = Some (u, c) → 0 < c.
Proof.
  unfold purchase. destruct userId as [x|]; [|done]. destruct creditsToBuy as [z|]; [|done].
  destruct (String.eqb x "" || (z <=? 0)) eqn:E; [done|].
  intros [= <- <-]. apply orb_false_elim in E as [_ E]. by apply Z.leb_gt.
Qed.

Lemma handleStripeEvent_settles db0 event :
  triple (onStore (fun db => db = db0)) (handleStripeEvent event)
         (fun _ => onStore (settledFrom db0)) (onStore (settledFrom db0)).
Proof.
  destruct event as [session|paymentIntent|type]; simpl.
  - destruct (purchase _ _) as [[userId creditsToBuy]|] eqn:Hp;
      [|apply triple_ret; intros w Hw; unfold onStore in *; rewrite Hw; apply settledFrom_refl].
    eapply triple_bind; [apply triple_getIsoTimestamp|]. intros now.
    eapply triple_bind.
    { apply (triple_await _ _ (fun _ db => db = db0) (settledFrom db0)).
      - intros db ->. apply settledFrom_refl.
      - intros db ->. simpl. done. }
    intros [existing|]; [apply triple_ret; intros w Hw; unfold onStore in *; rewrite Hw; apply settledFrom_refl|].
    eapply triple_bind; [apply triple_randomUUID|]. intros uuid.
    apply record_then_settle. apply grant_settles.
    + by eapply purchase_positive.
    + by apply hasPayment_new.
  - destruct (purchase _ _) as [[userId creditsToBuy]|] eqn:Hp;
      [|apply triple_ret; intros w Hw; unfold onStore in *; rewrite Hw; apply settledFrom_refl].
    eapply triple_bind; [apply triple_getIsoTimestamp|]. intros now.
    eapply triple_bind.
    { apply (triple_await _ _ (fun _ db => db = db0) (settledFrom db0)).
      - intros db ->. apply settledFrom_refl.
      - intros db ->. simpl. done. }
    intros [existing|]; [apply triple_ret; intros w Hw; unfold onStore in *; rewrite Hw; apply settledFrom_refl|].
    eapply triple_bind; [apply triple_randomUUID|]. intros uuid.
    apply record_then_settle. apply grant_settles.
    + by eapply purchase_positive.
    + by apply hasPayment_new.
  - apply triple_ret. intros w Hw. unfold onStore in *. rewrite Hw. apply settledFrom_refl.
Qed.

Lemma handleUsdtPayment_settles env db0 payload :
  triple (onStore (fun db => db = db0)) (handleUsdtPayment env payload)
         (fun _ => onStore (settledFrom db0)) (onStore (settledFrom db0)).
Proof.
  unfold handleUsdtPayment. cbv zeta.
  eapply triple_bind; [apply triple_getIsoTimestamp|]. intros now.
  eapply triple_bind.
  { apply (triple_await _ _ (fun _ db => db = db0) (settledFrom db0)).
    - intros db ->. apply settledFrom_refl.
    - intros db ->. simpl. done. }
  intros [existing|].
  - apply triple_await; [intros db ->; apply settledFrom_refl|].
    intros db ->. simpl. split; [|by left]. simpl.
    intros r Hr. rewrite hasPayment_update; [done|].
    intros p. by destruct (String.eqb _ _).
  - eapply triple_bind; [apply triple_randomUUID|]. intros uuid.
    apply record_then_settle.
    destruct (isConfirmed (status payload) && _); simpl;
      [|apply triple_ret; intros w Hw; unfold onStore in *; rewrite Hw; apply settledFrom_refl].
    destruct (Z.gtb_spec (amountMinor payload / 100) 0);
      [|apply triple_ret; intros w Hw; unfold onStore in *; rewrite Hw; apply settledFrom_refl].
    apply grant_settles; [lia | by apply hasPayment_new].
Qed.

Lemma deliver_settles env db d : settledFrom db (deliver env db d).
Proof.
  unfold deliver.
  set (w := mkWorld db (failsAfter d) (receivedAt d) (uuids d) 0).
  assert (triple (onStore (fun x => x = db)) (handle env (delivered d))
                 (fun _ => onStore (settledFrom db)) (onStore (settledFrom db))) as H.
  { destruct (delivered d); [apply handleStripeEvent_settles | apply handleUsdtPayment_settles]. }
  specialize (H w eq_refl). by destruct (handle env (delivered d) w).
Qed.

Lemma deliverAll_payments_kept env ds :
  ∀ db r, hasPayment r (payments db) = true →
          hasPayment r (payments (deliverAll env ds db)) = true.
Proof.
  unfold deliverAll. induction ds as [|d ds IH]; intros db r Hr; [done|].
  simpl. apply IH. by apply (deliver_settles env db d).
Qed.

(** *** Balance and ledger move together when a grant returns *)

Lemma ledgerSum_app u l1 l2 :
  ledgerSum u (l1 ++ l2) = ledgerSum u l1 + ledgerSum u l2.
Proof.
  unfold ledgerSum. rewrite List.filter_app, map_app.
  induction (map led_deltaCredits (List.filter _ l1)) as [|x xs IH]; simpl; lia.
Qed.

Lemma grantCredits_drift v d userId delta reason referenceId metadataJson :
  triple (onStore (fun db => drift v db = d))
         (grantCredits userId delta reason referenceId metadataJson)
         (fun _ => onStore (fun db => drift v db = d))
         (fun _ => True).
Proof.
  unfold grantCredits.
  eapply triple_bind; [apply triple_getIsoTimestamp|]. intros now.
  eapply triple_bind.
  { apply (triple_await _ _
             (fun o db => o ≠ None →
                          drift v db = d + (if String.eqb userId v then delta else 0))
             (fun _ => True)); [done|].
    intros db Hd. unfold updateUserCredits.
    destruct (users db !! userId) as [u|] eqn:E; simpl; [|done].
    intros _. unfold drift, balanceOf in *. simpl.
    destruct (String.eqb_spec userId v) as [->|Hne].
    - rewrite lookup_insert_eq. rewrite E in Hd. simpl in *. lia.
    - rewrite lookup_insert_ne by done. lia. }
  intros [updatedUser|]; [|by apply triple_throw].
  eapply triple_bind.
  { apply (triple_randomUUID
             (fun db => Some updatedUser ≠ None →
                        drift v db = d + (if String.eqb userId v then delta else 0))). }
  intros uuid.
  eapply triple_bind.
  { apply (triple_await _ _ (fun _ db => drift v db = d) (fun _ => True)); [done|].
    intros db Hd. specialize (Hd ltac:(done)).
    match goal with |- context [insertLedger ?row db] =>
      pose proof (insertLedger_outcome row db) as H;
      destruct (insertLedger row db) as [[] db'|e db']
    end; subst; [|done].
    unfold drift in *. change (balanceOf v (withLedger _ db)) with (balanceOf v db).
    cbn [creditLedger withLedger]. rewrite ledgerSum_app.
    unfold ledgerSum at 2. cbn [List.filter led_userId map led_deltaCredits].
    destruct (String.eqb userId v); simpl; lia. }
  intros []. by apply triple_ret.
Qed.

Lemma drift_payments v db ps : drift v (withPayments ps db) = drift v db.
Proof. reflexivity. Qed.

Lemma settle_drift v d row userId delta reason referenceId metadataJson :
  triple (onStore (fun db => drift v db = d))
         (bind (await (insertPayment row))
               (fun _ => bind (grantCredits userId delta reason referenceId metadataJson)
                              (fun _ => ret tt)))
         (fun _ => onStore (fun db => drift v db = d))
         (fun _ => True).
Proof.
  apply (triple_bind _ _ _ (fun _ => onStore (fun db => drift v db = d))).
  - apply (triple_await _ _ (fun _ db => drift v db = d) (fun _ => True)); [done|].
    intros db Hd. pose proof (insertPayment_outcome row db) as H.
    destruct (insertPayment row db) as [[] db'|e db']; subst; done.
  - intros []. eapply triple_bind; [apply grantCredits_drift|].
    intros bal. by apply triple_ret.
Qed.

Lemma record_drift v d row :
  triple (onStore (fun db => drift v db = d))
         (bind (await (insertPayment row)) (fun _ => ret tt))
         (fun _ => onStore (fun db => drift v db = d))
         (fun _ => True).
Proof.
  apply (triple_bind _ _ _ (fun _ => onStore (fun db => drift v db = d))).
  - apply (triple_await _ _ (fun _ db => drift v db = d) (fun _ => True)); [done|].
    intros db Hd. pose proof (insertPayment_outcome row db) as H.
    destruct (insertPayment row db) as [[] db'|e db']; subst; done.
  - intros []. by apply triple_ret.
Qed.

Lemma handle_drift env v d e :
  triple (onStore (fun db => drift v db = d)) (handle env e)
         (fun _ => onStore (fun db => drift v db = d))
         (fun _ => True).
Proof.
  destruct e as [[session|paymentIntent|type]|payload]; simpl.
  - destruct (purchase _ _) as [[userId creditsToBuy]|]; [|by apply triple_ret].
    eapply triple_bind; [apply triple_getIsoTimestamp|]. intros now.
    eapply triple_bind.
    { apply (triple_await _ _ (fun _ db => drift v db = d) (fun _ => True)); [done|].
      intros db Hd. exact Hd. }
    intros [existing|]; [by apply triple_ret|].
    eapply triple_bind; [apply triple_randomUUID|]. intros uuid. apply settle_drift.
  - destruct (purchase _ _) as [[userId creditsToBuy]|]; [|by apply triple_ret].
    eapply triple_bind; [apply triple_getIsoTimestamp|]. intros now.
    eapply triple_bind.
    { apply (triple_await _ _ (fun _ db => drift v db = d) (fun _ => True)); [done|].
      intros db Hd. exact Hd. }
    intros [existing|]; [by apply triple_ret|].
    eapply triple_bind; [apply triple_randomUUID|]. intros uuid. apply settle_drift.
  - by apply triple_ret.
  - unfold handleUsdtPayment. cbv zeta.
    eapply triple_bind; [apply triple_getIsoTimestamp|]. intros now.
    eapply triple_bind.
    { apply (triple_await _ _ (fun _ db => drift v db = d) (fun _ => True)); [done|].
      intros db Hd. exact Hd. }
    intros [existing|].
    + apply (triple_await _ _ (fun _ db => drift v db = d) (fun _ => True)); [done|].
      intros db Hd. exact Hd.
    + eapply triple_bind; [apply triple_randomUUID|]. intros uuid.
      destruct (isConfirmed (status payload)
                && (confirmations payload >=? usdtConfirmationsRequired env));
        simpl; [|apply record_drift].
      destruct (amountMinor payload / 100 >? 0); [apply settle_drift | apply record_drift].
Qed.

(** *** A recorded Stripe payment makes its event a no-op *)

Lemma handleStripeEvent_recorded event w :
  match stripeCanonicalId event with
  | Some pid => hasPayment pid (payments (store w)) = true
  | None => True
  end →
  store (stateOf (handleStripeEvent event w)) = store w.
Proof.
  assert (∀ pid k, hasPayment pid (payments (store w)) = true →
            store (stateOf (bind (await (selectPayment pid)) (fun existingPayment =>
                       match existingPayment with
                       | Some _ => ret tt
                       | None => k
                       end) w)) = store w) as Hsel.
  { intros pid k Hpid. unfold bind, await.
    destruct (faultIn w) as [[|n]|]; [done| |]; cbn [selectPayment];
      (destruct (List.find _ _) eqn:E; [done|]);
      apply hasPayment_find in E; congruence. }
  destruct event as [session|paymentIntent|type]; simpl; [| |done].
  - destruct (purchase _ _) as [[userId creditsToBuy]|]; [|done].
    intros Hpid. unfold bind at 1. unfold getIsoTimestamp. by apply Hsel.
  - destruct (purchase _ _) as [[userId creditsToBuy]|]; [|done].
    intros Hpid. unfold bind at 1. unfold getIsoTimestamp. by apply Hsel.
Qed.

Lemma grantCredits_payments (P : list PaymentRow → Prop)
      userId delta reason referenceId metadataJson :
  triple (onStore (fun db => P (payments db)))
         (grantCredits userId delta reason referenceId metadataJson)
         (fun _ => onStore (fun db => P (payments db)))
         (onStore (fun db => P (payments db))).
Proof.
  unfold grantCredits.
  eapply triple_bind; [apply triple_getIsoTimestamp|]. intros now.
  eapply triple_bind.
  { apply (triple_await _ _ (fun _ db => P (payments db)) (fun db => P (payments db))); [done|].
    intros db Hdb. pose proof (updateUserCredits_outcome userId delta now db) as H.
    destruct (updateUserCredits userId delta now db) as [o db'|e db'].
    - destruct H as [-> _]. done.
    - by subst. }
  intros [updatedUser|]; [|by apply triple_throw].
  eapply triple_bind; [apply triple_randomUUID|]. intros uuid.
  eapply triple_bind.
  { apply (triple_await _ _ (fun _ db => P (payments db)) (fun db => P (payments db))); [done|].
    intros db Hdb.
    match goal with |- context [insertLedger ?row db] =>
      pose proof (insertLedger_outcome row db) as H;
      destruct (insertLedger row db) as [[] db'|e db']
    end; by subst. }
  intros []. by apply triple_ret.
Qed.

Lemma settle_records pid (settle : string → M (World Database) unit) :
  (∀ uuid, ∃ row u c reason meta,
      settle uuid = bind (await (insertPayment row))
                         (fun _ => bind (grantCredits u c reason (Some pid) meta)
                                        (fun _ => ret tt))
      ∧ pay_providerPaymentId row = pid) →
  triple (fun _ : World Database => True)
         (bind (await (selectPayment pid)) (fun existingPayment =>
            match existingPayment with
            | Some _ => ret tt
            | None => bind randomUUID settle
            end))
         (fun _ => onStore (fun db => hasPayment pid (payments db) = true))
         (fun _ => True).
Proof.
  intros Hsettle.
  eapply triple_bind.
  { eapply triple_pre with (P' := onStore (fun _ => True)); [|done].
    apply (triple_await _ (fun _ => True)
             (fun o db => o ≠ None → hasPayment pid (payments db) = true)
             (fun _ => True)); [done|].
    intros db _. simpl. intros Hfound.
    destruct (hasPayment pid (payments db)) eqn:E; [done|].
    apply hasPayment_find in E. congruence. }
  intros [existing|].
  - apply triple_ret. intros w Hw. by apply Hw.
  - apply (triple_bind _ _ _ (fun _ _ => True)).
    { eapply triple_weaken; [apply (triple_randomUUID (fun _ => True) (fun _ => True))| | |];
        done. }
    intros uuid. destruct (Hsettle uuid) as (row & u & c & reason & meta & -> & Hrow).
    apply (triple_bind _ _ _
             (fun _ => onStore (fun db => hasPayment pid (payments db) = true))).
    + eapply triple_pre with (P' := onStore (fun _ => True)); [|done].
      apply (triple_await _ _ (fun _ db => hasPayment pid (payments db) = true)
               (fun _ => True)); [done|].
      intros db _. pose proof (insertPayment_outcome row db) as H.
      destruct (insertPayment row db) as [[] db'|e db']; subst; [|done].
      by apply hasPayment_new.
    + intros []. eapply triple_bind.
      * eapply triple_weaken;
          [apply (grantCredits_payments (fun ps => hasPayment pid ps = true))| | |]; done.
      * intros bal. by apply triple_ret.
Qed.

Lemma handleStripeEvent_records event :
  triple (fun _ => True) (handleStripeEvent event)
         (fun _ => onStore (fun db =>
            match stripeCanonicalId event with
            | Some pid => hasPayment pid (payments db) = true
            | None => True
            end))
         (fun _ => True).
Proof.
  destruct event as [session|paymentIntent|type]; simpl.
  - destruct (purchase _ _) as [[userId creditsToBuy]|]; [|by apply triple_ret].
    eapply triple_bind; [apply (triple_getIsoTimestamp (fun _ => True))|]. intros now.
    apply settle_records. intros uuid. eexists _, _, _, _, _. by split.
  - destruct (purchase _ _) as [[userId creditsToBuy]|]; [|by apply triple_ret].
    eapply triple_bind; [apply (triple_getIsoTimestamp (fun _ => True))|]. intros now.
    apply settle_records. intros uuid. eexists _, _, _, _, _. by split.
  - by apply triple_ret.
Qed.

End PaymentInvariantFacts.

Module PaymentInvariantTheorems.
Import Fx FxRules PaymentStore PaymentStoreFacts PaymentInvariants PaymentInvariantFacts.
Local Open Scope Z_scope.

(** X6.  The payment handlers only ever append to the credit ledger.
    After any deliveries, each returning or throwing at any point, the
    ledger is the ledger before followed by at most one new entry per
    delivery; every new entry credits a positive amount and refers to a
    payment that is recorded. *)
Theorem ledger_append_only (env : Env) (ds : list Delivery) (db : Database) :
  ∃ added,
    creditLedger (deliverAll env ds db) = creditLedger db ++ added
    ∧ (length added <= length ds)%nat
    ∧ Forall (fun e =>
                0 < led_deltaCredits e
                ∧ ∃ r, led_referenceId e = Some r
                       ∧ hasPayment r (payments (deliverAll env ds db)) = true)
             added.
Proof.
  revert db. induction ds as [|d ds IH]; intros db.
  - exists []. simpl. rewrite app_nil_r. split; [done|]. split; [lia | constructor].
  - destruct (IH (deliver env db d)) as (added & Hl & Hlen & Hall).
    change (deliverAll env (d :: ds) db) with (deliverAll env ds (deliver env db d)).
    destruct (deliver_settles env db d) as [_ [Hsame|(e & r & He & Hpos & Href & Hpay)]].
    + exists added. rewrite Hl, Hsame. split; [done|]. split; [simpl; lia | done].
    + exists (e :: added). rewrite Hl, He, <- List.app_assoc. split; [done|].
      split; [simpl; lia|]. constructor; [|done].
      split; [done|]. exists r. split; [done|]. by apply deliverAll_payments_kept.
Qed.

(** X7.  When a grant or a webhook handler returns, balance and ledger
    have moved together: for every user the balance has changed by exactly
    the sum of the ledger deltas appended for that user. *)
Theorem returned_keeps_ledger_in_step (env : Env) (e : Event) (w : World Database)
        (v : string) (userId : string) (delta : Z) (reason : string)
        (referenceId : option string) (metadataJson : option Json) :
  (returned (handle env e w) = true →
   drift v (store (stateOf (handle env e w))) = drift v (store w))
  ∧ (returned (grantCredits userId delta reason referenceId metadataJson w) = true →
     drift v (store (stateOf (grantCredits userId delta reason referenceId metadataJson w)))
     = drift v (store w)).
Proof.
  split; intros Hret.
  - pose proof (handle_drift env v (drift v (store w)) e w eq_refl) as H.
    by destruct (handle env e w).
  - pose proof (grantCredits_drift v (drift v (store w)) userId delta reason referenceId
                  metadataJson w eq_refl) as H.
    by destruct (grantCredits _ _ _ _ _ w).
Qed.

(** X8.  A Stripe event is settled once.  An event that does not pass
    the guard (no user id, credits not finite or not positive, another
    event type) writes nothing; an event whose canonical payment id is
    recorded writes nothing; and once [handleStripeEvent] has returned for
    an event, handling the same event again, whatever the circumstances,
    leaves the store as it is. *)
Theorem stripe_event_settled_once (event : StripeEvent) (w w2 : World Database) :
  (match stripeCanonicalId event with
   | Some pid => hasPayment pid (payments (store w)) = true
   | None => True
   end →
   store (stateOf (handleStripeEvent event w)) = store w)
  ∧ (returned (handleStripeEvent event w) = true →
     store w2 = store (stateOf (handleStripeEvent event w)) →
     store (stateOf (handleStripeEvent event w2)) = store w2).
Proof.
  split; [apply handleStripeEvent_recorded|].
  intros Hret Hw2. apply handleStripeEvent_recorded. rewrite Hw2.
  pose proof (handleStripeEvent_records event w Logic.I) as H.
  by destruct (handleStripeEvent event w).
Qed.

(** *** On concrete inputs *)

Import PaymentFixtures.

Lemma returned_keeps_ledger_in_step_witness :
  let w := calm dbAlice "2026-03-01T10:00:00.000Z" uuidsA in
  let e := usdt_webhook (webhook hook_confirmed 3 2500) in
  drift aliceId (store (stateOf (handle env2 e w))) = 300
  ∧ balanceOf aliceId (store (stateOf (handle env2 e w))) = 325.
Proof.
  intros w e.
  destruct (returned_keeps_ledger_in_step env2 e w aliceId aliceId 25
              "payment_usdt_confirmed" None None) as [H _].
  split; [rewrite H; reflexivity | reflexivity].
Defined.

Lemma stripe_event_settled_once_witness :
  let w := calm dbAlice "2026-03-01T10:01:00.000Z" uuidsA in
  let w2 := mkWorld (store (stateOf (handleStripeEvent checkout w))) (Some 2%nat)
                    "2026-03-01T10:01:05.000Z" uuidsB 0 in
  store (stateOf (handleStripeEvent checkout w2)) = store w2
  ∧ length (creditLedger (store w2)) = 1%nat.
Proof.
  intros w w2.
  destruct (stripe_event_settled_once checkout w w2) as [_ H].
  split; [apply H; reflexivity | reflexivity].
Defined.

End PaymentInvariantTheorems.

(** ** Video tasks *)

Module VideoTaskFacts.
Import Fx FxRules VideoTasks.
Local Open Scope Z_scope.

Lemma Math_round_integer z : Math_round (inject_Z z) = z.
Proof.
  unfold Math_round, inject_Z, Qplus, Qfloor. simpl.
  rewrite Z.mul_1_r. change (Z.pos (1 * 2)) with 2.
  symmetry. apply (Z.div_unique _ _ _ 1); lia.
Qed.

Lemma clamp_cases q :
  (clampDurationSeconds q = 4 ∧ (q < inject_Z 4)%Q)
  ∨ (clampDurationSeconds q = 12 ∧ (inject_Z 12 < q)%Q)
  ∨ (clampDurationSeconds q = Math_round q ∧ (inject_Z 4 <= q)%Q ∧ (q <= inject_Z 12)%Q).
Proof.
  unfold clampDurationSeconds, MINIMUM_VIDEO_DURATION_SECONDS, MAXIMUM_VIDEO_DURATION_SECONDS.
  destruct (Qle_bool (inject_Z 4) q) eqn:E1; simpl.
  - destruct (Qle_bool q (inject_Z 12)) eqn:E2; simpl.
    + right. right. apply Qle_bool_iff in E1, E2. done.
    + right. left. split; [done|]. apply Qnot_le_lt. intros H.
      apply Qle_bool_iff in H. congruence.
  - left. split; [done|]. apply Qnot_le_lt. intros H.
    apply Qle_bool_iff in H. congruence.
Qed.

Lemma Math_round_mono a b : (a <= b)%Q → Math_round a <= Math_round b.
Proof.
  intros H. unfold Math_round. apply Qfloor_resp_le.
  apply Qplus_le_compat; [done | apply Qle_refl].
Qed.

Lemma clamp_bounds q : 4 <= clampDurationSeconds q <= 12.
Proof.
  destruct (clamp_cases q) as [[-> _]|[[-> _]|(-> & H1 & H2)]]; [lia | lia |].
  split.
  - rewrite <- (Math_round_integer 4). by apply Math_round_mono.
  - rewrite <- (Math_round_integer 12). by apply Math_round_mono.
Qed.

Lemma clamp_integer z : 4 <= z <= 12 → clampDurationSeconds (inject_Z z) = z.
Proof.
  intros Hz.
  destruct (clamp_cases (inject_Z z)) as [[_ H]|[[_ H]|(-> & _)]].
  - exfalso. apply Qlt_not_le in H. apply H. rewrite <- Zle_Qle. lia.
  - exfalso. apply Qlt_not_le in H. apply H. rewrite <- Zle_Qle. lia.
  - apply Math_round_integer.
Qed.

Lemma clamp_mono a b : (a <= b)%Q → clampDurationSeconds a <= clampDurationSeconds b.
Proof.
  intros Hab. pose proof (clamp_bounds a). pose proof (clamp_bounds b).
  destruct (clamp_cases a) as [[Ea Ha]|[[Ea Ha]|(Ea & Ha1 & Ha2)]];
    destruct (clamp_cases b) as [[Eb Hb]|[[Eb Hb]|(Eb & Hb1 & Hb2)]];
    try lia.
  - exfalso. apply (Qlt_not_le _ _ Hb). eapply Qle_trans; [|exact Hab].
    apply Qlt_le_weak. eapply Qlt_trans; [|exact Ha]. reflexivity.
  - exfalso. apply (Qlt_not_le _ _ Ha). by eapply Qle_trans.
  - exfalso. apply (Qlt_not_le _ _ Hb). by eapply Qle_trans.
  - rewrite Ea, Eb. by apply Math_round_mono.
Qed.

(** *** The transaction *)

Lemma triple_transaction {D A} (body : M (World D) A) (d0 : D) (Q : A → D → Prop) :
  triple (onStore (fun d => d = d0)) body (fun a => onStore (Q a)) (fun _ => True) →
  triple (onStore (fun d => d = d0)) (transaction body)
         (fun a => onStore (Q a)) (onStore (fun d => d = d0)).
Proof.
  intros Hbody w Hw. unfold onStore in Hw. unfold transaction, await.
  destruct (faultIn w) as [[|n]|] eqn:Hf; [exact Hw| |].
  - specialize (Hbody (tick (store w) w) Hw).
    destruct (body (tick (store w) w)) as [a w1|e w1]; [|exact Hw].
    destruct (faultIn w1) as [[|m]|]; [exact Hw | exact Hbody | exact Hbody].
  - specialize (Hbody (tick (store w) w) Hw).
    destruct (body (tick (store w) w)) as [a w1|e w1]; [|exact Hw].
    destruct (faultIn w1) as [[|m]|]; [exact Hw | exact Hbody | exact Hbody].
Qed.

Lemma existsb_task_id_notin i l :
  existsb (fun r => String.eqb (task_id r) i) l = false → ¬ In i (map task_id l).
Proof.
  induction l as [|a l IH]; [by intros _ []|]. simpl. intros H.
  apply orb_false_iff in H as [Ha Hl]. apply String.eqb_neq in Ha.
  intros [Heq|Hin]; [done|]. by apply IH.
Qed.

Lemma find_fresh_last u (t : VideoTaskRow) l :
  ¬ In (task_id t) (map task_id l) → task_userId t = u →
  List.find (fun r => String.eqb (task_userId r) u && String.eqb (task_id r) (task_id t))
            (l ++ [t]) = Some t.
Proof.
  intros Hfresh Hu. induction l as [|a l IH]; simpl.
  - by rewrite Hu, !String.eqb_refl.
  - destruct (String.eqb_spec (task_id a) (task_id t)) as [Heq|Hne].
    + exfalso. apply Hfresh. by left.
    + rewrite andb_false_r. apply IH. intros Hin. apply Hfresh. by right.
Qed.

Lemma create_outcome env userId requestBody (s0 : Server) :
  triple (onStore (fun s => s = s0)) (create env userId requestBody)
         (fun r => onStore (fun s => createdTask env userId requestBody s0 s r.1
                                     ∧ timerSetFor s0 s r.1
                                     ∧ r.2 = balanceOf userId s))
         (onStore (fun s => (tablesOf s = tablesOf s0 ∧ enqueued s = enqueued s0)
                            ∨ ∃ t, createdTask env userId requestBody s0 s t
                                   ∧ timerSetFor s0 s t)).
Proof.
  unfold create.
  eapply triple_bind; [apply triple_getIsoTimestamp|]. intros now. cbv zeta.
  eapply triple_bind; [apply triple_randomUUID|]. intros uuid.
  assert (calculateVideoTaskCredits env
            (inject_Z (clampDurationSeconds (durationSeconds requestBody)))
          = creditsPerTask env + clampDurationSeconds (durationSeconds requestBody)) as Hcost.
  { unfold calculateVideoTaskCredits. by rewrite clamp_integer by apply clamp_bounds. }
  rewrite Hcost.
  set (cost := creditsPerTask env + clampDurationSeconds (durationSeconds requestBody)).
  set (taskId := "task_" +:+ JsString.idFragment 20 uuid).
  set (committed := fun (queue : list string) (remaining : Z) (s : Server) =>
         ∃ t, createdTask env userId requestBody s0 s t ∧ task_id t = taskId
              ∧ enqueued s = enqueued s0 ++ queue ∧ remaining = balanceOf userId s).
  apply (triple_bind _ _ _ (fun remaining => onStore (committed [] remaining))).
  { eapply triple_weaken; [apply (triple_transaction _ s0
      (fun remaining => committed [] remaining))| | |].
    - eapply triple_bind.
      { apply (triple_await _ _ (fun o s => s = s0 ∧ o = users s0 !! userId) (fun _ => True));
          [done|]. intros s ->. simpl. done. }
      intros databaseUser.
      apply (triple_assume _ (databaseUser = users s0 !! userId) (onStore (fun s => s = s0))).
      intros Hu. destruct databaseUser as [u|]; [|by apply triple_throw].
      destruct (Z.ltb_spec (PaymentStore.user_apiCredits u) cost) as [Hlt|Hge];
        [by apply triple_throw|].
      eapply triple_bind.
      { apply (triple_await _ _
                 (fun _ s => s = mkServer
                      (<[userId := PaymentStore.mkUser
                            (PaymentStore.user_name u) (PaymentStore.user_email u)
                            (PaymentStore.user_passwordHash u)
                            (PaymentStore.user_apiCredits u - cost)
                            (PaymentStore.user_createdAt u) now]> (users s0))
                      (videoTasks s0) (creditLedger s0) (enqueued s0))
                 (fun _ => True)); [done|].
        intros s ->. unfold updateUserBalance. by rewrite <- Hu. }
      intros [].
      eapply triple_bind.
      { apply (triple_await _ _
                 (fun _ s => ∃ t, task_userId t = userId ∧ task_status t = queued
                    ∧ task_creditsCost t = cost
                    ∧ task_durationSeconds t = clampDurationSeconds (durationSeconds requestBody)
                    ∧ task_id t = taskId
                    ∧ ¬ In (task_id t) (map task_id (videoTasks s0))
                    ∧ s = mkServer
                      (<[userId := PaymentStore.mkUser
                            (PaymentStore.user_name u) (PaymentStore.user_email u)
                            (PaymentStore.user_passwordHash u)
                            (PaymentStore.user_apiCredits u - cost)
                            (PaymentStore.user_createdAt u) now]> (users s0))
                      (videoTasks s0 ++ [t]) (creditLedger s0) (enqueued s0))
                 (fun _ => True)); [done|].
        intros s ->. unfold insertTask. cbn [videoTasks].
        set (row := mkTask _ _ _ _ _ _ _ _ _ _ _ _ _ _ _).
        destruct (existsb (fun r => String.eqb (task_id r) (task_id row)) (videoTasks s0))
          eqn:Hex; [done|].
        exists row. repeat split; try done. by apply existsb_task_id_notin. }
      intros [].
      eapply triple_bind; [apply triple_randomUUID|]. intros ledgerUuid.
      eapply triple_bind.
      { apply (triple_await _ _ (fun _ => committed [] (PaymentStore.user_apiCredits u - cost))
                 (fun _ => True)); [done|].
        intros s (t & Ht1 & Ht2 & Ht3 & Ht4 & Ht5 & Ht6 & ->). unfold insertLedger.
        cbn [creditLedger]. destruct (existsb _ _); [done|].
        exists t. split; [|split; [done|split; [by rewrite app_nil_r|]]].
        * exists u. eexists. unfold balanceOf. cbn [users videoTasks creditLedger].
          rewrite lookup_insert_eq. cbn. fold cost.
          repeat split; try done.
          -- intros v Hv. by rewrite lookup_insert_ne.
          -- by rewrite Ht5.
        * unfold balanceOf. cbn [users]. by rewrite lookup_insert_eq. }
      intros []. by apply triple_ret.
    - done.
    - intros a w Hw. exact Hw.
    - intros w Hw. left. unfold onStore in *. by rewrite Hw. }
  intros remainingCredits.
  apply (triple_bind _ _ _ (fun _ => onStore (committed [taskId] remainingCredits))).
  { apply (triple_modifyStore _ (committed [] remainingCredits)
             (committed [taskId] remainingCredits)).
    intros s (t & Hc & Hid & Hq & Hr). exists t. cbn [enqueued].
    split; [exact Hc|]. split; [done|]. split; [|exact Hr].
    rewrite app_nil_r in Hq. by rewrite Hq. }
  intros [].
  assert (∀ s, committed [taskId] remainingCredits s →
               ∃ t, createdTask env userId requestBody s0 s t ∧ timerSetFor s0 s t) as Hright.
  { intros s (t & Hc & Hid & Hq & Hr). exists t. split; [done|].
    unfold timerSetFor. by rewrite Hid. }
  apply (triple_bind _ _ _
           (fun o => onStore (fun s => committed [taskId] remainingCredits s
                                       ∧ o = List.find
                                               (fun r => String.eqb (task_userId r) userId
                                                         && String.eqb (task_id r) taskId)
                                               (videoTasks s)))).
  { unfold getById.
    apply (triple_bind _ _ _
           (fun o => onStore (fun s => committed [taskId] remainingCredits s
                                       ∧ o = List.find
                                               (fun r => String.eqb (task_userId r) userId
                                                         && String.eqb (task_id r) taskId)
                                               (videoTasks s)))).
    { apply (triple_await _ _ (fun o s => committed [taskId] remainingCredits s
                                       ∧ o = List.find
                                               (fun r => String.eqb (task_userId r) userId
                                                         && String.eqb (task_id r) taskId)
                                               (videoTasks s))
               (fun s => (tablesOf s = tablesOf s0 ∧ enqueued s = enqueued s0)
                         ∨ ∃ t, createdTask env userId requestBody s0 s t
                                ∧ timerSetFor s0 s t)).
      - intros s Hs. right. by apply Hright.
      - intros s Hs. simpl. done. }
    intros [t|]; apply triple_ret; intros w Hw; exact Hw. }
  intros createdTask'. intros w [Hc Hfind].
  destruct Hc as (t & Hc & Hid & Hq & Hr).
  assert (createdTask' = Some t) as ->.
  { rewrite Hfind. pose proof Hc as (u & e & _ & _ & _ & _ & Htasks & Hfresh & Huser & _).
    rewrite Htasks, <- Hid. by apply find_fresh_last. }
  simpl. unfold onStore. split; [done|]. split; [|done].
  unfold timerSetFor. by rewrite Hid.
Qed.

Lemma ledgerSum_snoc u l e :
  ledgerSum u (l ++ [e])
  = ledgerSum u l + (if String.eqb (led_userId e) u then led_deltaCredits e else 0).
Proof.
  unfold ledgerSum. rewrite List.filter_app, map_app. simpl.
  destruct (String.eqb (led_userId e) u); simpl;
    induction (map led_deltaCredits (List.filter _ l)) as [|x xs IH]; simpl; lia.
Qed.

Lemma create_cases env userId requestBody w :
  let s := store (stateOf (create env userId requestBody w)) in
  (returned (create env userId requestBody w) = true →
   created env userId requestBody (store w) s)
  ∧ (tablesOf s = tablesOf (store w) ∨ created env userId requestBody (store w) s).
Proof.
  pose proof (create_outcome env userId requestBody (store w) w eq_refl) as H.
  destruct (create env userId requestBody w) as [a w'|e w']; simpl.
  - destruct H as (Hc & _). split; [intros _|right]; by exists a.1.
  - split; [done|]. destruct H as [[H _]|(t & Hc & _)]; [by left|right; by exists t].
Qed.

End VideoTaskFacts.

Module VideoTaskTheorems.
Import Fx FxRules VideoTasks VideoTaskFacts.
Local Open Scope Z_scope.

(** X9.  [clampDurationSeconds] always lands in [4 .. 12]: it is the
    identity on the integers of that range (so clamping twice is clamping
    once), it is monotone, and the cost of a task is therefore between
    [creditsPerTask + 4] and [creditsPerTask + 12]. *)
Theorem duration_clamped (env : Env) (a b : Q) (z : Z) :
  4 <= clampDurationSeconds a <= 12
  ∧ (4 <= z <= 12 → clampDurationSeconds (inject_Z z) = z)
  ∧ clampDurationSeconds (inject_Z (clampDurationSeconds a)) = clampDurationSeconds a
  ∧ ((a <= b)%Q → clampDurationSeconds a <= clampDurationSeconds b)
  ∧ creditsPerTask env + 4 <= calculateVideoTaskCredits env a <= creditsPerTask env + 12.
Proof.
  pose proof (clamp_bounds a) as Ha.
  split; [exact Ha|]. split; [apply clamp_integer|]. split; [by apply clamp_integer|].
  split; [apply clamp_mono|]. unfold calculateVideoTaskCredits. lia.
Qed.

(** X10.  Task creation is all or nothing.  Whatever fails, the tables
    are either exactly as before, or the whole creation is in: the balance
    is down by the cost, which it covered, one queued task of that cost
    is added under a fresh id and one ledger entry debits the cost and
    shows the new balance.  When [create] returns, the creation is in. *)
Theorem create_all_or_nothing (env : Env) (userId : string)
        (requestBody : VideoTaskCreateRequest) (w : World Server) :
  let s := store (stateOf (create env userId requestBody w)) in
  (tablesOf s = tablesOf (store w) ∨ created env userId requestBody (store w) s)
  ∧ (returned (create env userId requestBody w) = true →
     created env userId requestBody (store w) s).
Proof.
  intros s. destruct (create_cases env userId requestBody w) as [H1 H2]. by split.
Qed.

(** X11.  Task creation never overdraws and never lets balance and
    ledger drift apart.  For an unknown user, or a balance below the cost,
    [create] throws and the tables are untouched.  In every outcome a
    balance that was not negative is not negative afterwards, and for
    every user the balance has changed by exactly the sum of the ledger
    deltas added for that user. *)
Theorem create_never_overdraws (env : Env) (userId : string)
        (requestBody : VideoTaskCreateRequest) (w : World Server) (v : string) :
  let s := store (stateOf (create env userId requestBody w)) in
  let cost := creditsPerTask env + clampDurationSeconds (durationSeconds requestBody) in
  ((users (store w) !! userId = None
    ∨ ∃ u, users (store w) !! userId = Some u ∧ PaymentStore.user_apiCredits u < cost) →
   returned (create env userId requestBody w) = false
   ∧ tablesOf s = tablesOf (store w))
  ∧ (0 <= balanceOf v (store w) → 0 <= balanceOf v s)
  ∧ balanceOf v s - ledgerSum v (creditLedger s)
    = balanceOf v (store w) - ledgerSum v (creditLedger (store w)).
Proof.
  intros s cost. destruct (create_cases env userId requestBody w) as [Hret Hcases].
  fold s in Hret, Hcases.
  assert (created env userId requestBody (store w) s →
          ∃ u, users (store w) !! userId = Some u ∧ cost <= PaymentStore.user_apiCredits u)
    as Hcovered.
  { intros (t & u & e & Hu & Hc & _). by exists u. }
  assert (∀ x, tablesOf s = tablesOf (store w) →
               balanceOf x s = balanceOf x (store w)
               ∧ creditLedger s = creditLedger (store w)) as Hsame.
  { intros x Ht. unfold tablesOf in Ht. injection Ht as Hu Ht Hl.
    unfold balanceOf. by rewrite Hu, Hl. }
  split; [|split].
  - intros Hrefuse.
    assert (¬ created env userId requestBody (store w) s) as Hnot.
    { intros Hc. destruct (Hcovered Hc) as (u & Hu & Hge).
      destruct Hrefuse as [Hnone|(u' & Hu' & Hlt)]; [congruence|].
      rewrite Hu in Hu'. injection Hu' as <-. lia. }
    split.
    + destruct (returned (create env userId requestBody w)); [|done].
      exfalso. by apply Hnot, Hret.
    + by destruct Hcases.
  - intros Hpos. destruct Hcases as [Ht|Hc].
    + by rewrite (proj1 (Hsame v Ht)).
    + destruct Hc as (t & u & e & Hu & Hge & Hbal & Hother & _).
      destruct (decide (v = userId)) as [->|Hne]; [rewrite Hbal; lia|].
      unfold balanceOf in *. by rewrite Hother.
  - destruct Hcases as [Ht|Hc].
    + destruct (Hsame v Ht) as [-> ->]. done.
    + destruct Hc as (t & u & e & Hu & Hge & Hbal & Hother & _ & _ & _ & _ & _ & _ & Hl
                      & He1 & He2 & _).
      rewrite Hl, ledgerSum_snoc, He1, He2.
      destruct (String.eqb_spec userId v) as [<-|Hne].
      * rewrite Hbal. unfold balanceOf. rewrite Hu. simpl. fold cost. lia.
      * unfold balanceOf. rewrite Hother by done. lia.
Qed.

(** *** On concrete inputs *)

Import PaymentFixtures ServerFixtures.

Lemma duration_clamped_witness :
  clampDurationSeconds (7 # 2) = 4
  ∧ clampDurationSeconds (15 # 2) = 8
  ∧ clampDurationSeconds (7 # 2) <= clampDurationSeconds (15 # 2)
  ∧ calculateVideoTaskCredits taskEnv (15 # 2) = 18.
Proof.
  destruct (duration_clamped taskEnv (7 # 2) (15 # 2) 8) as (_ & _ & _ & Hmono & _).
  split; [reflexivity|]. split; [reflexivity|]. split; [|reflexivity].
  apply Hmono. unfold Qle. simpl. lia.
Defined.

Lemma create_all_or_nothing_witness :
  let w := calm serverAlice "2026-03-01T10:00:00.000Z" uuidsC in
  created taskEnv aliceId clipRequest serverAlice
          (store (stateOf (create taskEnv aliceId clipRequest w)))
  ∧ balanceOf aliceId (store (stateOf (create taskEnv aliceId clipRequest w))) = 282.
Proof.
  intros w.
  destruct (create_all_or_nothing taskEnv aliceId clipRequest w) as [_ H].
  split; [apply H; reflexivity | reflexivity].
Defined.

Lemma create_never_overdraws_witness :
  let w := calm serverAlice "2026-03-01T10:00:00.000Z" uuidsC in
  returned (create taskEnv ServerFixtures.bobId clipRequest w) = false
  ∧ tablesOf (store (stateOf (create taskEnv ServerFixtures.bobId clipRequest w)))
    = tablesOf serverAlice.
Proof.
  intros w.
  destruct (create_never_overdraws taskEnv ServerFixtures.bobId clipRequest w aliceId)
    as [H _].
  apply H. left. reflexivity.
Defined.

End VideoTaskTheorems.

(** ** Task progression *)

Module TaskProgressionFacts.
Import Fx FxRules VideoTasks VideoTaskFacts TaskProgression.
Local Open Scope Z_scope.

Lemma sameJob_refl r : sameJob r r.
Proof. by repeat split. Qed.

Lemma progressed_refl taskId s : progressed taskId s s.
Proof.
  repeat split. induction (videoTasks s) as [|a l IH]; constructor; [|done].
  split; [apply sameJob_refl|done].
Qed.

Lemma updateTaskById_progressed taskId set s :
  (∀ r, sameJob r (set r)) →
  progressed taskId s (stateOf (updateTaskById taskId set s)).
Proof.
  intros Hset. unfold updateTaskById. cbn [stateOf]. repeat split.
  cbn [videoTasks]. induction (videoTasks s) as [|a l IH]; constructor; [|done].
  destruct (String.eqb_spec (task_id a) taskId) as [He|Hne].
  - split; [apply Hset|done].
  - split; [apply sameJob_refl|done].
Qed.

Lemma timer_outcome taskId set (w : World Server) :
  (let* ts := getIsoTimestamp in await (updateTaskById taskId (set ts)))%fx w
  = match faultIn w with
    | Some O => Threw "operation failed" w
    | _ => Returned tt
             (tick (mkServer (users (store w))
                      (map (fun r => if String.eqb (task_id r) taskId
                                     then set (clock w) r else r)
                           (videoTasks (store w)))
                      (creditLedger (store w)) (enqueued (store w))) w)
    end.
Proof.
  unfold bind, getIsoTimestamp, await, updateTaskById.
  by destruct (faultIn w) as [[|n]|].
Qed.

Lemma getTaskDemoVideoUrl_reference taskId :
  In (getTaskDemoVideoUrl taskId) (map ref_videoUrl referenceVideos).
Proof.
  unfold getTaskDemoVideoUrl. destruct taskId as [|c rest]; [by left|].
  cbv zeta.
  set (i := Z.abs _ mod _).
  assert (0 <= i < 3) as Hi by (apply Z.mod_pos_bound; reflexivity).
  assert (Z.to_nat i = 0 ∨ Z.to_nat i = 1 ∨ Z.to_nat i = 2)%nat as [-> | [-> | ->]] by lia.
  - by left.
  - right. by left.
  - right. right. by left.
Qed.

Lemma notin_existsb_task_id i l :
  ¬ In i (map task_id l) → existsb (fun r => String.eqb (task_id r) i) l = false.
Proof.
  induction l as [|a l IH]; [done|]. simpl. intros H. apply orb_false_iff. split.
  - apply String.eqb_neq. intros Heq. apply H. by left.
  - apply IH. intros Hin. apply H. by right.
Qed.

Lemma notin_existsb_led_id i l :
  ¬ In i (map led_id l) → existsb (fun r => String.eqb (led_id r) i) l = false.
Proof.
  induction l as [|a l IH]; [done|]. simpl. intros H. apply orb_false_iff. split.
  - apply String.eqb_neq. intros Heq. apply H. by left.
  - apply IH. intros Hin. apply H. by right.
Qed.

Lemma create_calm env userId requestBody (w : World Server) u :
  faultIn w = None →
  users (store w) !! userId = Some u →
  creditsPerTask env + clampDurationSeconds (durationSeconds requestBody)
    <= PaymentStore.user_apiCredits u →
  ¬ In ("task_" +:+ JsString.idFragment 20 (entropy w (drawn w)))
       (map task_id (videoTasks (store w))) →
  ¬ In ("cred_" +:+ JsString.idFragment 20 (entropy w (S (drawn w))))
       (map led_id (creditLedger (store w))) →
  returned (create env userId requestBody w) = true.
Proof.
  intros Hf Hu Hcost Htask Hled.
  destruct w as [s0 f now ids n].
  cbn [faultIn store entropy drawn] in Hf, Hu, Htask, Hled. subst f.
  assert (calculateVideoTaskCredits env
            (inject_Z (clampDurationSeconds (durationSeconds requestBody)))
          = creditsPerTask env + clampDurationSeconds (durationSeconds requestBody)) as Hc.
  { unfold calculateVideoTaskCredits. by rewrite clamp_integer by apply clamp_bounds. }
  unfold create. cbv zeta. rewrite Hc.
  set (cost := creditsPerTask env + clampDurationSeconds (durationSeconds requestBody)) in *.
  unfold bind at 1. unfold getIsoTimestamp at 1. cbn [clock].
  unfold bind at 1. unfold randomUUID at 1. cbn [store faultIn clock entropy drawn].
  unfold bind at 1. unfold transaction.
  unfold await at 1. cbn [faultIn store tick clock entropy drawn fmap option_fmap option_map].
  unfold bind at 1. unfold await at 1.
  cbn [faultIn store tick clock entropy drawn fmap option_fmap option_map selectUser].
  rewrite Hu. apply Z.ltb_ge in Hcost. rewrite Hcost.
  unfold bind at 1. unfold await at 1.
  cbn [faultIn store tick clock entropy drawn fmap option_fmap option_map
       updateUserBalance users videoTasks creditLedger enqueued].
  rewrite Hu.
  unfold bind at 1. unfold await at 1.
  cbn [faultIn store tick clock entropy drawn fmap option_fmap option_map].
  unfold insertTask at 1. cbn [videoTasks task_id users creditLedger enqueued].
  rewrite (notin_existsb_task_id _ _ Htask).
  unfold bind at 1. unfold randomUUID at 1.
  cbn [faultIn store tick clock entropy drawn fmap option_fmap option_map].
  unfold bind at 1. unfold await at 1.
  cbn [faultIn store tick clock entropy drawn fmap option_fmap option_map].
  unfold insertLedger at 1. cbn [videoTasks led_id users creditLedger enqueued].
  rewrite (notin_existsb_led_id _ _ Hled).
  unfold ret at 1.
  unfold await at 1. cbn [faultIn store tick clock entropy drawn fmap option_fmap option_map].
  unfold bind at 1. unfold enqueueTaskProgression, modifyStore.
  cbn [faultIn store setStore tick clock entropy drawn users videoTasks creditLedger enqueued].
  unfold bind at 1. unfold getById. unfold bind at 1. unfold await at 1.
  cbn [faultIn store setStore tick clock entropy drawn fmap option_fmap option_map].
  unfold selectTask. cbn [users videoTasks creditLedger enqueued].
  set (t := mkTask _ _ _ _ _ _ _ _ _ _ _ _ _ _ _).
  pose proof (find_fresh_last userId t (videoTasks s0) Htask eq_refl) as Hfind.
  change (task_id t) with ("task_" +:+ JsString.idFragment 20 (ids n)) in Hfind.
  rewrite Hfind. done.
Qed.

End TaskProgressionFacts.

Module TaskProgressionTheorems.
Import Fx FxRules VideoTasks VideoTaskFacts TaskProgression TaskProgressionFacts.
Local Open Scope Z_scope.

(** X18.  A timer is set exactly for a committed task, and [create]
    answers with that task.  In every outcome of [create] either the
    tables and the timers are as before, or the creation is in and one
    timer has been added, for the id of the task created.  When [create]
    returns, the task it returns is the row added (the last of the
    table) and the remaining credits are the user's new balance.  And
    [create] does return when no store operation fails, the user exists
    with a balance that covers the cost, and the two ids drawn are not
    taken. *)
Theorem timer_set_after_commit (env : Env) (userId : string)
        (requestBody : VideoTaskCreateRequest) (w : World Server) :
  let result := create env userId requestBody w in
  let s0 := store w in
  let s := store (stateOf result) in
  let cost := creditsPerTask env + clampDurationSeconds (durationSeconds requestBody) in
  ((tablesOf s = tablesOf s0 ∧ enqueued s = enqueued s0)
   ∨ ∃ t, createdTask env userId requestBody s0 s t
          ∧ enqueued s = enqueued s0 ++ [task_id t])
  ∧ (∀ t remaining w', result = Returned (t, remaining) w' →
       createdTask env userId requestBody s0 s t
       ∧ last (videoTasks s) = Some t
       ∧ remaining = balanceOf userId s
       ∧ enqueued s = enqueued s0 ++ [task_id t])
  ∧ (faultIn w = None →
     (∃ u, users s0 !! userId = Some u ∧ cost <= PaymentStore.user_apiCredits u) →
     ¬ In ("task_" +:+ JsString.idFragment 20 (entropy w (drawn w)))
          (map task_id (videoTasks s0)) →
     ¬ In ("cred_" +:+ JsString.idFragment 20 (entropy w (S (drawn w))))
          (map led_id (creditLedger s0)) →
     returned result = true).
Proof.
  intros result s0 s cost.
  pose proof (create_outcome env userId requestBody s0 w eq_refl) as H.
  fold result in H. subst s.
  split; [|split].
  - destruct result as [[t remaining] w1|e w1]; cbn [stateOf]; unfold onStore in H.
    + destruct H as (Hc & Hq & Hr). right. by exists t.
    + destruct H as [H|(t & Hc & Hq)]; [by left|right; by exists t].
  - intros t remaining w' Hres. rewrite Hres in H |- *. cbn [stateOf].
    unfold onStore in H. destruct H as (Hc & Hq & Hr). cbn [fst snd] in *.
    split; [done|]. split; [|done].
    destruct Hc as (u & e & _ & _ & _ & _ & -> & _). by rewrite last_snoc.
  - intros Hf (u & Hu & Hcost) Htask Hled. subst result.
    by apply create_calm with (u := u).
Qed.

(** X19.  A progression timer touches its own task only.  Whatever the
    outcome of the two callbacks set by [enqueueTaskProgression], users,
    ledger and timers are as before, no task is added or removed, a task
    under another id is unchanged and a task under this id keeps its
    owner, its request and its cost.  When the first returns, each task
    under the id is [processing]; when the second returns, each is
    [succeeded], completed at the time of the call, with provider id
    [seedance_<id>] and the url of one of the reference videos, whatever
    its status was before. *)
Theorem progression_touches_its_task_only (taskId : string) (w : World Server) :
  let first := processingTimer taskId w in
  let second := completionTimer taskId w in
  progressed taskId (store w) (store (stateOf first))
  ∧ progressed taskId (store w) (store (stateOf second))
  ∧ (returned first = true →
     ∀ t, In t (videoTasks (store (stateOf first))) → task_id t = taskId →
          task_status t = processing ∧ task_updatedAt t = clock w)
  ∧ (returned second = true →
     ∀ t, In t (videoTasks (store (stateOf second))) → task_id t = taskId →
          task_status t = succeeded
          ∧ task_providerTaskId t = Some ("seedance_" +:+ taskId)
          ∧ task_completedAt t = Some (clock w)
          ∧ ∃ url, task_outputVideoUrl t = Some url
                   ∧ In url (map ref_videoUrl referenceVideos)).
Proof.
  intros first second. subst first second.
  unfold processingTimer, completionTimer.
  rewrite (timer_outcome taskId setProcessing w).
  rewrite (timer_outcome taskId (setSucceeded taskId) w).
  assert (∀ set, (∀ r, sameJob r (set r)) →
            progressed taskId (store w)
              (mkServer (users (store w))
                 (map (fun r => if String.eqb (task_id r) taskId then set r else r)
                      (videoTasks (store w)))
                 (creditLedger (store w)) (enqueued (store w)))) as Hstep.
  { intros set Hset. apply (updateTaskById_progressed taskId set (store w) Hset). }
  assert (∀ set t,
            In t (map (fun r => if String.eqb (task_id r) taskId then set r else r)
                      (videoTasks (store w))) →
            (∀ r, task_id (set r) = task_id r) →
            task_id t = taskId → ∃ r, t = set r) as Hhit.
  { intros set t Hin Hid Ht. apply in_map_iff in Hin as (r & <- & _).
    destruct (String.eqb_spec (task_id r) taskId) as [He|Hne]; [by exists r|done]. }
  destruct (faultIn w) as [[|n]|]; cbn [stateOf returned tick store videoTasks].
  - split; [apply progressed_refl|]. split; [apply progressed_refl|]. done.
  - split; [by apply Hstep|]. split; [by apply Hstep|]. split.
    + intros _ t Hin Ht. destruct (Hhit _ t Hin (fun _ => eq_refl) Ht) as (r & ->). done.
    + intros _ t Hin Ht. destruct (Hhit _ t Hin (fun _ => eq_refl) Ht) as (r & ->).
      repeat split. eexists. split; [reflexivity|]. apply getTaskDemoVideoUrl_reference.
  - split; [by apply Hstep|]. split; [by apply Hstep|]. split.
    + intros _ t Hin Ht. destruct (Hhit _ t Hin (fun _ => eq_refl) Ht) as (r & ->). done.
    + intros _ t Hin Ht. destruct (Hhit _ t Hin (fun _ => eq_refl) Ht) as (r & ->).
      repeat split. eexists. split; [reflexivity|]. apply getTaskDemoVideoUrl_reference.
Qed.

(** *** On concrete inputs *)

Import PaymentFixtures ServerFixtures.

Lemma timer_set_after_commit_witness :
  let w := calm serverAlice "2026-03-01T10:00:00.000Z" uuidsC in
  returned (create taskEnv aliceId clipRequest w) = true
  ∧ enqueued (store (stateOf (create taskEnv aliceId clipRequest w)))
    = ["task_3f2b8c1e9d3a4c51a7e2"].
Proof.
  intros w.
  destruct (timer_set_after_commit taskEnv aliceId clipRequest w) as (_ & _ & H).
  split; [|reflexivity].
  apply H.
  - reflexivity.
  - exists alice. split; [reflexivity|]. vm_compute. discriminate.
  - intros [].
  - intros [].
Defined.

Lemma progression_touches_its_task_only_witness :
  let w := calm serverAlice "2026-03-01T10:00:00.000Z" uuidsC in
  let s := store (stateOf (create taskEnv aliceId clipRequest w)) in
  let done := store (stateOf (completionTimer "task_3f2b8c1e9d3a4c51a7e2"
                                (calm s "2026-03-01T10:00:03.500Z" uuidsC))) in
  (∀ t, In t (videoTasks done) → task_id t = "task_3f2b8c1e9d3a4c51a7e2" →
        task_status t = succeeded
        ∧ task_completedAt t = Some "2026-03-01T10:00:03.500Z")
  ∧ creditLedger done = creditLedger s.
Proof.
  intros w s done.
  destruct (progression_touches_its_task_only "task_3f2b8c1e9d3a4c51a7e2"
              (calm s "2026-03-01T10:00:03.500Z" uuidsC)) as (_ & Hframe & _ & Hdone).
  split.
  - intros t Hin Hid. destruct (Hdone eq_refl t Hin Hid) as (H1 & _ & H3 & _). by split.
  - by destruct Hframe as (_ & Hl & _).
Defined.

End TaskProgressionTheorems.

(** ** The USDT webhook *)

Module UsdtWebhookFacts.
Import Fx FxRules PaymentStore UsdtWebhook.
Local Open Scope Z_scope.

Lemma isValidHmacSignature_iff ext payload signature secret :
  isValidHmacSignature ext payload signature secret = true
  ↔ signature = hmacSha256Hex ext secret payload.
Proof.
  unfold isValidHmacSignature, timingSafeEqual. cbv zeta. split.
  - destruct (negb _); [done|]. intros H. by apply String.eqb_eq in H.
  - intros ->. rewrite Nat.eqb_refl. simpl. apply String.eqb_refl.
Qed.

End UsdtWebhookFacts.

Module UsdtWebhookTheorems.
Import Fx FxRules PaymentStore UsdtWebhook UsdtWebhookFacts.
Local Open Scope Z_scope.

(** X12.  The USDT webhook writes only for an authentic request.  The
    route runs [handleUsdtPayment], on the parsed payload, exactly when a
    secret is configured, the signature header equals the hex HMAC of the
    body under that secret, the body parses and its user id, transaction
    id, currency and network are not empty.  For any other request the
    store is left as it is and the answer, if any, is not 204. *)
Theorem webhook_requires_signature (ext : Externals) (env : RouteEnv) (request : Request)
        (w : World Database) :
  ((¬ ∃ payload, authentic ext env request payload) →
   store (stateOf (usdtWebhook ext env request w)) = store w
   ∧ ∀ response w', usdtWebhook ext env request w = Returned response w' →
                    responseStatus response ≠ 204)
  ∧ (∀ payload, authentic ext env request payload → faultIn w ≠ Some 0%nat →
       usdtWebhook ext env request w
       = match handleUsdtPayment (settlement env) payload (tick (store w) w) with
         | Returned _ w' => Returned (mkResponse 204 None) w'
         | Threw e w' => Threw e w'
         end).
Proof.
  split.
  - intros Hnot. unfold usdtWebhook.
    destruct (String.eqb_spec (usdtWebhookSecret env) "") as [Hs|Hs].
    { split; [done|]. intros r w' [= <- _]. done. }
    destruct (signatureHeader request) as [signature|] eqn:Hh.
    2: { split; [done|]. intros r w' [= <- _]. done. }
    destruct (String.eqb_spec signature "") as [He|He].
    { split; [done|]. intros r w' [= <- _]. done. }
    unfold bind, await.
    destruct (faultIn w) as [[|n]|] eqn:Hf; [split; [done|]; intros r w' [=]| |].
    all: cbn beta iota.
    all: destruct (isValidHmacSignature ext (bodyText request) signature
                     (usdtWebhookSecret env)) eqn:Hv; cbn [negb]; cbn beta iota;
      [|split; [done|]; intros r w' [= <- _]; done].
    all: apply isValidHmacSignature_iff in Hv.
    all: destruct (parsePayload ext (bodyText request)) as [payload|] eqn:Hp;
      [|split; [done|]; intros r w' [= <- _]; done].
    all: destruct (String.eqb_spec (userId payload) "") as [H1|H1]; cbn [orb];
      [split; [done|]; intros r w' [= <- _]; done|].
    all: destruct (String.eqb_spec (transactionId payload) "") as [H2|H2]; cbn [orb];
      [split; [done|]; intros r w' [= <- _]; done|].
    all: destruct (String.eqb_spec (currency payload) "") as [H3|H3]; cbn [orb];
      [split; [done|]; intros r w' [= <- _]; done|].
    all: destruct (String.eqb_spec (network payload) "") as [H4|H4]; cbn [orb];
      [split; [done|]; intros r w' [= <- _]; done|].
    all: exfalso; apply Hnot; exists payload; unfold authentic; subst signature; done.
  - intros payload (Hs & Hh & He & Hp & H1 & H2 & H3 & H4) Hf. unfold usdtWebhook.
    destruct (String.eqb_spec (usdtWebhookSecret env) ""); [done|].
    rewrite Hh.
    destruct (String.eqb_spec (hmacSha256Hex ext (usdtWebhookSecret env) (bodyText request)) "");
      [done|].
    unfold bind at 1. unfold await.
    assert (isValidHmacSignature ext (bodyText request)
              (hmacSha256Hex ext (usdtWebhookSecret env) (bodyText request))
              (usdtWebhookSecret env) = true) as Hv
      by by apply isValidHmacSignature_iff.
    destruct (faultIn w) as [[|k]|] eqn:Hf'; [done| |].
    all: rewrite Hv; cbn [negb]; rewrite Hp.
    all: destruct (String.eqb_spec (userId payload) ""); [done|].
    all: destruct (String.eqb_spec (transactionId payload) ""); [done|].
    all: destruct (String.eqb_spec (currency payload) ""); [done|].
    all: destruct (String.eqb_spec (network payload) ""); [done|].
    all: cbn [orb]; unfold bind.
    all: by destruct (handleUsdtPayment _ _ _).
Qed.

(** *** On concrete inputs *)

Import PaymentFixtures ServerFixtures.

Lemma webhook_requires_signature_witness :
  let w := calm dbAlice "2026-03-01T10:00:00.000Z" uuidsA in
  let forged := mkRequest (Some "whsec_guess:" ) usdtBody in
  let signed := mkRequest (Some ("whsec_51f0:" +:+ usdtBody)) usdtBody in
  store (stateOf (usdtWebhook signer routeEnv forged w)) = dbAlice
  ∧ (responseStatus <$> match usdtWebhook signer routeEnv signed w with
                        | Returned response _ => Some response
                        | Threw _ _ => None
                        end) = Some 204
  ∧ length (creditLedger (store (stateOf (usdtWebhook signer routeEnv signed w)))) = 1%nat.
Proof.
  intros w forged signed.
  destruct (webhook_requires_signature signer routeEnv forged w) as [Hforged _].
  destruct (webhook_requires_signature signer routeEnv signed w) as [_ Hsigned].
  split; [|split].
  - apply Hforged. intros (payload & _ & Hsig & _). discriminate Hsig.
  - rewrite (Hsigned (webhook hook_confirmed 3 2500)); [reflexivity| |discriminate].
    repeat split; discriminate || reflexivity.
  - rewrite (Hsigned (webhook hook_confirmed 3 2500)); [reflexivity| |discriminate].
    repeat split; discriminate || reflexivity.
Defined.

End UsdtWebhookTheorems.

(** ** Session lookup and expiry *)

Module SessionFacts.
Import Fx FxRules Sessions.
Local Open Scope Z_scope.

Lemma live_lookup env now sessions k r :
  live env now sessions !! k = Some r
  ↔ sessions !! k = Some r ∧ now - createdAtUnixMs r <= SESSION_TTL_MS env.
Proof.
  unfold live. rewrite map_lookup_filter_Some. unfold expired. simpl.
  split; intros [H1 H2]; (split; [done|]).
  - rewrite Z.gtb_ltb in H2. by apply Z.ltb_ge in H2.
  - rewrite Z.gtb_ltb. by apply Z.ltb_ge.
Qed.

Lemma getUserBySession_outcome env now sid w :
  sid ≠ "" →
  ∃ result w',
    getUserBySession env now (Some sid) w = result
    ∧ stateOf result = w'
    ∧ sessionStore (store w') = live env now (sessionStore (store w))
    ∧ users (store w') = users (store w)
    ∧ match result with
      | Returned None _ =>
          live env now (sessionStore (store w)) !! sid = None
          ∨ ∃ r, live env now (sessionStore (store w)) !! sid = Some r
                 ∧ users (store w) !! userId r = None
      | Returned (Some profile) _ =>
          ∃ r u, live env now (sessionStore (store w)) !! sid = Some r
                 ∧ users (store w) !! userId r = Some u
                 ∧ profile = mapDatabaseUserToProfile (userId r) u
      | Threw _ _ =>
          faultIn w = Some 0%nat
          ∧ ∃ r, live env now (sessionStore (store w)) !! sid = Some r
      end.
Proof.
  intros Hsid. eexists _, _. split; [reflexivity|]. split; [reflexivity|].
  unfold getUserBySession. destruct (String.eqb_spec sid ""); [done|].
  unfold bind, pruneExpiredSessions, modifyStore, getsStore. fold (live env now).
  cbn [store setStore withSessions sessionStore users].
  fold (live env now (sessionStore (store w))).
  destruct (live env now (sessionStore (store w)) !! sid) as [r|] eqn:Hr.
  - unfold await. cbn [faultIn setStore store users withSessions].
    destruct (faultIn w) as [[|k]|] eqn:Hf.
    + cbn [stateOf store sessionStore users setStore]. split; [reflexivity|]. split; [reflexivity|]. split; [done|]. by exists r.
    + cbn [tick store stateOf users sessionStore].
      destruct (users (store w) !! userId r) as [u|] eqn:Hu; cbn [stateOf store sessionStore users setStore ret tick].
      * split; [reflexivity|]. split; [reflexivity|]. by exists r, u.
      * split; [reflexivity|]. split; [reflexivity|]. right. by exists r.
    + cbn [tick store stateOf users sessionStore].
      destruct (users (store w) !! userId r) as [u|] eqn:Hu; cbn [stateOf store sessionStore users setStore ret tick].
      * split; [reflexivity|]. split; [reflexivity|]. by exists r, u.
      * split; [reflexivity|]. split; [reflexivity|]. right. by exists r.
  - cbn [stateOf store sessionStore users setStore ret]. split; [reflexivity|]. split; [reflexivity|]. by left.
Qed.

Lemma createSessionForUser_outcome t0 uid (w : World Memory) :
  createSessionForUser t0 uid w
  = Returned (entropy w (drawn w))
      (mkWorld
         (withSessions
            <[entropy w (drawn w) := mkSessionRecord (entropy w (drawn w)) uid t0]>
            (store w))
         (faultIn w) (clock w) (entropy w) (S (drawn w))).
Proof. reflexivity. Qed.

End SessionFacts.

Module SessionTheorems.
Import Fx FxRules Sessions SessionFacts.
Local Open Scope Z_scope.

(** X13.  Session expiry.  A lookup by a non-empty session id at time
    [now] leaves in memory exactly the sessions whose age at [now] is at
    most the TTL (no session is added, no live one is dropped), whether
    the lookup returns or throws, and leaves the users alone.  It yields
    a profile only for a session that is stored under that id and has
    not expired, and then the profile of the user this session names; a
    session older than the TTL yields [null] even if every store
    operation would fail. *)
Theorem session_expiry (env : AuthEnv) (now : Z) (sid : string) (w : World Memory) :
  sid ≠ "" →
  let result := getUserBySession env now (Some sid) w in
  (∀ k r, sessionStore (store (stateOf result)) !! k = Some r
          ↔ sessionStore (store w) !! k = Some r
            ∧ now - createdAtUnixMs r <= SESSION_TTL_MS env)
  ∧ users (store (stateOf result)) = users (store w)
  ∧ (∀ profile w', result = Returned (Some profile) w' →
       ∃ r u, sessionStore (store w) !! sid = Some r
              ∧ now - createdAtUnixMs r <= SESSION_TTL_MS env
              ∧ users (store w) !! userId r = Some u
              ∧ profile = mapDatabaseUserToProfile (userId r) u)
  ∧ (∀ r, sessionStore (store w) !! sid = Some r →
          SESSION_TTL_MS env < now - createdAtUnixMs r →
          ∃ w', result = Returned None w').
Proof.
  intros Hsid result.
  destruct (getUserBySession_outcome env now sid w Hsid) as (res & w' & Hres & Hw' & Hs & Hu & Hcase).
  fold result in Hres. subst res. subst w'.
  split; [|split; [done|split]].
  - intros k r. rewrite Hs. apply live_lookup.
  - intros profile w' Heq. rewrite Heq in Hcase.
    destruct Hcase as (r & u & Hr & Hu' & ->). apply live_lookup in Hr as [Hr Hage].
    by exists r, u.
  - intros r Hr Hold.
    assert (live env now (sessionStore (store w)) !! sid = None) as Hnone.
    { destruct (live env now (sessionStore (store w)) !! sid) as [r'|] eqn:Hl; [|done].
      apply live_lookup in Hl as [Hl Hage]. rewrite Hr in Hl. injection Hl as <-. lia. }
    destruct result as [[p|] w'|e w'].
    + destruct Hcase as (r' & u & Hr' & _). congruence.
    + by exists w'.
    + destruct Hcase as (_ & r' & Hr'). congruence.
Qed.

(** X14.  Log in, look up, log out.  A session created for an existing
    user at [t0] under a non-empty id is found by a lookup at any [t1]
    with [t1 - t0] at most the TTL (when the select does not fail) and
    yields that user's profile; after [logout] with that id a lookup at
    any time yields [null], whatever else the store does. *)
Theorem session_round_trip (env : AuthEnv) (t0 t1 t2 : Z) (uid : string)
        (u : PaymentStore.UserRow) (w : World Memory) :
  users (store w) !! uid = Some u →
  entropy w (drawn w) ≠ "" →
  faultIn w ≠ Some 0%nat →
  t1 - t0 <= SESSION_TTL_MS env →
  ∃ sid w1 w2 w3 w4,
    createSessionForUser t0 uid w = Returned sid w1
    ∧ getUserBySession env t1 (Some sid) w1
      = Returned (Some (mapDatabaseUserToProfile uid u)) w2
    ∧ logout (Some sid) w2 = Returned tt w3
    ∧ getUserBySession env t2 (Some sid) w3 = Returned None w4.
Proof.
  intros Hu Hsid Hf Hage.
  rewrite createSessionForUser_outcome.
  set (sid := entropy w (drawn w)) in *.
  set (w1 := mkWorld _ _ _ _ _).
  exists sid, w1.
  cut (∃ w2 w3 w4,
    getUserBySession env t1 (Some sid) w1
      = Returned (Some (mapDatabaseUserToProfile uid u)) w2
    ∧ logout (Some sid) w2 = Returned tt w3
    ∧ getUserBySession env t2 (Some sid) w3 = Returned None w4).
  { intros (w2 & w3 & w4 & H). by exists w2, w3, w4. }
  assert (sessionStore (store w1) !! sid = Some (mkSessionRecord sid uid t0)) as Hs1.
  { subst w1. cbn. apply lookup_insert_eq. }
  assert (users (store w1) = users (store w)) as Hu1 by done.
  assert (faultIn w1 = faultIn w) as Hf1 by done.
  destruct (getUserBySession_outcome env t1 sid w1 Hsid)
    as (res & w2 & Hres & Hw2 & Hs2 & Hu2 & Hcase).
  assert (live env t1 (sessionStore (store w1)) !! sid = Some (mkSessionRecord sid uid t0)) as Hl.
  { apply live_lookup. split; [done|]. done. }
  destruct res as [[p|] w2'|e w2'].
  - destruct Hcase as (r & u' & Hr & Hu' & ->). rewrite Hl in Hr. injection Hr as <-.
    cbn [userId] in *. rewrite Hu1, Hu in Hu'. injection Hu' as <-.
    cbn in Hw2. subst w2'.
    set (w3 := setStore (withSessions (delete sid) (store w2)) w2).
    assert (logout (Some sid) w2 = Returned tt w3) as Hout.
    { unfold logout. by destruct (String.eqb_spec sid ""). }
    destruct (getUserBySession_outcome env t2 sid w3 Hsid)
      as (res & w4 & Hres4 & Hw4 & Hs4 & Hu4 & Hcase4).
    assert (live env t2 (sessionStore (store w3)) !! sid = None) as Hnone.
    { destruct (live env t2 (sessionStore (store w3)) !! sid) as [r'|] eqn:Hl'; [|done].
      apply live_lookup in Hl' as [Hl' _]. subst w3. cbn in Hl'.
      by rewrite lookup_delete_eq in Hl'. }
    destruct res as [[p|] w4'|e w4'].
    + destruct Hcase4 as (r' & u' & Hr' & _). congruence.
    + by exists w2, w3, w4'.
    + destruct Hcase4 as (_ & r' & Hr'). congruence.
  - exfalso. destruct Hcase as [Hc|(r & Hr & Hc)]; [congruence|].
    rewrite Hl in Hr. injection Hr as <-. cbn in Hc. congruence.
  - exfalso. destruct Hcase as (Hc & _). congruence.
Qed.

(** *** On concrete inputs *)

Import PaymentFixtures ServerFixtures.

(** Eight days after the login the session is gone. *)
Lemma session_expiry_witness :
  let w := mkWorld memoryAlice (Some 0%nat) "2026-03-09T10:00:00.000Z" uuidsC 0 in
  (∃ w', getUserBySession authEnv 1773050400000 (Some sessionOfAlice) w = Returned None w')
  ∧ sessionStore (store (stateOf (getUserBySession authEnv 1773050400000
                                    (Some sessionOfAlice) w))) !! sessionOfAlice = None.
Proof.
  intros w.
  destruct (session_expiry authEnv 1773050400000 sessionOfAlice w) as (Hkept & _ & _ & Hgone);
    [discriminate|].
  split.
  - apply (Hgone (mkSessionRecord sessionOfAlice aliceId 1772359200000)); reflexivity.
  - destruct (sessionStore (store (stateOf (getUserBySession authEnv 1773050400000
                 (Some sessionOfAlice) w))) !! sessionOfAlice) as [r|] eqn:Hr; [|reflexivity].
    apply Hkept in Hr as [Hr Hage]. exfalso.
    assert (Some r = Some (mkSessionRecord sessionOfAlice aliceId 1772359200000)) as Heq
      by (rewrite <- Hr; reflexivity).
    injection Heq as ->. vm_compute in Hage. by apply Hage.
Defined.

Lemma session_round_trip_witness :
  let w := calm memoryNoSession "2026-03-01T10:00:00.000Z" uuidsC in
  ∃ sid w1 w2 w3 w4,
    createSessionForUser 1772359200000 aliceId w = Returned sid w1
    ∧ getUserBySession authEnv 1772359260000 (Some sid) w1
      = Returned (Some (mapDatabaseUserToProfile aliceId alice)) w2
    ∧ logout (Some sid) w2 = Returned tt w3
    ∧ getUserBySession authEnv 1772359320000 (Some sid) w3 = Returned None w4.
Proof.
  intros w.
  apply (session_round_trip authEnv 1772359200000 1772359260000 1772359320000
           aliceId alice w).
  - reflexivity.
  - discriminate.
  - discriminate.
  - vm_compute. discriminate.
Defined.

End SessionTheorems.

(** ** API key revocation and rotation *)

Module ApiKeyFacts.
Import Fx FxRules JsString ApiKeys.

Lemma ownedKey_true u k r :
  ownedKey u k r = true ↔ key_userId r = u ∧ key_id r = k.
Proof.
  unfold ownedKey. rewrite andb_true_iff, !String.eqb_eq. done.
Qed.

Lemma ownedKey_false u k r :
  ownedKey u k r = false ↔ key_userId r ≠ u ∨ key_id r ≠ k.
Proof.
  unfold ownedKey. rewrite andb_false_iff, !String.eqb_neq. done.
Qed.

Lemma revokeRow_owned u k r :
  ownedKey u k r = true → revokeRow u k r = setStatus revoked r.
Proof. unfold revokeRow. by intros ->. Qed.

Lemma revokeRow_other u k r :
  ownedKey u k r = false → revokeRow u k r = r.
Proof. unfold revokeRow. by intros ->. Qed.

Lemma head_revoked_filter u k t :
  match head (map (setStatus revoked) (List.filter (ownedKey u k) t)) with
  | Some _ => true
  | None => false
  end = existsb (ownedKey u k) t.
Proof.
  induction t as [|a t IH]; [done|]. simpl. by destruct (ownedKey u k a).
Qed.

Lemma revoke_outcome u k (w : World (list ApiKeyRow)) :
  revoke u k w
  = match faultIn w with
    | Some O => Threw "operation failed" w
    | _ => Returned (existsb (ownedKey u k) (store w))
                    (tick (map (revokeRow u k) (store w)) w)
    end.
Proof.
  unfold revoke, bind, await, updateRevoked, ret.
  destruct (faultIn w) as [[|n]|]; [done| |]; by rewrite head_revoked_filter.
Qed.

Lemma revokeRow_rows u k t :
  Forall2 (fun r r' => revokedOrSame r r'
                       ∧ (key_userId r ≠ u ∨ key_id r ≠ k → r' = r))
          t (map (revokeRow u k) t).
Proof.
  induction t as [|a t IH]; [constructor|]. simpl. constructor; [|done].
  unfold revokeRow, revokedOrSame. destruct (ownedKey u k a) eqn:Ho.
  - split; [by right|]. intros H. apply ownedKey_false in H. congruence.
  - split; [by left|done].
Qed.

Lemma revokeRow_none u k t :
  existsb (ownedKey u k) t = false → map (revokeRow u k) t = t.
Proof.
  induction t as [|a t IH]; [done|]. simpl. intros H.
  apply orb_false_iff in H as [Ha Ht]. rewrite (revokeRow_other _ _ _ Ha). by rewrite IH.
Qed.

Lemma existsb_ownedKey_notin u k t :
  ¬ In k (map key_id t) → existsb (ownedKey u k) t = false.
Proof.
  induction t as [|a t IH]; [done|]. simpl. intros H.
  apply orb_false_iff. split.
  - apply ownedKey_false. right. intros Heq. apply H. by left.
  - apply IH. intros Hin. apply H. by right.
Qed.

Lemma revokeRow_ids u k t : map key_id (map (revokeRow u k) t) = map key_id t.
Proof.
  rewrite map_map. apply map_ext. intros a. unfold revokeRow.
  by destruct (ownedKey u k a).
Qed.

Lemma keysOfOthers_revoked u k t :
  keysOfOthers u (map (revokeRow u k) t) = keysOfOthers u t.
Proof.
  unfold keysOfOthers. induction t as [|a t IH]; [done|]. simpl.
  destruct (ownedKey u k a) eqn:Ho.
  - rewrite (revokeRow_owned _ _ _ Ho).
    apply ownedKey_true in Ho as [Hu _]. cbn [setStatus key_userId].
    rewrite Hu, String.eqb_refl. simpl. exact IH.
  - rewrite (revokeRow_other _ _ _ Ho). destruct (negb _); by rewrite IH.
Qed.

Lemma keysOfOthers_own u t new :
  key_userId new = u → keysOfOthers u (t ++ [new]) = keysOfOthers u t.
Proof.
  intros Hu. unfold keysOfOthers. rewrite List.filter_app. simpl.
  rewrite Hu, String.eqb_refl. simpl. by rewrite app_nil_r.
Qed.

Lemma activeKeys_own u t new :
  key_userId new = u → key_status new = active →
  activeKeys u (t ++ [new]) = S (activeKeys u t).
Proof.
  intros Hu Hs. unfold activeKeys. rewrite List.filter_app. simpl.
  rewrite Hu, Hs, String.eqb_refl. simpl. rewrite length_app. simpl. lia.
Qed.

Lemma activeKeys_revoked_le u k t :
  (activeKeys u (map (revokeRow u k) t) <= activeKeys u t)%nat.
Proof.
  unfold activeKeys. induction t as [|a t IH]; [done|]. simpl.
  destruct (ownedKey u k a) eqn:Ho.
  - rewrite (revokeRow_owned _ _ _ Ho).
    cbn [setStatus key_userId key_status ApiKeyStatus_eqb]. rewrite andb_false_r.
    destruct (_ && _); simpl; lia.
  - rewrite (revokeRow_other _ _ _ Ho). destruct (_ && _); simpl; lia.
Qed.

Lemma activeOwnedKey_in u k t old :
  activeOwnedKey u k t = Some old →
  In old t ∧ key_userId old = u ∧ key_id old = k ∧ key_status old = active.
Proof.
  unfold activeOwnedKey.
  destruct (head (List.filter (ownedKey u k) t)) as [r|] eqn:Hh; [|done].
  destruct (ApiKeyStatus_eqb (key_status r) active) eqn:Hs; [|done].
  intros [= <-].
  assert (In r (List.filter (ownedKey u k) t)) as Hin.
  { destruct (List.filter (ownedKey u k) t); [done|]. injection Hh as ->. by left. }
  apply List.filter_In in Hin as [Hin Ho]. apply ownedKey_true in Ho as [Hu Hk].
  repeat split; try done. by destruct (key_status r).
Qed.

Lemma activeKeys_revoked_one u k t old :
  List.NoDup (map key_id t) →
  activeOwnedKey u k t = Some old →
  S (activeKeys u (map (revokeRow u k) t)) = activeKeys u t.
Proof.
  unfold activeOwnedKey, activeKeys.
  induction t as [|a t IH]; [done|]. simpl. intros Hnd Hold.
  apply List.NoDup_cons_iff in Hnd as [Hnotin Hnd].
  destruct (ownedKey u k a) eqn:Ho.
  - rewrite (revokeRow_owned _ _ _ Ho).
    simpl in Hold. destruct (ApiKeyStatus_eqb (key_status a) active) eqn:Hs; [|done].
    apply ownedKey_true in Ho as [Hu Hk].
    cbn [setStatus key_userId key_status ApiKeyStatus_eqb].
    rewrite Hu, String.eqb_refl. simpl.
    rewrite revokeRow_none; [done|].
    apply existsb_ownedKey_notin. by rewrite <- Hk.
  - rewrite (revokeRow_other _ _ _ Ho). specialize (IH Hnd Hold).
    destruct (_ && _); simpl; lia.
Qed.

Lemma existsb_id_notin i t :
  existsb (fun r => String.eqb (key_id r) i) t = false → ¬ In i (map key_id t).
Proof.
  induction t as [|a t IH]; [by intros _ []|]. simpl. intros H.
  apply orb_false_iff in H as [Ha Ht]. apply String.eqb_neq in Ha.
  intros [Heq|Hin]; [done|]. by apply IH.
Qed.

Lemma create_triple rt u name t0 :
  triple (onStore (fun t => t = t0)) (create rt u name)
         (fun response => onStore (fun t => ∃ new, t = t0 ++ [new]
                                               ∧ createdKey rt u name t0 response new))
         (onStore (fun t => t = t0)).
Proof.
  unfold create.
  eapply triple_bind; [apply triple_getIsoTimestamp|]. intros now.
  unfold generateRawApiKey.
  apply (triple_bind _ _ _ (fun _ => onStore (fun t => t = t0))).
  { eapply triple_bind; [apply triple_randomUUID|]. intros uuid.
    apply triple_ret. intros s Hs. exact Hs. }
  intros rawApiKey.
  eapply triple_bind.
  { apply (triple_await _ _ (fun h t => t = t0 ∧ h = passwordHash rt rawApiKey)
             (fun t => t = t0)); [done|]. intros d ->. done. }
  intros keyHash. cbv beta.
  apply (triple_pre _ _ (fun w => onStore (fun t => t = t0) w
                                  ∧ keyHash = passwordHash rt rawApiKey)).
  2: { intros s [Hs Hh]. by split. }
  apply triple_assume. intros ->.
  eapply triple_bind; [apply triple_randomUUID|]. intros uuid. cbv zeta.
  eapply triple_bind.
  { apply (triple_await _ _
             (fun row t => t = t0 ++ [row]
                           ∧ ¬ In (key_id row) (map key_id t0)
                           ∧ row = mkApiKey ("key_" +:+ idFragment 16 uuid) u name
                                     (passwordHash rt rawApiKey) (sliceTo 12 rawApiKey)
                                     (generateApiKeyMask rawApiKey) active None now)
             (fun t => t = t0)); [done|].
    intros d ->. unfold insertApiKey.
    set (row := mkApiKey _ _ _ _ _ _ _ _ _).
    destruct (existsb (fun r => String.eqb (key_id r) (key_id row)) t0) eqn:Hid;
      cbn [orb]; cbv beta iota; [reflexivity|].
    destruct (existsb (fun r => String.eqb (key_keyHash r) (key_keyHash row)) t0);
      cbv beta iota; [reflexivity|].
    split; [reflexivity|]. split; [|reflexivity]. by apply existsb_id_notin. }
  intros row. apply triple_ret. intros s (Ht & Hfresh & Hrow).
  exists row. split; [done|]. subst row. unfold createdKey. done.
Qed.

Lemma revoke_triple u k t :
  triple (onStore (fun t' => t' = t)) (revoke u k)
         (fun b => onStore (fun t' => t' = map (revokeRow u k) t
                                   ∧ b = existsb (ownedKey u k) t))
         (onStore (fun t' => t' = t)).
Proof.
  intros w Hw. rewrite revoke_outcome. unfold onStore in *.
  destruct (faultIn w) as [[|n]|]; cbn; by rewrite ?Hw.
Qed.

Lemma rotate_triple rt u k name t0 :
  triple (onStore (fun t => t = t0)) (rotate rt u k name)
         (fun result => onStore (fun t1 =>
            match result with
            | None => t1 = t0 ∧ activeOwnedKey u k t0 = None
            | Some response => rotated rt u k t0 t1 response
            end))
         (onStore (fun t1 => t1 = t0 ∨ halfRotated rt u k t0 t1)).
Proof.
  unfold rotate.
  eapply triple_bind.
  { apply (triple_await _ _
             (fun rows t => t = t0 ∧ rows = take 1 (List.filter (ownedKey u k) t0))
             (fun t => t = t0 ∨ halfRotated rt u k t0 t)); [by left|].
    intros d ->. done. }
  intros rows. cbv beta.
  apply (triple_pre _ _ (fun w => onStore (fun t => t = t0) w
                                  ∧ rows = take 1 (List.filter (ownedKey u k) t0))).
  2: { intros s [Hs Hh]. by split. }
  apply triple_assume. intros ->.
  assert (head (take 1 (List.filter (ownedKey u k) t0))
          = head (List.filter (ownedKey u k) t0)) as ->.
  { by destruct (List.filter (ownedKey u k) t0). }
  destruct (head (List.filter (ownedKey u k) t0)) as [existing|] eqn:Hh.
  2: { apply triple_ret. intros s Hs. split; [done|]. unfold activeOwnedKey. by rewrite Hh. }
  destruct (ApiKeyStatus_eqb (key_status existing) active) eqn:Hs; cbn [negb].
  2: { apply triple_ret. intros s Hs'. split; [done|]. unfold activeOwnedKey.
       by rewrite Hh, Hs. }
  assert (activeOwnedKey u k t0 = Some existing) as Hold.
  { unfold activeOwnedKey. by rewrite Hh, Hs. }
  cbv zeta. set (nextName := match name with Some _ => _ | None => _ end).
  eapply triple_bind.
  { eapply triple_weaken; [apply (create_triple rt u nextName t0)|done|..].
    - intros a s H. exact H.
    - intros s H. by left. }
  intros response. cbv beta.
  intros w (new & Hw & Hnew). unfold bind.
  pose proof (revoke_triple u k (t0 ++ [new]) w Hw) as Hrev.
  destruct (revoke u k w) as [b w'|e w'].
  - destruct Hrev as [Hw' _]. cbn. unfold onStore. exists existing, new, nextName.
    split; [done|]. split; [done|]. rewrite Hw', map_app. cbn [map].
    f_equal. f_equal. unfold revokeRow.
    destruct (ownedKey u k new) eqn:Ho; [|done].
    apply ownedKey_true in Ho as [_ Hk]. exfalso.
    destruct Hnew as (Hfresh & _). apply Hfresh. rewrite Hk.
    apply activeOwnedKey_in in Hold as (Hin & _ & Hid & _).
    rewrite <- Hid. by apply in_map.
  - right. exists existing, new, nextName, response. unfold onStore in Hrev. by rewrite Hrev.
Qed.

Lemma rotate_refused rt u k name (w : World (list ApiKeyRow)) :
  activeOwnedKey u k (store w) = None → faultIn w ≠ Some O →
  rotate rt u k name w = Returned None (tick (store w) w).
Proof.
  intros Hnone Hf. unfold rotate, bind, await, selectOwnedKey.
  unfold activeOwnedKey in Hnone.
  assert (head (take 1 (List.filter (ownedKey u k) (store w)))
          = head (List.filter (ownedKey u k) (store w))) as Hhead.
  { by destruct (List.filter (ownedKey u k) (store w)). }
  destruct (faultIn w) as [[|n]|]; [done| |]; rewrite Hhead.
  all: destruct (head (List.filter (ownedKey u k) (store w))) as [r|]; [|done].
  all: destruct (ApiKeyStatus_eqb (key_status r) active); [done|]; done.
Qed.

End ApiKeyFacts.

Module ApiKeyTheorems.
Import Fx FxRules JsString ApiKeys ApiKeyFacts.

(** X15.  Revoking touches only the caller's own key.  Whatever the
    outcome of [revoke userId keyId], the table keeps its rows in place:
    each row is as before or is the same row with status revoked, and a
    row of another user or under another id is as before (so a revoked
    key never becomes active again).  The call answers [true] only if
    the user holds a key under that id, and then every such key is
    revoked; when it answers [false] or throws the table is unchanged,
    and [false] means the user holds no key under that id. *)
Theorem revoke_own_key_only (userId keyId : string) (w : World (list ApiKeyRow)) :
  let result := revoke userId keyId w in
  Forall2 (fun r r' => revokedOrSame r r'
                       ∧ (key_userId r ≠ userId ∨ key_id r ≠ keyId → r' = r))
          (store w) (store (stateOf result))
  ∧ (∀ w', result = Returned true w' →
       (∃ r, In r (store w) ∧ key_userId r = userId ∧ key_id r = keyId)
       ∧ ∀ r', In r' (store w') → key_userId r' = userId → key_id r' = keyId →
               key_status r' = revoked)
  ∧ (∀ w', result = Returned false w' →
       store w' = store w
       ∧ ∀ r, In r (store w) → ¬ (key_userId r = userId ∧ key_id r = keyId))
  ∧ (returned result = false → store (stateOf result) = store w).
Proof.
  intros result. subst result. rewrite revoke_outcome.
  assert (Forall2 (fun r r' => revokedOrSame r r'
                       ∧ (key_userId r ≠ userId ∨ key_id r ≠ keyId → r' = r))
                  (store w) (store w)) as Hsame.
  { clear. induction (store w); constructor; [|done]. split; [by left|done]. }
  destruct (faultIn w) as [[|n]|] eqn:Hf.
  - split; [done|]. split; [done|]. split; done.
  - cbn [stateOf tick store returned]. split; [apply revokeRow_rows|].
    split; [|split; [|done]].
    + intros w' [= Hex <-]. cbn [store]. split.
      * apply existsb_exists in Hex as (r & Hin & Ho).
        apply ownedKey_true in Ho. by exists r.
      * intros r' Hin Hu Hk. apply in_map_iff in Hin as (r & <- & Hin).
        unfold revokeRow in *. destruct (ownedKey userId keyId r) eqn:Ho; [done|].
        apply ownedKey_false in Ho. tauto.
    + intros w' [= Hex <-]. cbn [store]. split; [by apply revokeRow_none|].
      intros r Hin Ho. apply ownedKey_true in Ho.
      assert (existsb (ownedKey userId keyId) (store w) = true); [|congruence].
      apply existsb_exists. by exists r.
  - cbn [stateOf tick store returned]. split; [apply revokeRow_rows|].
    split; [|split; [|done]].
    + intros w' [= Hex <-]. cbn [store]. split.
      * apply existsb_exists in Hex as (r & Hin & Ho).
        apply ownedKey_true in Ho. by exists r.
      * intros r' Hin Hu Hk. apply in_map_iff in Hin as (r & <- & Hin).
        unfold revokeRow in *. destruct (ownedKey userId keyId r) eqn:Ho; [done|].
        apply ownedKey_false in Ho. tauto.
    + intros w' [= Hex <-]. cbn [store]. split; [by apply revokeRow_none|].
      intros r Hin Ho. apply ownedKey_true in Ho.
      assert (existsb (ownedKey userId keyId) (store w) = true); [|congruence].
      apply existsb_exists. by exists r.
Qed.

(** X16.  Rotation keeps the number of active keys.  On a table with
    distinct ids, [rotate userId keyId name] never changes a row of
    another user and never lowers the user's number of active keys: the
    number is unchanged when the call returns and is at most one higher
    when it throws (the new key is inserted before the old one is
    revoked, outside any transaction).  Without an active key of the
    user under [keyId] the call leaves the table as it is and answers
    [null] unless the select fails.  When it hands out a key, the old
    key is revoked and the table has one more row: an active row of the
    user under a fresh id, holding the hash, the prefix and the mask of
    the raw key handed out. *)
Theorem rotate_keeps_active_count (rt : Runtime) (userId keyId : string)
        (name : option string) (w : World (list ApiKeyRow)) :
  List.NoDup (map key_id (store w)) →
  let result := rotate rt userId keyId name w in
  let t0 := store w in
  let t1 := store (stateOf result) in
  keysOfOthers userId t1 = keysOfOthers userId t0
  ∧ List.NoDup (map key_id t1)
  ∧ (activeKeys userId t0 <= activeKeys userId t1 <= S (activeKeys userId t0))%nat
  ∧ (returned result = true → activeKeys userId t1 = activeKeys userId t0)
  ∧ (activeOwnedKey userId keyId t0 = None →
       t1 = t0 ∧ (faultIn w ≠ Some O → ∃ w', result = Returned None w'))
  ∧ (∀ response w', result = Returned (Some response) w' →
       ∃ old new,
         activeOwnedKey userId keyId t0 = Some old
         ∧ t1 = map (fun r => if ownedKey userId keyId r then setStatus revoked r else r) t0
                ++ [new]
         ∧ In (setStatus revoked old) t1
         ∧ ¬ In (key_id new) (map key_id t0)
         ∧ key_userId new = userId ∧ key_status new = active
         ∧ key_keyHash new = passwordHash rt (rawKey response)
         ∧ key_prefix new = sliceTo 12 (rawKey response)
         ∧ key_maskedKey new = generateApiKeyMask (rawKey response)
         ∧ apiKey response = mapDatabaseApiKeyToSummary new).
Proof.
  intros Hnd result t0 t1.
  pose proof (rotate_triple rt userId keyId name t0 w eq_refl) as H.
  fold result in H. subst t1.
  assert (∀ response new nm, createdKey rt userId nm t0 response new →
            List.NoDup (map key_id (t0 ++ [new]))) as Hfresh.
  { intros response new nm (Hfresh & _). rewrite map_app. cbn [map].
    apply ChainWorkerInvariantFacts.NoDup_snoc; done. }
  destruct result as [[response|] w1|e w1] eqn:Hres; cbn [stateOf returned]; unfold onStore in H.
  - destruct H as (old & new & nm & Hold & Hnew & Ht1). rewrite Ht1.
    pose proof Hnew as (Hnotin & Hu & Hname & Hst & Hhash & Hpre & Hmask & Hsum).
    assert (activeKeys userId (map (revokeRow userId keyId) t0 ++ [new])
            = activeKeys userId t0) as Hcount.
    { rewrite activeKeys_own by done. by apply (activeKeys_revoked_one _ _ _ old). }
    split. { rewrite keysOfOthers_own by done. apply keysOfOthers_revoked. }
    split. { rewrite map_app, revokeRow_ids. cbn [map]. apply ChainWorkerInvariantFacts.NoDup_snoc; done. }
    split; [lia|]. split; [done|]. split; [congruence|].
    intros response' w' [= <- <-]. exists old, new. split; [done|]. split; [done|].
    split; [|done].
    apply in_or_app. left. apply activeOwnedKey_in in Hold as (Hin & Ho1 & Ho2 & _).
    apply in_map_iff. exists old. split; [|done].
    apply revokeRow_owned. by apply ownedKey_true.
  - destruct H as [-> Hnone]. fold t0.
    split; [done|]. split; [done|]. split; [lia|]. split; [done|].
    split; [|done]. intros _. split; [done|]. intros _. by exists w1.
  - destruct H as [->|(old & new & nm & response & Hold & Hnew & Ht1)].
    + fold t0. split; [done|]. split; [done|]. split; [lia|]. split; [done|].
      split; [|done]. intros Hnone. split; [done|]. intros Hf.
      subst result. rewrite rotate_refused in Hres; done.
    + rewrite Ht1.
      pose proof Hnew as (Hnotin & Hu & Hname & Hst & _).
      split. { by apply keysOfOthers_own. }
      split. { by apply (Hfresh response new nm). }
      split. { rewrite activeKeys_own by done. lia. }
      split; [done|]. split; [congruence|done].
Qed.

(** *** On concrete inputs *)

Import PaymentFixtures ServerFixtures.

(** Bob asks to revoke Alice's key. *)
Lemma revoke_own_key_only_witness :
  let w := calm keyTable "2026-03-01T10:00:00.000Z" uuidsC in
  revoke bobId "key_0123456789abcdef" w = Returned false w
  ∧ (∀ r, In r keyTable →
          ¬ (key_userId r = bobId ∧ key_id r = "key_0123456789abcdef")).
Proof.
  intros w.
  destruct (revoke_own_key_only bobId "key_0123456789abcdef" w) as (_ & _ & Hfalse & _).
  assert (revoke bobId "key_0123456789abcdef" w = Returned false w) as Hres by reflexivity.
  split; [exact Hres|]. by destruct (Hfalse w Hres) as [_ H].
Defined.

Lemma rotate_keeps_active_count_witness :
  let w := calm keyTable "2026-03-01T10:00:00.000Z" uuidsC in
  let t1 := store (stateOf (rotate keyRuntime aliceId "key_0123456789abcdef" None w)) in
  activeKeys aliceId t1 = 1%nat
  ∧ keysOfOthers aliceId t1 = [keyOfBob]
  ∧ length t1 = 3%nat.
Proof.
  intros w t1.
  destruct (rotate_keeps_active_count keyRuntime aliceId "key_0123456789abcdef" None w)
    as (Hothers & _ & _ & Hcount & _).
  - vm_compute. repeat constructor; intros H; repeat destruct H as [H|H]; discriminate || done.
  - subst t1. split; [rewrite Hcount; reflexivity|]. split; [exact Hothers|reflexivity].
Defined.

End ApiKeyTheorems.

(** ** The API key mask *)

Module JsStringFacts.
Import JsString.

Lemma append_nil (b : string) : "" +:+ b = b.
Proof. reflexivity. Qed.

Lemma append_cons (c : ascii) (a b : string) : String c a +:+ b = String c (a +:+ b).
Proof. reflexivity. Qed.

Lemma length_append (a b : string) :
  String.length (a +:+ b) = (String.length a + String.length b)%nat.
Proof.
  induction a as [|c a IH]; [by rewrite append_nil|].
  rewrite append_cons. cbn [String.length]. by rewrite IH.
Qed.

Lemma append_assoc (a b c : string) : (a +:+ b) +:+ c = a +:+ (b +:+ c).
Proof.
  induction a as [|x a IH]; [by rewrite !append_nil|].
  rewrite !append_cons. by rewrite IH.
Qed.

Lemma substring_whole (s : string) : String.substring 0 (String.length s) s = s.
Proof. induction s as [|c s IH]; cbn [String.length String.substring]; [done|by rewrite IH]. Qed.

Lemma substring_head (p x : string) :
  String.substring 0 (String.length p) (p +:+ x) = p.
Proof.
  induction p as [|c p IH].
  - rewrite append_nil. cbn [String.length String.substring]. by destruct x.
  - rewrite append_cons. cbn [String.length String.substring]. by rewrite IH.
Qed.

Lemma substring_tail (x s : string) :
  String.substring (String.length x) (String.length s) (x +:+ s) = s.
Proof.
  induction x as [|c x IH].
  - rewrite append_nil. apply substring_whole.
  - rewrite append_cons. cbn [String.length String.substring]. exact IH.
Qed.

Lemma sliceTo_head n (p x : string) :
  String.length p = n → sliceTo n (p +:+ x) = p.
Proof. intros <-. apply substring_head. Qed.

Lemma sliceLast_tail n (x s : string) :
  String.length s = n → sliceLast n (x +:+ s) = s.
Proof.
  intros <-. unfold sliceLast. rewrite length_append.
  replace (String.length x + String.length s - String.length s)%nat
    with (String.length x) by lia.
  apply substring_tail.
Qed.

End JsStringFacts.

Module ApiKeyMaskTheorems.
Import JsString JsStringFacts ApiKeys.

(** X17.  The mask shows the ends of the key only.  For a raw key made
    of 12 leading characters, any middle part and 4 trailing characters,
    [generateApiKeyMask] is the leading part, twelve asterisks and the
    trailing part: it has 28 characters whatever the length of the key,
    it does not depend on the middle part, and it starts with the 12
    characters that [create] stores as the key's prefix. *)
Theorem mask_shows_ends_only (lead middle middle' trail : string) :
  String.length lead = 12%nat → String.length trail = 4%nat →
  generateApiKeyMask (lead +:+ middle +:+ trail) = lead +:+ "************" +:+ trail
  ∧ generateApiKeyMask (lead +:+ middle +:+ trail)
    = generateApiKeyMask (lead +:+ middle' +:+ trail)
  ∧ String.length (generateApiKeyMask (lead +:+ middle +:+ trail)) = 28%nat
  ∧ sliceTo 12 (generateApiKeyMask (lead +:+ middle +:+ trail))
    = sliceTo 12 (lead +:+ middle +:+ trail).
Proof.
  intros Hlead Htrail.
  assert (∀ m, generateApiKeyMask (lead +:+ m +:+ trail)
               = lead +:+ "************" +:+ trail) as Hmask.
  { intros m. unfold generateApiKeyMask. cbv zeta.
    rewrite (sliceTo_head 12 lead) by done.
    rewrite <- (append_assoc lead m trail). rewrite (sliceLast_tail 4 _ trail) by done.
    done. }
  split; [apply Hmask|]. split; [by rewrite !Hmask|].
  rewrite Hmask. split.
  - rewrite !length_append, Hlead, Htrail. done.
  - by rewrite !(sliceTo_head 12 lead).
Qed.

Lemma mask_shows_ends_only_witness :
  generateApiKeyMask "ave_live_0123456789abcdef0123456789abcdef"
  = "ave_live_012************cdef".
Proof.
  destruct (mask_shows_ends_only "ave_live_012" "3456789abcdef0123456789ab" "" "cdef"
              eq_refl eq_refl) as [H _].
  exact H.
Defined.

End ApiKeyMaskTheorems.

(** ** Registration and password reset tokens *)

Module AccountFacts.
Import Fx FxRules Accounts.

Lemma find_map_same {A} (p : A → bool) (l : list A) (f : A → A) :
  (∀ r, p (f r) = p r) → List.find p (map f l) = option_map f (List.find p l).
Proof.
  intros Hp. induction l as [|a l IH]; [done|]. simpl. rewrite Hp.
  by destruct (p a).
Qed.

Lemma resetPassword_triple rt input now d0 :
  triple (onStore (fun d => d = d0))
         (let* databaseToken := await (selectTokenByHash (hashToken rt (token input))) in
          match databaseToken with
          | None => ret false
          | Some databaseToken =>
              if truthy (token_usedAt databaseToken)
                 || String.ltb (token_expiresAt databaseToken) now
              then ret false
              else
                exec VideoTasks.transaction (
                  let* hashed :=
                    await (fun d => Returned (passwordHash rt (password input)) d) in
                  exec await (updateUserPassword (token_userId databaseToken) hashed now)
                  then await (updateTokenUsed (token_id databaseToken) now)) then
                ret true
          end)%fx
         (fun b w' =>
            match b with
            | true => ∃ t, usableToken rt (token input) now d0 = Some t
                           ∧ resetDone rt input now t d0 (store w')
            | false => usableToken rt (token input) now d0 = None ∧ store w' = d0
            end)
         (onStore (fun d => d = d0)).
Proof.
  eapply triple_bind.
  { apply (triple_await _ _
             (fun o d => d = d0
                         ∧ o = List.find (fun r => String.eqb (token_tokenHash r)
                                                     (hashToken rt (token input)))
                                         (passwordResetTokens d0))
             (fun d => d = d0)); [done|]. intros d ->. done. }
  intros databaseToken. cbv beta.
  apply (triple_pre _ _ (fun w => onStore (fun d => d = d0) w
            ∧ databaseToken = List.find (fun r => String.eqb (token_tokenHash r)
                                                   (hashToken rt (token input)))
                                       (passwordResetTokens d0))).
  2: { intros s [Hs Hh]. by split. }
  apply triple_assume. intros Hfind.
  destruct databaseToken as [t|].
  2: { apply triple_ret. intros s Hs. split; [|done]. unfold usableToken. by rewrite <- Hfind. }
  destruct (truthy (token_usedAt t) || String.ltb (token_expiresAt t) now) eqn:Hguard.
  { apply triple_ret. intros s Hs. split; [|done]. unfold usableToken.
    by rewrite <- Hfind, Hguard. }
  assert (usableToken rt (token input) now d0 = Some t) as Husable.
  { unfold usableToken. by rewrite <- Hfind, Hguard. }
  apply (triple_bind _ _ _ (fun _ => onStore (resetDone rt input now t d0))).
  2: { intros []. apply triple_ret. intros s Hs. by exists t. }
  apply (VideoTaskFacts.triple_transaction _ d0 (fun _ => resetDone rt input now t d0)).
  eapply triple_bind.
  { apply (triple_await _ _ (fun h d => d = d0 ∧ h = passwordHash rt (password input))
             (fun _ => True)); [done|]. intros d ->. done. }
  intros hashed. cbv beta.
  apply (triple_pre _ _ (fun w => onStore (fun d => d = d0) w
                                  ∧ hashed = passwordHash rt (password input))).
  2: { intros s [Hs Hh]. by split. }
  apply triple_assume. intros ->.
  eapply triple_bind.
  { apply (triple_await _ _
             (fun _ d => d = mkAuthDb
                (match users d0 !! token_userId t with
                 | Some u =>
                     <[token_userId t := PaymentStore.mkUser
                          (PaymentStore.user_name u) (PaymentStore.user_email u)
                          (passwordHash rt (password input))
                          (PaymentStore.user_apiCredits u)
                          (PaymentStore.user_createdAt u) now]> (users d0)
                 | None => users d0
                 end) (passwordResetTokens d0))
             (fun _ => True)); [done|]. intros d ->. done. }
  intros [].
  apply (triple_await _ _ (fun _ => resetDone rt input now t d0) (fun _ => True)); [done|].
  intros d ->. done.
Qed.

Lemma resetPassword_outcome rt input (w : World AuthDb) :
  match resetPassword rt input w with
  | Returned true w' =>
      ∃ t, usableToken rt (token input) (clock w) (store w) = Some t
           ∧ resetDone rt input (clock w) t (store w) (store w')
  | Returned false w' =>
      usableToken rt (token input) (clock w) (store w) = None ∧ store w' = store w
  | Threw _ w' => store w' = store w
  end.
Proof.
  exact (resetPassword_triple rt input (clock w) (store w) w eq_refl).
Qed.

Lemma find_email_none e (d : AuthDb) :
  List.find (fun entry : string * PaymentStore.UserRow =>
               String.eqb (PaymentStore.user_email entry.2) e)
            (map_to_list (users d)) = None
  ↔ ¬ emailTaken e d.
Proof.
  split.
  - intros Hnone (i & u & Hu & He).
    assert (In (i, u) (map_to_list (users d))) as Hin.
    { apply list_elem_of_In. by apply elem_of_map_to_list. }
    pose proof (List.find_none _ _ Hnone (i, u) Hin) as Hp. cbn in Hp.
    rewrite He, String.eqb_refl in Hp. done.
  - intros Hnot.
    destruct (List.find _ (map_to_list (users d))) as [[i u]|] eqn:Hfind; [|done].
    exfalso. apply Hnot. apply List.find_some in Hfind as [Hin Hp].
    apply list_elem_of_In, elem_of_map_to_list in Hin.
    exists i, u. split; [done|]. by apply String.eqb_eq in Hp.
Qed.

Lemma register_outcome rt env input d0 :
  triple (onStore (fun d => d = d0)) (register rt env input)
         (fun profile => onStore (fun d =>
            ∃ id u, registered rt env input id u d0 d
                    ∧ profile = Sessions.mapDatabaseUserToProfile id u))
         (onStore (fun d => d = d0)).
Proof.
  unfold register. cbv zeta.
  eapply triple_bind; [apply triple_getIsoTimestamp|]. intros now.
  eapply triple_bind.
  { apply (triple_await _ _
             (fun o d => d = d0
                ∧ o = List.find (fun entry : string * PaymentStore.UserRow =>
                                   String.eqb (PaymentStore.user_email entry.2)
                                              (toLowerCase rt (trim rt (email input))))
                                (map_to_list (users d0)))
             (fun d => d = d0)); [done|]. intros d ->. done. }
  intros existingUser. cbv beta.
  apply (triple_pre _ _ (fun w => onStore (fun d => d = d0) w
            ∧ existingUser = List.find (fun entry : string * PaymentStore.UserRow =>
                                   String.eqb (PaymentStore.user_email entry.2)
                                              (toLowerCase rt (trim rt (email input))))
                                (map_to_list (users d0)))).
  2: { intros s [Hs Hh]. by split. }
  apply triple_assume. intros Hfind.
  destruct existingUser as [existing|]; [by apply triple_throw|].
  symmetry in Hfind. apply find_email_none in Hfind.
  eapply triple_bind; [apply triple_randomUUID|]. intros uuid.
  eapply triple_bind.
  { apply (triple_await _ _
             (fun h d => d = d0 ∧ h = passwordHash rt (registerPassword input))
             (fun d => d = d0)); [done|]. intros d ->. done. }
  intros hashed. cbv beta.
  apply (triple_pre _ _ (fun w => onStore (fun d => d = d0) w
                                  ∧ hashed = passwordHash rt (registerPassword input))).
  2: { intros s [Hs Hh]. by split. }
  apply triple_assume. intros ->.
  set (id := "usr_" +:+ JsString.idFragment 20 uuid).
  set (row := PaymentStore.mkUser _ _ _ _ _ _).
  apply (triple_bind _ _ _
           (fun created => onStore (fun d => registered rt env input id row d0 d
                                             ∧ created = (id, row)))).
  2: { intros created. apply triple_ret. intros s [Hs ->]. by exists id, row. }
  apply (triple_await _ _ (fun created d => registered rt env input id row d0 d
                                            ∧ created = (id, row))
           (fun d => d = d0)); [done|].
  intros d ->. unfold insertUser.
  destruct (users d0 !! id) eqn:Hid; [reflexivity|].
  destruct (existsb _ (map_to_list (users d0))); [reflexivity|].
  split; [|reflexivity]. unfold registered. cbn [users passwordResetTokens].
  repeat split; done.
Qed.

Lemma createForgotPasswordToken_outcome rt env ms email d0 :
  triple (onStore (fun d => d = d0)) (createForgotPasswordToken rt env ms email)
         (fun result => onStore (fun d =>
            match result with
            | Some rawToken => ∃ t, issued rt env ms email rawToken t d0 d
            | None => d = d0
            end))
         (onStore (fun d => d = d0)).
Proof.
  unfold createForgotPasswordToken.
  eapply triple_bind.
  { unfold getUserByEmail. cbv zeta.
    apply (triple_bind _ _ _
             (fun o => onStore (fun d => d = d0
                ∧ o = List.find (fun entry : string * PaymentStore.UserRow =>
                                   String.eqb (PaymentStore.user_email entry.2)
                                              (toLowerCase rt (trim rt email)))
                                (map_to_list (users d0))))).
    - apply (triple_await _ _
               (fun o d => d = d0
                  ∧ o = List.find (fun entry : string * PaymentStore.UserRow =>
                                     String.eqb (PaymentStore.user_email entry.2)
                                                (toLowerCase rt (trim rt email)))
                                  (map_to_list (users d0)))
               (fun d => d = d0)); [done|]. intros d ->. done.
    - intros o. apply triple_ret. intros s Hs. exact Hs. }
  intros databaseUser. cbv beta.
  apply (triple_pre _ _ (fun w => onStore (fun d => d = d0) w
            ∧ databaseUser = List.find (fun entry : string * PaymentStore.UserRow =>
                                   String.eqb (PaymentStore.user_email entry.2)
                                              (toLowerCase rt (trim rt email)))
                                (map_to_list (users d0)))).
  2: { intros s [Hs Hh]. by split. }
  apply triple_assume. intros Hfind.
  destruct databaseUser as [[userId u]|]; [|by apply triple_ret].
  eapply triple_bind; [apply triple_randomUUID|]. intros uuid1.
  eapply triple_bind; [apply triple_randomUUID|]. intros uuid2. cbv zeta.
  eapply triple_bind; [apply triple_getIsoTimestamp|]. intros now.
  eapply triple_bind; [apply triple_randomUUID|]. intros uuid3.
  set (rawToken := JsString.removeDashes uuid1 +:+ JsString.removeDashes uuid2).
  set (row := mkToken _ _ _ _ _ _).
  apply (triple_bind _ _ _
           (fun _ => onStore (fun d => issued rt env ms email rawToken row d0 d))).
  2: { intros []. apply triple_ret. intros s Hs. by exists row. }
  apply (triple_await _ _ (fun _ d => issued rt env ms email rawToken row d0 d)
           (fun d => d = d0)); [done|].
  intros d ->. unfold insertToken.
  destruct (existsb (fun r => String.eqb (token_id r) (token_id row))
                    (passwordResetTokens d0)); cbn [orb]; [reflexivity|].
  destruct (existsb (fun r => String.eqb (token_tokenHash r) (token_tokenHash row))
                    (passwordResetTokens d0)) eqn:Hhash; [reflexivity|].
  unfold issued. cbn [users passwordResetTokens].
  repeat split; try done. by exists u.
Qed.

Lemma find_app_fresh {A} (p : A → bool) (l : list A) (x : A) :
  existsb p l = false → p x = true → List.find p (l ++ [x]) = Some x.
Proof.
  intros Hl Hx. induction l as [|a l IH]; simpl.
  - by rewrite Hx.
  - simpl in Hl. apply orb_false_iff in Hl as [Ha Hl]. rewrite Ha. by apply IH.
Qed.

(** With nothing failing, a usable token is redeemed. *)
Lemma resetPassword_calm rt input (w : World AuthDb) t :
  faultIn w = None →
  usableToken rt (token input) (clock w) (store w) = Some t →
  returned (resetPassword rt input w) = true.
Proof.
  intros Hf Husable. destruct w as [d f now ids n].
  cbn [faultIn clock store] in Hf, Husable. subst f.
  unfold usableToken in Husable.
  destruct (List.find _ (passwordResetTokens d)) as [t'|] eqn:Hfind; [|done].
  destruct (truthy (token_usedAt t') || String.ltb (token_expiresAt t') now) eqn:Hguard;
    [done|].
  unfold resetPassword. cbv zeta.
  unfold bind at 1. unfold getIsoTimestamp at 1. cbn [clock].
  unfold bind at 1. unfold await at 1.
  cbn [faultIn store tick clock entropy drawn fmap option_fmap option_map].
  unfold selectTokenByHash. rewrite Hfind. rewrite Hguard.
  unfold bind at 1. unfold VideoTasks.transaction.
  unfold await at 1. cbn [faultIn store tick clock entropy drawn fmap option_fmap option_map].
  unfold bind at 1. unfold await at 1.
  cbn [faultIn store tick clock entropy drawn fmap option_fmap option_map].
  unfold bind at 1. unfold await at 1.
  cbn [faultIn store tick clock entropy drawn fmap option_fmap option_map].
  unfold updateUserPassword at 1.
  unfold await at 1.
  cbn [faultIn store tick clock entropy drawn fmap option_fmap option_map].
  unfold updateTokenUsed at 1.
  unfold await at 1.
  cbn [faultIn store tick clock entropy drawn fmap option_fmap option_map].
  reflexivity.
Qed.

End AccountFacts.

Module AccountTheorems.
Import Fx FxRules Accounts AccountFacts.

(** X20.  A reset token works once.  After [resetPassword] has returned
    [true] for a token (at a time whose timestamp is not empty), a later
    call with the same token, whatever the new password and the time,
    changes nothing in the store and never returns [true]. *)
Theorem reset_token_single_use (rt : Runtime) (input input2 : ResetPasswordRequest)
        (w w' w2 : World AuthDb) :
  clock w ≠ "" →
  resetPassword rt input w = Returned true w' →
  token input2 = token input →
  store w2 = store w' →
  store (stateOf (resetPassword rt input2 w2)) = store w2
  ∧ ∀ b w3, resetPassword rt input2 w2 = Returned b w3 → b = false.
Proof.
  intros Hclock Hfirst Htoken Hstore.
  pose proof (resetPassword_outcome rt input w) as H1. rewrite Hfirst in H1.
  destruct H1 as (t & Husable & _ & Htokens).
  assert (usableToken rt (token input2) (clock w2) (store w2) = None) as Hspent.
  { unfold usableToken in *. rewrite Htoken, Hstore, Htokens.
    rewrite (find_map_same _ _ (fun r => if String.eqb (token_id r) (token_id t)
                                         then setUsedAt (clock w) r else r)).
    2: { intros r. by destruct (String.eqb (token_id r) (token_id t)). }
    destruct (List.find _ (passwordResetTokens (store w))) as [t'|]; [|done].
    destruct (truthy (token_usedAt t') || String.ltb (token_expiresAt t') (clock w));
      [done|]. injection Husable as ->. cbn [option_map].
    rewrite String.eqb_refl. cbn [setUsedAt token_usedAt truthy].
    destruct (String.eqb_spec (clock w) ""); done. }
  pose proof (resetPassword_outcome rt input2 w2) as H2.
  destruct (resetPassword rt input2 w2) as [[|] w3|e w3]; cbn [stateOf].
  - destruct H2 as (t2 & Hu2 & _). congruence.
  - destruct H2 as [_ H2]. split; [done|]. by intros b w4 [= <- _].
  - split; [done|]. intros b w4 [=].
Qed.

(** X21.  A password reset is all or nothing and touches one user.  With
    no row for the token's hash, or a row already used or past its
    expiry at the time of the call, [resetPassword] never returns
    [true].  Whenever it does not return [true] (it returns [false] or
    throws, at any statement) the store is as before.  When it returns
    [true] the token's row is marked used at the time of the call, the
    password hash of the token's user is the hash of the new password,
    every other user is unchanged and nobody's credits change. *)
Theorem reset_all_or_nothing (rt : Runtime) (input : ResetPasswordRequest)
        (w : World AuthDb) :
  let result := resetPassword rt input w in
  let d0 := store w in
  let d := store (stateOf result) in
  (usableToken rt (token input) (clock w) d0 = None → ∀ w', result ≠ Returned true w')
  ∧ ((∀ w', result ≠ Returned true w') → d = d0)
  ∧ (∀ w', result = Returned true w' →
       ∃ t, usableToken rt (token input) (clock w) d0 = Some t
            ∧ In (setUsedAt (clock w) t) (passwordResetTokens d)
            ∧ length (passwordResetTokens d) = length (passwordResetTokens d0)
            ∧ (∀ u, users d0 !! token_userId t = Some u →
                    PaymentStore.user_passwordHash <$> users d !! token_userId t
                    = Some (passwordHash rt (password input)))
            ∧ (∀ v, v ≠ token_userId t → users d !! v = users d0 !! v)
            ∧ (∀ v, PaymentStore.user_apiCredits <$> users d !! v
                    = PaymentStore.user_apiCredits <$> users d0 !! v)).
Proof.
  intros result d0 d. subst d.
  pose proof (resetPassword_outcome rt input w) as H. fold result in H. fold d0 in H.
  destruct result as [[|] w1|e w1]; cbn [stateOf].
  - destruct H as (t & Husable & Husers & Htokens).
    split; [intros Hnone; congruence|]. split; [intros Hnot; by destruct (Hnot w1)|].
    intros w' _. exists t. split; [done|].
    assert (In t (passwordResetTokens d0)) as Hin.
    { unfold usableToken in Husable.
      destruct (List.find _ (passwordResetTokens d0)) as [t'|] eqn:Hfind; [|done].
      destruct (_ || _); [done|]. injection Husable as ->.
      by apply List.find_some in Hfind as [Hin _]. }
    split.
    { rewrite Htokens. apply in_map_iff. exists t. by rewrite String.eqb_refl. }
    split; [by rewrite Htokens, length_map|].
    rewrite Husers. split; [|split].
    + intros u Hu. rewrite Hu. by rewrite lookup_insert_eq.
    + intros v Hv. destruct (users d0 !! token_userId t); [|done].
      by rewrite lookup_insert_ne.
    + intros v. destruct (users d0 !! token_userId t) as [u|] eqn:Hu; [|done].
      destruct (decide (v = token_userId t)) as [->|Hv].
      * by rewrite lookup_insert_eq, Hu.
      * by rewrite lookup_insert_ne.
  - destruct H as [Hnone Hsame]. split; [done|]. split; [done|]. intros w' [=].
  - split; [done|]. split; [done|]. intros w' [=].
Qed.

(** X22.  A token that was issued can be redeemed.  When
    [createForgotPasswordToken] has returned a raw token, the store holds
    one more token row, unused, for the user found under the normalized
    email, and the users are as before; and [resetPassword] with that raw
    token, at a time not after the expiry written (the time of issue plus
    the configured minutes) and with nothing failing, returns [true] and
    sets the password of that user. *)
Theorem issued_token_redeems (rt : Runtime) (env : AccountEnv) (ms : Z) (email newPassword : string)
        (w w1 w2 : World AuthDb) (rawToken : string) :
  createForgotPasswordToken rt env ms email w = Returned (Some rawToken) w1 →
  store w2 = store w1 →
  faultIn w2 = None →
  String.ltb (toISOString rt (ms + passwordResetTokenTtlMinutes env * 60 * 1000)%Z)
             (clock w2) = false →
  ∃ t w3,
    issued rt env ms email rawToken t (store w) (store w1)
    ∧ resetPassword rt (mkReset rawToken newPassword) w2 = Returned true w3
    ∧ resetDone rt (mkReset rawToken newPassword) (clock w2) t (store w2) (store w3).
Proof.
  intros Hissue Hstore Hf Hfresh.
  pose proof (createForgotPasswordToken_outcome rt env ms email (store w) w eq_refl) as H.
  rewrite Hissue in H. destruct H as (t & Hissued). exists t.
  pose proof Hissued as (Husers & Htokens & Hhash & Hunused & Hexp & Hnew & _).
  assert (usableToken rt rawToken (clock w2) (store w2) = Some t) as Husable.
  { unfold usableToken. rewrite Hstore, Htokens.
    rewrite (find_app_fresh _ _ t Hnew).
    - by rewrite Hunused, Hexp, Hfresh.
    - rewrite Hhash. apply String.eqb_refl. }
  pose proof (resetPassword_calm rt (mkReset rawToken newPassword) w2 t Hf Husable) as Hret.
  pose proof (resetPassword_outcome rt (mkReset rawToken newPassword) w2) as Hout.
  destruct (resetPassword rt (mkReset rawToken newPassword) w2) as [[|] w3|e w3]; try done.
  - exists w3. split; [done|]. split; [done|].
    destruct Hout as (t' & Ht' & Hdone). cbn [token] in Ht'.
    rewrite Husable in Ht'. by injection Ht' as <-.
  - destruct Hout as [Hnone _]. cbn [token] in Hnone. congruence.
Qed.

(** X23.  Registration adds one user and keeps emails unique.  In every
    outcome of [register] the store is as before, or holds exactly one
    more user, under a fresh id, with the trimmed name, the normalized
    email, the hash of the password and the initial credits, the other
    users and the reset tokens being as before.  When an existing user
    holds the normalized email, [register] does not return and the store
    is as before.  If no two users shared an email before, none do
    after.  The profile returned is that of the user added. *)
Theorem register_keeps_emails_unique (rt : Runtime) (env : AccountEnv)
        (input : RegisterRequest) (w : World AuthDb) :
  let result := register rt env input w in
  let d0 := store w in
  let d := store (stateOf result) in
  (d = d0 ∨ ∃ id u, registered rt env input id u d0 d)
  ∧ (emailTaken (toLowerCase rt (trim rt (email input))) d0 →
     returned result = false ∧ d = d0)
  ∧ (uniqueEmails d0 → uniqueEmails d)
  ∧ (∀ profile w', result = Returned profile w' →
       ∃ id u, registered rt env input id u d0 d
               ∧ users d !! id = Some u
               ∧ profile = Sessions.mapDatabaseUserToProfile id u
               ∧ Sessions.profile_apiCredits profile = initialUserCredits env).
Proof.
  intros result d0 d. subst d.
  pose proof (register_outcome rt env input d0 w eq_refl) as H. fold result in H.
  assert (∀ d id u, registered rt env input id u d0 d → uniqueEmails d0 → uniqueEmails d)
    as Hunique.
  { intros d id u (Hfresh & Hfree & Husers & _ & _ & Hemail & _) Huniq i j x y Hx Hy Hxy.
    rewrite Husers in Hx, Hy.
    destruct (decide (i = id)) as [->|Hi]; destruct (decide (j = id)) as [->|Hj]; [done|..].
    - rewrite lookup_insert_eq in Hx. rewrite lookup_insert_ne in Hy by done.
      injection Hx as <-. exfalso. apply Hfree. exists j, y. split; [done|]. congruence.
    - rewrite lookup_insert_eq in Hy. rewrite lookup_insert_ne in Hx by done.
      injection Hy as <-. exfalso. apply Hfree. exists i, x. split; [done|]. congruence.
    - rewrite lookup_insert_ne in Hx, Hy by done. by apply (Huniq i j x y). }
  destruct result as [profile w1|e w1]; cbn [stateOf returned]; unfold onStore in H.
  - destruct H as (id & u & Hreg & ->).
    split; [right; by exists id, u|]. split; [|split].
    + intros Htaken. by destruct Hreg as (_ & Hfree & _).
    + by apply (Hunique _ id u).
    + intros profile w' [= <- <-]. exists id, u. split; [done|].
      destruct Hreg as (_ & _ & Husers & _ & _ & _ & _ & Hcredits).
      split; [by rewrite Husers, lookup_insert_eq|]. split; [done|]. exact Hcredits.
  - subst d0. rewrite H. split; [by left|]. split; [done|]. split; [done|]. intros p w' [=].
Qed.

(** *** On concrete inputs *)

Import PaymentFixtures ServerFixtures.

Lemma reset_token_single_use_witness :
  let w := calm authDbAlice "2026-03-01T10:05:00.000Z" uuidsC in
  let w' := stateOf (resetPassword resetRuntime resetRequest w) in
  let again := mkReset rawResetToken "hunter2" in
  let w2 := calm (store w') "2026-03-01T10:06:00.000Z" uuidsC in
  resetPassword resetRuntime resetRequest w = Returned true w'
  ∧ store (stateOf (resetPassword resetRuntime again w2)) = store w2
  ∧ (∀ b w3, resetPassword resetRuntime again w2 = Returned b w3 → b = false).
Proof.
  intros w w' again w2.
  assert (resetPassword resetRuntime resetRequest w = Returned true w') as Hfirst
    by reflexivity.
  split; [exact Hfirst|].
  destruct (reset_token_single_use resetRuntime resetRequest again w w' w2)
    as [Hstore Hfalse]; [discriminate | exact Hfirst | reflexivity | reflexivity |].
  by split.
Defined.

(** Thirty-one minutes after it was issued the token is past its
    expiry. *)
Lemma reset_all_or_nothing_witness :
  let late := calm authDbAlice "2026-03-01T10:31:00.000Z" uuidsC in
  store (stateOf (resetPassword resetRuntime resetRequest late)) = authDbAlice.
Proof.
  intros late.
  destruct (reset_all_or_nothing resetRuntime resetRequest late) as (Hnever & Hsame & _).
  apply Hsame. apply Hnever. reflexivity.
Defined.

(** Issued at 10:00, redeemed at 10:05. *)
Lemma issued_token_redeems_witness :
  let w := calm authDbNoToken "2026-03-01T10:00:00.000Z" uuidsC in
  let w1 := stateOf (createForgotPasswordToken resetRuntime resetEnv 1772359200000
                       "alice@example.com" w) in
  let w2 := calm (store w1) "2026-03-01T10:05:00.000Z" uuidsC in
  createForgotPasswordToken resetRuntime resetEnv 1772359200000 "alice@example.com" w
  = Returned (Some rawResetToken) w1
  ∧ ∃ w3, resetPassword resetRuntime resetRequest w2 = Returned true w3.
Proof.
  intros w w1 w2.
  assert (createForgotPasswordToken resetRuntime resetEnv 1772359200000
            "alice@example.com" w = Returned (Some rawResetToken) w1) as Hissue
    by reflexivity.
  split; [exact Hissue|].
  destruct (issued_token_redeems resetRuntime resetEnv 1772359200000 "alice@example.com"
              "correct horse battery staple" w w1 w2 rawResetToken)
    as (t & w3 & _ & Hres & _); [exact Hissue | reflexivity | reflexivity | reflexivity |].
  by exists w3.
Defined.

Lemma register_keeps_emails_unique_witness :
  let w := calm authDbAlice "2026-03-01T10:00:00.000Z" uuidsC in
  returned (register resetRuntime resetEnv registerRequest w) = false
  ∧ store (stateOf (register resetRuntime resetEnv registerRequest w)) = authDbAlice.
Proof.
  intros w.
  destruct (register_keeps_emails_unique resetRuntime resetEnv registerRequest w)
    as (_ & Htaken & _).
  apply Htaken. exists aliceId, alice. split; reflexivity.
Defined.

End AccountTheorems.

